(** * Persistence core of the Yjs sync server (index.js)

    A shallow embedding of the server's room-name codec, save coordinator,
    file-index reconciliation and listing endpoint, with the properties its
    design document states about them. *)

From Stdlib Require Import NArith ZArith Ascii String List Lia Bool.
From stdpp Require Import gmap list fin_maps.

(** ** JavaScript strings

    A JS string is a sequence of UTF-16 code units; [length], [replace],
    [slice] and the URI functions all work on code units. *)

Module JS.

Definition jsstring := list N.

(** Code units of an ASCII literal. *)
Definition js (s : string) : jsstring :=
  map N_of_ascii (list_ascii_of_string s).
Arguments js s%_string.

Definition is_code_unit (c : N) : Prop := (c < 65536)%N.
Definition is_jsstring (s : jsstring) : Prop := Forall is_code_unit s.

(** [inRange lo hi c] is [lo <= c <= hi]. *)
Definition inRange (lo hi c : N) : bool := ((lo <=? c) && (c <=? hi))%N.

Definition isHighSurrogate (c : N) : bool := inRange 0xD800 0xDBFF c.
Definition isLowSurrogate (c : N) : bool := inRange 0xDC00 0xDFFF c.

(** Thrown values that the server code can observe. *)
Inductive exn : Type :=
  | URIError.

Inductive completion (A : Type) : Type :=
  | Normal (a : A)
  | Throw (e : exn).
Arguments Normal {A} a.
Arguments Throw {A} e.

Definition cbind {A B} (c : completion A) (k : A -> completion B) : completion B :=
  match c with
  | Normal a => k a
  | Throw e => Throw e
  end.

Definition cmap {A B} (f : A -> B) (c : completion A) : completion B :=
  cbind c (fun a => Normal (f a)).

(** [s.startsWith(p)] *)
Fixpoint startsWith (p s : jsstring) : bool :=
  match p, s with
  | [], _ => true
  | _ :: _, [] => false
  | a :: p', b :: s' => (a =? b)%N && startsWith p' s'
  end.

(** [s.endsWith(p)] *)
Definition endsWith (p s : jsstring) : bool :=
  startsWith (rev p) (rev s).

(** [s.slice(4, -4)]: from index 4 up to (not including) index [length - 4];
    empty when the two indices cross. *)
Definition slice_4_m4 (s : jsstring) : jsstring :=
  firstn (length s - 4 - 4) (skipn 4 s).

(** [s.replace(/c/g, d)] for a single literal character [c]. *)
Definition replaceAll (c d : N) (s : jsstring) : jsstring :=
  map (fun x => if (x =? c)%N then d else x) s.

End JS.
Export JS.

(** ** Base64 as Node's [Buffer] decodes it

    [Buffer.from(s, 'base64')] never throws.  The decoder looks at the low
    byte of every code unit, accepts both the standard and the URL-safe
    alphabet, skips every other character, and stops at the first [=]. *)

Module Base64.
Local Open Scope N_scope.

(** Value of an alphabet character (Node's [unbase64] table). *)
Definition unbase64 (c : N) : option N :=
  if inRange 65 90 c then Some (c - 65)
  else if inRange 97 122 c then Some (c - 71)
  else if inRange 48 57 c then Some (c + 4)
  else if (c =? 43) || (c =? 45) then Some 62
  else if (c =? 47) || (c =? 95) then Some 63
  else None.

(** The legal characters met before the first [=], as 6-bit values. *)
Fixpoint sextets (s : jsstring) : list N :=
  match s with
  | [] => []
  | u :: r =>
      let c := u mod 256 in
      match unbase64 c with
      | Some v => v :: sextets r
      | None => if c =? 61 then [] else sextets r
      end
  end.

Definition byte1 (hi lo : N) : N :=
  (N.lor (N.shiftl (N.land hi 0x3F) 2) (N.shiftr (N.land lo 0x30) 4)) mod 256.
Definition byte2 (hi lo : N) : N :=
  (N.lor (N.shiftl (N.land hi 0x0F) 4) (N.shiftr (N.land lo 0x3C) 2)) mod 256.
Definition byte3 (hi lo : N) : N :=
  (N.lor (N.shiftl (N.land hi 0x03) 6) (N.land lo 0x3F)) mod 256.

(** Groups of four values give three bytes; a trailing group of three gives
    two, of two gives one, and a single trailing value gives none. *)
Fixpoint decodeGroups (l : list N) : list N :=
  match l with
  | a :: b :: c :: d :: r => byte1 a b :: byte2 b c :: byte3 c d :: decodeGroups r
  | [a; b; c] => [byte1 a b; byte2 b c]
  | [a; b] => [byte1 a b]
  | _ => []
  end.

(** [Buffer.from(s, 'base64')] *)
Definition bufferFromBase64 (s : jsstring) : list N :=
  decodeGroups (sextets s).

(** Modelled from the spec: the encoder is not part of the server sources.
    "base64url-encode (no padding)": the URL-safe alphabet, [-] and [_] in
    place of [+] and [/], and no trailing [=]. *)
Definition base64urlChar (v : N) : N :=
  if v <? 26 then 65 + v
  else if v <? 52 then 71 + v
  else if v <? 62 then v - 4
  else if v =? 62 then 45
  else 95.

Fixpoint encodeGroups (bs : list N) : list N :=
  match bs with
  | x :: y :: z :: r =>
      x / 4 :: (x mod 4) * 16 + y / 16 :: (y mod 16) * 4 + z / 64 :: z mod 64
        :: encodeGroups r
  | [x; y] => [x / 4; (x mod 4) * 16 + y / 16; (y mod 16) * 4]
  | [x] => [x / 4; (x mod 4) * 16]
  | [] => []
  end.

Definition base64urlEncode (bs : list N) : jsstring :=
  map base64urlChar (encodeGroups bs).

End Base64.

(** ** UTF-8 and UTF-16 *)

Module Utf8.
Local Open Scope N_scope.

(** UTF16EncodeCodePoint *)
Definition utf16Encode (cp : N) : jsstring :=
  if cp <? 0x10000 then [cp]
  else [0xD800 + (cp - 0x10000) / 1024; 0xDC00 + (cp - 0x10000) mod 1024].

(** State of the WHATWG UTF-8 decoder, which [buf.toString('utf-8')]
    follows: malformed input never throws, every maximal ill-formed
    subsequence becomes U+FFFD. *)
Record dstate := DState {
  code_point : N;
  bytes_seen : N;
  bytes_needed : N;
  lower : N;
  upper : N
}.

Definition dinit : dstate := DState 0 0 0 0x80 0xBF.

(** A byte read while no sequence is open. *)
Definition leadByte (b : N) : list N * dstate :=
  if b <=? 0x7F then ([b], dinit)
  else if inRange 0xC2 0xDF b then ([], DState (N.land b 0x1F) 0 1 0x80 0xBF)
  else if inRange 0xE0 0xEF b then
    ([], DState (N.land b 0xF) 0 2
           (if b =? 0xE0 then 0xA0 else 0x80) (if b =? 0xED then 0x9F else 0xBF))
  else if inRange 0xF0 0xF4 b then
    ([], DState (N.land b 0x7) 0 3
           (if b =? 0xF0 then 0x90 else 0x80) (if b =? 0xF4 then 0x8F else 0xBF))
  else ([0xFFFD], dinit).

Fixpoint decodeFrom (st : dstate) (bs : list N) : list N :=
  match bs with
  | [] => if bytes_needed st =? 0 then [] else [0xFFFD]
  | b :: r =>
      if bytes_needed st =? 0 then
        let '(out, st') := leadByte b in out ++ decodeFrom st' r
      else if negb (inRange (lower st) (upper st) b) then
        (* the byte is put back and read again with a fresh state *)
        let '(out, st') := leadByte b in 0xFFFD :: out ++ decodeFrom st' r
      else
        let cp := N.lor (N.shiftl (code_point st) 6) (N.land b 0x3F) in
        if bytes_seen st + 1 =? bytes_needed st then cp :: decodeFrom dinit r
        else decodeFrom (DState cp (bytes_seen st + 1) (bytes_needed st) 0x80 0xBF) r
  end.

(** [buf.toString('utf-8')] *)
Definition bufferToStringUtf8 (bs : list N) : jsstring :=
  flat_map utf16Encode (decodeFrom dinit bs).

(** Modelled from the spec: the encoder is not part of the server sources.
    "UTF-8-encode": the bytes of one code point. *)
Definition utf8EncodeCodePoint (cp : N) : list N :=
  if cp <? 0x80 then [cp]
  else if cp <? 0x800 then [0xC0 + cp / 64; 0x80 + cp mod 64]
  else if cp <? 0x10000 then
    [0xE0 + cp / 4096; 0x80 + (cp / 64) mod 64; 0x80 + cp mod 64]
  else
    [0xF0 + cp / 262144; 0x80 + (cp / 4096) mod 64; 0x80 + (cp / 64) mod 64;
     0x80 + cp mod 64].

(** Modelled from the spec: the encoder is not part of the server sources.
    "UTF-8-encode" of a string: surrogate pairs are joined into one code
    point; a surrogate without its partner has no UTF-8 form (JS's
    [encodeURIComponent] throws a [URIError] there). *)
Fixpoint utf8EncodeString (s : jsstring) : completion (list N) :=
  match s with
  | [] => Normal []
  | c :: r =>
      if isHighSurrogate c then
        match r with
        | d :: r' =>
            if isLowSurrogate d then
              cmap (app (utf8EncodeCodePoint
                           (0x10000 + (c - 0xD800) * 1024 + (d - 0xDC00))))
                   (utf8EncodeString r')
            else Throw URIError
        | [] => Throw URIError
        end
      else if isLowSurrogate c then Throw URIError
      else cmap (app (utf8EncodeCodePoint c)) (utf8EncodeString r)
  end.

(** [s.isWellFormed()]: no surrogate stands alone. *)
Fixpoint isWellFormed (s : jsstring) : bool :=
  match s with
  | [] => true
  | c :: r =>
      if isHighSurrogate c then
        match r with
        | d :: r' => isLowSurrogate d && isWellFormed r'
        | [] => false
        end
      else negb (isLowSurrogate c) && isWellFormed r
  end.

End Utf8.

(** ** Percent-escapes: [decodeURIComponent] *)

Module URI.
Local Open Scope N_scope.

(** Value of a hexadecimal digit, either case. *)
Definition hexval (c : N) : option N :=
  if inRange 48 57 c then Some (c - 48)
  else if inRange 65 70 c then Some (c - 55)
  else if inRange 97 102 c then Some (c - 87)
  else None.

(** The string cut into plain code units and [%XX] octets. *)
Inductive token : Type :=
  | Lit (c : N)
  | Oct (b : N).

(** Every [%] must be followed by two hexadecimal digits. *)
Fixpoint unescape (s : jsstring) : completion (list token) :=
  match s with
  | [] => Normal []
  | c :: r =>
      if c =? 37 then
        match r with
        | h :: l :: r' =>
            match hexval h, hexval l with
            | Some x, Some y => cmap (cons (Oct (16 * x + y))) (unescape r')
            | _, _ => Throw URIError
            end
        | _ => Throw URIError
        end
      else cmap (cons (Lit c)) (unescape r)
  end.

(** Number of leading 1 bits of an octet, capped at 5. *)
Definition leadingOnes (b : N) : nat :=
  if b <? 0x80 then 0%nat
  else if b <? 0xC0 then 1%nat
  else if b <? 0xE0 then 2%nat
  else if b <? 0xF0 then 3%nat
  else if b <? 0xF8 then 4%nat
  else 5%nat.

(** The code point of a well-formed UTF-8 sequence of two, three or four
    octets (no overlong forms, no surrogates, nothing above U+10FFFF). *)
Definition codePoint2 (b0 b1 : N) : option N :=
  if inRange 0xC2 0xDF b0 && inRange 0x80 0xBF b1
  then Some ((b0 mod 32) * 64 + b1 mod 64) else None.

Definition codePoint3 (b0 b1 b2 : N) : option N :=
  if inRange 0xE0 0xEF b0
     && inRange (if b0 =? 0xE0 then 0xA0 else 0x80)
                (if b0 =? 0xED then 0x9F else 0xBF) b1
     && inRange 0x80 0xBF b2
  then Some ((b0 mod 16) * 4096 + (b1 mod 64) * 64 + b2 mod 64) else None.

Definition codePoint4 (b0 b1 b2 b3 : N) : option N :=
  if inRange 0xF0 0xF4 b0
     && inRange (if b0 =? 0xF0 then 0x90 else 0x80)
                (if b0 =? 0xF4 then 0x8F else 0xBF) b1
     && inRange 0x80 0xBF b2 && inRange 0x80 0xBF b3
  then Some ((b0 mod 8) * 262144 + (b1 mod 64) * 4096 + (b2 mod 64) * 64 + b3 mod 64)
  else None.

Definition emit (cp : option N) (rest : completion jsstring) : completion jsstring :=
  match cp with
  | Some v => cmap (app (Utf8.utf16Encode v)) rest
  | None => Throw URIError
  end.

(** An octet below 0x80 stands for itself; an octet with [n] leading 1 bits
    must be followed by [n - 1] further escapes and form valid UTF-8 with
    them. *)
Fixpoint assemble (ts : list token) : completion jsstring :=
  match ts with
  | [] => Normal []
  | Lit c :: r => cmap (cons c) (assemble r)
  | Oct b0 :: r =>
      match leadingOnes b0 with
      | 0%nat => cmap (cons b0) (assemble r)
      | 2%nat =>
          match r with
          | Oct b1 :: r1 => emit (codePoint2 b0 b1) (assemble r1)
          | _ => Throw URIError
          end
      | 3%nat =>
          match r with
          | Oct b1 :: Oct b2 :: r2 => emit (codePoint3 b0 b1 b2) (assemble r2)
          | _ => Throw URIError
          end
      | 4%nat =>
          match r with
          | Oct b1 :: Oct b2 :: Oct b3 :: r3 =>
              emit (codePoint4 b0 b1 b2 b3) (assemble r3)
          | _ => Throw URIError
          end
      | _ => Throw URIError
      end
  end.

(** [decodeURIComponent(s)]; every failure is a [URIError]. *)
Definition decodeURIComponent (s : jsstring) : completion jsstring :=
  cbind (unescape s) assemble.

(** Modelled from the spec: the encoder is not part of the server sources.
    "percent-encode": bytes of the characters that [encodeURIComponent]
    leaves alone (letters, digits and [-_.!~*'()]) stay, every other byte
    becomes [%] and two upper-case hexadecimal digits. *)
Definition uriUnescaped (c : N) : bool :=
  inRange 65 90 c || inRange 97 122 c || inRange 48 57 c
  || existsb (N.eqb c) [45; 95; 46; 33; 126; 42; 39; 40; 41].

Definition hexDigit (n : N) : N :=
  if n <? 10 then 48 + n else 55 + n.

Definition percentEncodeByte (b : N) : jsstring :=
  if uriUnescaped b then [b] else [37; hexDigit (b / 16); hexDigit (b mod 16)].

Definition percentEncode (bs : list N) : jsstring :=
  flat_map percentEncodeByte bs.

End URI.

(** ** RoomNameCodec *)

Module RoomNameCodec.
Import Base64 Utf8 URI.
Local Open Scope N_scope.

(** [while (base64.length % 4 !== 0) base64 += '='], unrolled [fuel] times. *)
Fixpoint padLoop (fuel : nat) (base64 : jsstring) : jsstring :=
  match fuel with
  | O => base64
  | S fuel' =>
      if (length base64 mod 4 =? 0)%nat then base64
      else padLoop fuel' (base64 ++ [61])
  end.

(** Three rounds always reach a multiple of four. *)
Definition addPadding (base64 : jsstring) : jsstring := padLoop 3 base64.

(** index.js, [roomToPath]. *)
Definition roomToPath (room : jsstring) : completion jsstring :=
  let base64 := replaceAll 95 47 (replaceAll 45 43 room) in
  let base64 := addPadding base64 in
  decodeURIComponent (bufferToStringUtf8 (bufferFromBase64 base64)).

(** Modelled from the spec: [pathToRoom] lives in the client, not in the
    server sources.  "encoding is: UTF-8-encode → percent-encode →
    base64url-encode (no padding)". *)
Definition pathToRoom (path : jsstring) : completion jsstring :=
  cmap (fun bytes => base64urlEncode (percentEncode bytes)) (utf8EncodeString path).

End RoomNameCodec.

(** ** Object store, documents and the server state *)

Module Server.
Import RoomNameCodec.

(** What a rejected [minioClient] call carries: [err.code], [err.message]. *)
Record StoreError := { code : jsstring; message : jsstring }.

Inductive settled (A : Type) : Type :=
  | Resolved (a : A)
  | Rejected (e : StoreError).
Arguments Resolved {A} a.
Arguments Rejected {A} e.

(** The value of an entry of the ['files'] map, as far as the server
    looks at it: [metadata?.type], when it is a string. *)
Record Metadata := { type : option jsstring }.

(** The shared types of a [Y.Doc] that the server reads:
    [getMap('files')] and [getText('content')]. *)
Record YDoc := {
  files : gmap jsstring Metadata;
  content : jsstring
}.

Definition emptyDoc : YDoc := {| files := ∅; content := [] |}.

(** [Y.encodeStateAsUpdate(ydoc)]: the wire format is opaque to the server,
    so a snapshot is identified with the document state it encodes. *)
Definition Buffer := YDoc.
Definition encodeStateAsUpdate (d : YDoc) : Buffer := d.

(** Calls on [minioClient]. *)
Inductive Request : Type :=
  | GetObject (key : jsstring)
  | PutObject (key : jsstring) (buffer : Buffer)
  | StatObject (key : jsstring)
  | RemoveObject (key : jsstring)
  | ListObjects (prefix : jsstring).

(** The effect of a successful call on the bucket. *)
Definition applyRequest (r : Request) (bucket : gmap jsstring Buffer)
  : gmap jsstring Buffer :=
  match r with
  | PutObject key buffer => <[key := buffer]> bucket
  | RemoveObject key => delete key bucket
  | _ => bucket
  end.

(** [statObject]: a transient fault rejects with that error; otherwise a
    missing object rejects with code [NotFound]. *)
Definition notFound : StoreError :=
  {| code := js "NotFound"; message := js "Not Found" |}.

Definition statObject (bucket : gmap jsstring Buffer) (fault : option StoreError)
    (key : jsstring) : settled unit :=
  match fault with
  | Some e => Rejected e
  | None =>
      match bucket !! key with
      | Some _ => Resolved tt
      | None => Rejected notFound
      end
  end.

(** [getObject]: a missing object rejects with code [NoSuchKey]. *)
Definition noSuchKey : StoreError :=
  {| code := js "NoSuchKey"; message := js "The specified key does not exist." |}.

Definition getObject (bucket : gmap jsstring Buffer) (fault : option StoreError)
    (key : jsstring) : settled Buffer :=
  match fault with
  | Some e => Rejected e
  | None =>
      match bucket !! key with
      | Some b => Resolved b
      | None => Rejected noSuchKey
      end
  end.

(** An armed [setTimeout] of [debouncedSave]: its closure holds the
    document name and the document object. *)
Record Timer := {
  timerId : nat;
  deadline : N;
  timerDoc : jsstring;
  timerYdoc : nat
}.

(** A [saveToMinIO] suspended at its [await]. *)
Record InFlight := {
  flightDoc : jsstring;
  flightCall : Request
}.

(** The promise an [async] function hands back, as it stands when the
    function first yields. *)
Inductive Promise : Type :=
  | Fulfilled
  | Rejects (e : StoreError)
  | Pending.

Record State := MkState {
  store : gmap jsstring Buffer;        (* the bucket *)
  docs : gmap nat YDoc;                (* live Y.Doc objects, by identity *)
  observers : list (nat * jsstring);   (* ydoc.on('update', ...) of bindState *)
  saveLocks : gmap jsstring bool;
  saveTimers : gmap jsstring nat;
  timers : list Timer;                 (* armed timeouts, oldest first *)
  nextTimer : nat;
  clock : N;                           (* milliseconds *)
  inflight : list InFlight;            (* saves awaiting the store *)
  requests : list Request              (* every minioClient call so far *)
}.

Definition set_store f st :=
  MkState (f (store st)) (docs st) (observers st) (saveLocks st) (saveTimers st)
    (timers st) (nextTimer st) (clock st) (inflight st) (requests st).
Definition set_docs f st :=
  MkState (store st) (f (docs st)) (observers st) (saveLocks st) (saveTimers st)
    (timers st) (nextTimer st) (clock st) (inflight st) (requests st).
Definition set_observers f st :=
  MkState (store st) (docs st) (f (observers st)) (saveLocks st) (saveTimers st)
    (timers st) (nextTimer st) (clock st) (inflight st) (requests st).
Definition set_saveLocks f st :=
  MkState (store st) (docs st) (observers st) (f (saveLocks st)) (saveTimers st)
    (timers st) (nextTimer st) (clock st) (inflight st) (requests st).
Definition set_saveTimers f st :=
  MkState (store st) (docs st) (observers st) (saveLocks st) (f (saveTimers st))
    (timers st) (nextTimer st) (clock st) (inflight st) (requests st).
Definition set_timers f st :=
  MkState (store st) (docs st) (observers st) (saveLocks st) (saveTimers st)
    (f (timers st)) (nextTimer st) (clock st) (inflight st) (requests st).
Definition set_nextTimer f st :=
  MkState (store st) (docs st) (observers st) (saveLocks st) (saveTimers st)
    (timers st) (f (nextTimer st)) (clock st) (inflight st) (requests st).
Definition set_clock f st :=
  MkState (store st) (docs st) (observers st) (saveLocks st) (saveTimers st)
    (timers st) (nextTimer st) (f (clock st)) (inflight st) (requests st).
Definition set_inflight f st :=
  MkState (store st) (docs st) (observers st) (saveLocks st) (saveTimers st)
    (timers st) (nextTimer st) (clock st) (f (inflight st)) (requests st).
Definition set_requests f st :=
  MkState (store st) (docs st) (observers st) (saveLocks st) (saveTimers st)
    (timers st) (nextTimer st) (clock st) (inflight st) (f (requests st)).

(** The server just started: empty maps, nothing armed, nothing in flight.
    The bucket may already hold objects. *)
Definition init (bucket : gmap jsstring Buffer) : State :=
  MkState bucket ∅ [] ∅ ∅ [] 0 0%N [] [].

(** A [Y.Doc] that nobody has touched yet is empty. *)
Definition getDoc (st : State) (ydoc : nat) : YDoc :=
  default emptyDoc (docs st !! ydoc).

(** [`yjs/${docName}.yjs`] *)
Definition objectKey (docName : jsstring) : jsstring :=
  js "yjs/" ++ docName ++ js ".yjs".

Definition fileIndexName : jsstring := js "__file_index__".

(** A call is made on the client and the caller waits for it. *)
Definition await (docName : jsstring) (r : Request) (st : State) : State :=
  set_inflight (fun l => l ++ [{| flightDoc := docName; flightCall := r |}])
    (set_requests (fun l => l ++ [r]) st).

(** ** SaveCoordinator: [saveToMinIO] and [debouncedSave] *)

(** index.js, [saveToMinIO], up to its [await]. *)
Definition saveToMinIO (docName : jsstring) (ydoc : nat) (st : State)
  : State * Promise :=
  match saveLocks st !! docName with
  | Some true => (st, Fulfilled)
  | _ =>
      let st := set_saveLocks (insert docName true) st in
      let buffer := encodeStateAsUpdate (getDoc st ydoc) in
      (await docName (PutObject (objectKey docName) buffer) st, Pending)
  end.

(** The rest of [saveToMinIO], run when the awaited call of the [i]-th
    suspended save settles: on success the bucket takes the effect, on
    rejection the [catch] only logs; [finally] releases the lock. *)
Definition settle (i : nat) (err : option StoreError) (st : State) : State :=
  match inflight st !! i with
  | None => st
  | Some f =>
      let st := set_inflight (delete i) st in
      let st :=
        match err with
        | None => set_store (applyRequest (flightCall f)) st
        | Some _ => st
        end in
      set_saveLocks (delete (flightDoc f)) st
  end.

Definition SAVE_DEBOUNCE_MS : N := 3000.

Definition clearTimeout (id : nat) (st : State) : State :=
  set_timers (filter (fun t => timerId t ≠ id)) st.

Definition setTimeout (docName : jsstring) (ydoc : nat) (delay : N) (st : State)
  : State * nat :=
  let id := nextTimer st in
  (set_nextTimer S
     (set_timers (fun l => l ++ [{| timerId := id; deadline := (clock st + delay)%N;
                                   timerDoc := docName; timerYdoc := ydoc |}]) st),
   id).

(** index.js, [debouncedSave]. *)
Definition debouncedSave (docName : jsstring) (ydoc : nat) (st : State) : State :=
  let st :=
    match saveTimers st !! docName with
    | Some id => clearTimeout id st
    | None => st
    end in
  let '(st, id) := setTimeout docName ydoc SAVE_DEBOUNCE_MS st in
  set_saveTimers (insert docName id) st.

(** The timeout's callback:
    [saveToMinIO(docName, ydoc); saveTimers.delete(docName)]. *)
Definition timerCallback (t : Timer) (st : State) : State :=
  set_saveTimers (delete (timerDoc t)) (saveToMinIO (timerDoc t) (timerYdoc t) st).1.

(** The runtime runs the callback of armed timer [id] once it is due; a
    timer that has run is no longer armed. *)
Definition fire (id : nat) (st : State) : State :=
  match list_find (fun t => timerId t = id) (timers st) with
  | Some (_, t) =>
      if (deadline t <=? clock st)%N
      then timerCallback t (clearTimeout id st)
      else st
  | None => st
  end.

(** Time passes and every timer that has come due runs, oldest first (all
    timers share one delay, so the oldest is the first due). *)
Definition dueTimers (st : State) : list nat :=
  timerId <$> filter (fun t => (deadline t <= clock st)%N) (timers st).

Definition tick (dt : N) (st : State) : State :=
  set_clock (fun c => (c + dt)%N) st.

Definition elapse (dt : N) (st : State) : State :=
  let st := tick dt st in
  foldl (fun st id => fire id st) st (dueTimers st).

(** ** Document updates and the persistence hooks *)

(** The document emits ['update']: every observer registered by
    [bindState] on this object calls [debouncedSave]. *)
Definition emitUpdate (ydoc : nat) (st : State) : State :=
  foldl (fun st o => if decide (o.1 = ydoc) then debouncedSave o.2 ydoc st else st)
        st (observers st).

(** A transaction changes the document to [d] and emits one ['update']. *)
Definition mutate (ydoc : nat) (d : YDoc) (st : State) : State :=
  emitUpdate ydoc (set_docs (insert ydoc d) st).

(** index.js, [writeState]: [await saveToMinIO(docName, ydoc)]. *)
Definition writeState (docName : jsstring) (ydoc : nat) (st : State)
  : State * Promise :=
  saveToMinIO docName ydoc st.

(** ** FileIndexReconciler: [validateFileIndex] *)

Definition isFolder (m : option Metadata) : bool :=
  match m with
  | Some {| type := Some t |} => bool_decide (t = js "folder")
  | _ => false
  end.

(** [key.replace(/[^a-zA-Z0-9._-]/g, '_')] *)
Definition sanitizeChar (c : N) : N :=
  if inRange 97 122 c || inRange 65 90 c || inRange 48 57 c
     || (c =? 46)%N || (c =? 95)%N || (c =? 45)%N
  then c else 95%N.

Definition minioKey (key : jsstring) : jsstring :=
  js "yjs/" ++ map sanitizeChar key ++ js ".yjs".

Definition isNotFound (r : settled unit) : bool :=
  match r with
  | Rejected e => bool_decide (code e = js "NotFound")
  | Resolved _ => false
  end.

(** The [for] loop over [allKeys]: the [n]-th [statObject] call meets the
    [n]-th entry of [faults] (none once the list is used up).  Returns every
    check made with its outcome, and [keysToDelete]. *)
Fixpoint scanKeys (bucket : gmap jsstring Buffer) (fileIndex : gmap jsstring Metadata)
    (allKeys : list jsstring) (faults : list (option StoreError))
  : list (jsstring * settled unit) * list jsstring :=
  match allKeys with
  | [] => ([], [])
  | key :: rest =>
      if isFolder (fileIndex !! key) then scanKeys bucket fileIndex rest faults
      else
        let r := statObject bucket (default None (head faults)) (minioKey key) in
        let '(checks, keysToDelete) := scanKeys bucket fileIndex rest (tail faults) in
        ((key, r) :: checks, if isNotFound r then key :: keysToDelete else keysToDelete)
  end.

Record Reconciliation := {
  checks : list (jsstring * settled unit);  (* entry key, result of its stat *)
  keysToDelete : list jsstring;
  transactions : list (list jsstring);      (* keys deleted by each ydoc.transact *)
  filesAfter : gmap jsstring Metadata
}.

(** index.js, [validateFileIndex], on the ['files'] map.  The keys are
    walked in the order in which the map here enumerates them; [Y.Map]
    enumerates them in its own (insertion) order, which a finite map does
    not record.  [faults] are the outcomes of the [statObject] calls in the
    order of this walk.  What is stated about the calls is therefore stated
    up to their order, and what is stated about outcomes is stated for
    every [faults] or for none. *)
Definition validateFileIndex (bucket : gmap jsstring Buffer)
    (faults : list (option StoreError)) (fileIndex : gmap jsstring Metadata)
  : Reconciliation :=
  let allKeys := (map_to_list fileIndex).*1 in
  let '(checks, keysToDelete) := scanKeys bucket fileIndex allKeys faults in
  let transactions :=
    if (0 <? length keysToDelete)%nat then [keysToDelete] else [] in
  {| checks := checks;
     keysToDelete := keysToDelete;
     transactions := transactions;
     filesAfter :=
       foldl (fun m tx => foldl (fun m key => delete key m) m tx) fileIndex transactions |}.

(** [validateFileIndex(ydoc)] on the live document: the stat calls go to
    the client, and each transaction is one update of the document. *)
Definition validateFileIndexOf (ydoc : nat) (faults : list (option StoreError))
    (st : State) : State :=
  let r := validateFileIndex (store st) faults (files (getDoc st ydoc)) in
  let st := set_requests (fun l => l ++ map (fun c => StatObject (minioKey c.1)) (checks r)) st in
  foldl (fun st tx =>
           let d := getDoc st ydoc in
           mutate ydoc {| files := foldl (fun m key => delete key m) (files d) tx;
                          content := content d |} st)
        st (transactions r).

(** index.js, [loadFromMinIO]: any rejection gives [null]. *)
Definition loadFromMinIO (docName : jsstring) (fault : option StoreError) (st : State)
  : State * option Buffer :=
  let key := objectKey docName in
  (set_requests (fun l => l ++ [GetObject key]) st,
   match getObject (store st) fault key with
   | Resolved b => Some b
   | Rejected _ => None
   end).

(** index.js, [bindState].  It only reads the bucket, so its awaits are
    taken in one step.  [merged] is the state the document has after
    [Y.applyUpdate(ydoc, data)]; the merge itself belongs to Yjs. *)
Definition bindState (docName : jsstring) (ydoc : nat) (loadFault : option StoreError)
    (merged : YDoc) (statFaults : list (option StoreError)) (st : State) : State :=
  let '(st, data) := loadFromMinIO docName loadFault st in
  let st :=
    match data with
    | Some _ => mutate ydoc merged st
    | None => st
    end in
  let st :=
    if decide (docName = fileIndexName) then validateFileIndexOf ydoc statFaults st
    else st in
  set_observers (fun l => l ++ [(ydoc, docName)]) st.

(** ** The event loop *)

Inductive Event : Type :=
  | EvUpdate (ydoc : nat) (d : YDoc)          (* the engine changes a document *)
  | EvTick (dt : N)                           (* time passes *)
  | EvFire (id : nat)                         (* a due timer runs *)
  | EvSettle (i : nat) (err : option StoreError)  (* an awaited store call settles *)
  | EvWriteState (docName : jsstring) (ydoc : nat)
  | EvBindState (docName : jsstring) (ydoc : nat) (loadFault : option StoreError)
      (merged : YDoc) (statFaults : list (option StoreError)).

Definition step (st : State) (e : Event) : State :=
  match e with
  | EvUpdate ydoc d => mutate ydoc d st
  | EvTick dt => tick dt st
  | EvFire id => fire id st
  | EvSettle i err => settle i err st
  | EvWriteState docName ydoc => (writeState docName ydoc st).1
  | EvBindState docName ydoc loadFault merged statFaults =>
      bindState docName ydoc loadFault merged statFaults st
  end.

Definition run (st : State) (evs : list Event) : State := foldl step st evs.

(** States the server can be in after start-up. *)
Definition reachable (st : State) : Prop :=
  ∃ bucket evs, st = run (init bucket) evs.

(** Names with a save awaiting the store. *)
Definition savesInFlight (docName : jsstring) (st : State) : list InFlight :=
  filter (fun f => flightDoc f = docName) (inflight st).

(** The [putObject] calls made so far for one key. *)
Definition isPutTo (key : jsstring) (r : Request) : bool :=
  match r with
  | PutObject k _ => bool_decide (k = key)
  | _ => false
  end.

Definition putsTo (key : jsstring) (st : State) : list Request :=
  List.filter (isPutTo key) (requests st).

End Server.

(** ** The listing endpoint, [GET /files] *)

Module Http.
Import RoomNameCodec Server.
Local Open Scope N_scope.

Record HttpRequest := { method : jsstring; pathname : jsstring }.

Record HttpResponse := {
  status : nat;
  contentType : option jsstring;
  body : jsstring
}.

(** Keys come back from the store in lexicographic order. *)
Fixpoint keyLe (a b : jsstring) : bool :=
  match a, b with
  | [], _ => true
  | _ :: _, [] => false
  | x :: a', y :: b' => (x <? y) || ((x =? y) && keyLe a' b')
  end.

Fixpoint insertKey (k : jsstring) (l : list jsstring) : list jsstring :=
  match l with
  | [] => [k]
  | h :: t => if keyLe k h then k :: l else h :: insertKey k t
  end.

Definition sortKeys (l : list jsstring) : list jsstring := foldr insertKey [] l.

(** [listObjects(BUCKET_NAME, prefix, true)]: the names under [prefix]. *)
Definition listObjects (bucket : gmap jsstring Buffer) (prefix : jsstring)
  : list jsstring :=
  List.filter (startsWith prefix) (sortKeys (map_to_list bucket).*1).

(** What one round of the [for await] loop pushes onto [files]. *)
Definition listedFile (key : jsstring) : option jsstring :=
  if startsWith (js "yjs/") key && endsWith (js ".yjs") key then
    let roomName := slice_4_m4 key in
    if bool_decide (roomName = fileIndexName) then None
    else
      match roomToPath roomName with
      | Normal filePath => Some filePath
      | Throw _ => None
      end
  else None.

(** [JSON.stringify] of a string (QuoteJSONString). *)
Definition hexLower (n : N) : N := if n <? 10 then 48 + n else 87 + n.

Definition unicodeEscape (c : N) : jsstring :=
  [92; 117; hexLower (c / 4096); hexLower ((c / 256) mod 16);
   hexLower ((c / 16) mod 16); hexLower (c mod 16)].

Definition quoteUnit (c : N) : jsstring :=
  if c =? 8 then [92; 98]
  else if c =? 9 then [92; 116]
  else if c =? 10 then [92; 110]
  else if c =? 12 then [92; 102]
  else if c =? 13 then [92; 114]
  else if c =? 34 then [92; 34]
  else if c =? 92 then [92; 92]
  else if c <? 32 then unicodeEscape c
  else [c].

Fixpoint quoteUnits (s : jsstring) : jsstring :=
  match s with
  | [] => []
  | c :: r =>
      if isHighSurrogate c then
        match r with
        | d :: r' =>
            if isLowSurrogate d then c :: d :: quoteUnits r'
            else unicodeEscape c ++ quoteUnits r
        | [] => unicodeEscape c
        end
      else if isLowSurrogate c then unicodeEscape c ++ quoteUnits r
      else quoteUnit c ++ quoteUnits r
  end.

Definition quoteJSON (s : jsstring) : jsstring := [34] ++ quoteUnits s ++ [34].

Fixpoint joinComma (l : list jsstring) : jsstring :=
  match l with
  | [] => []
  | [x] => x
  | x :: r => x ++ [44] ++ joinComma r
  end.

(** [JSON.stringify({ files })] *)
Definition stringifyFiles (files : list jsstring) : jsstring :=
  js "{" ++ quoteJSON (js "files") ++ js ":[" ++ joinComma (map quoteJSON files)
    ++ js "]}".

(** [JSON.stringify({ error: err.message })] *)
Definition stringifyError (msg : jsstring) : jsstring :=
  js "{" ++ quoteJSON (js "error") ++ js ":" ++ quoteJSON msg ++ js "}".

(** index.js, the request handler of [http.createServer], from the point
    where [new URL(req.url, ...)] has returned: [pathname] is
    [url.pathname].  [listFault] is the error of the listing stream, if it
    breaks.  The handler from its first line, with the URL constructor that
    may throw, is [requestListener] below. *)
Definition handleRequest (req : HttpRequest) (bucket : gmap jsstring Buffer)
    (listFault : option StoreError) : HttpResponse :=
  if bool_decide (method req = js "OPTIONS") then
    {| status := 200; contentType := None; body := [] |}
  else if bool_decide (pathname req = js "/files") && bool_decide (method req = js "GET") then
    match listFault with
    | None =>
        let files := omap listedFile (listObjects bucket (js "yjs/")) in
        {| status := 200; contentType := Some (js "application/json");
           body := stringifyFiles files |}
    | Some err =>
        {| status := 500; contentType := Some (js "application/json");
           body := stringifyError (message err) |}
    end
  else
    {| status := 200; contentType := Some (js "text/plain");
       body := js "Yjs sync server running" |}.

(** The request as Node hands it to the listener: [req.method], [req.url]
    and [req.headers.host] (absent when the client sent none). *)
Record IncomingMessage := {
  reqMethod : jsstring;
  reqUrl : jsstring;
  hostHeader : option jsstring
}.

(** [`http://${req.headers.host}`]; an absent header reads [undefined]. *)
Definition urlBase (host : option jsstring) : jsstring :=
  js "http://" ++ default (js "undefined") host.

(** index.js, the listener given to [http.createServer], from its first
    line.  [new URL(req.url, base)] is evaluated outside every [try] for
    each request that is not [OPTIONS]; when it throws, the [async]
    listener is rejected and nothing is ever written to [res]: the result
    is [None].  The URL parser is Node's, not part of the sources, and is
    the parameter [newURL]: it gives the [pathname], or [None] when the
    constructor throws. *)
Definition requestListener (newURL : jsstring -> jsstring -> option jsstring)
    (req : IncomingMessage) (bucket : gmap jsstring Buffer)
    (listFault : option StoreError) : option HttpResponse :=
  if bool_decide (reqMethod req = js "OPTIONS") then
    Some {| status := 200; contentType := None; body := [] |}
  else
    match newURL (reqUrl req) (urlBase (hostHeader req)) with
    | None => None
    | Some pathname =>
        Some (handleRequest {| method := reqMethod req; pathname := pathname |}
                bucket listFault)
    end.

End Http.

(** ** The earlier variant of the server, which deletes empty documents *)

Module Legacy.
Import Server.

(** The variant's [saveToMinIO], up to its [await]: a document whose
    ['content'] text is empty is removed from the bucket instead of saved,
    unless it is the file index. *)
Definition saveToMinIO (docName : jsstring) (ydoc : nat) (st : State)
  : State * Promise :=
  match saveLocks st !! docName with
  | Some true => (st, Fulfilled)
  | _ =>
      let st := set_saveLocks (insert docName true) st in
      let buffer := encodeStateAsUpdate (getDoc st ydoc) in
      let text := content (getDoc st ydoc) in
      if (length text =? 0)%nat && negb (bool_decide (docName = fileIndexName)) then
        (await docName (RemoveObject (objectKey docName)) st, Pending)
      else
        (await docName (PutObject (objectKey docName) buffer) st, Pending)
  end.

End Legacy.

(** * Vocabulary of the properties *)

Import Base64 Utf8 URI RoomNameCodec Server Http.

(** ** Codec *)

(** The character written for a 6-bit value, after [roomToPath] has put
    [+] and [/] back. *)
Definition restored (v : N) : N :=
  let c := base64urlChar v in
  let c := if (c =? 45)%N then 43%N else c in
  if (c =? 95)%N then 47%N else c.

(** What [unescape] reads back for an encoded byte. *)
Definition tokenOf (b : N) : token := if uriUnescaped b then Lit b else Oct b.

(** [P] holds of every number below [n]; decides small finite cases. *)
Definition below (n : nat) (P : N -> bool) : bool :=
  forallb P (map N.of_nat (seq 0 n)).

(** ** Invariants of the save coordinator *)

(** The lock map is exactly the set of names with a save awaiting the
    store; no name has two; every awaited call is the put of that name's
    object. *)
Record LockInv (st : State) : Prop := {
  lock_flight : forall D,
    saveLocks st !! D
    = if decide (D ∈ flightDoc <$> inflight st) then Some true else None;
  flight_nodup : NoDup (flightDoc <$> inflight st);
  flight_put : forall f, f ∈ inflight st ->
    exists buffer, flightCall f = PutObject (objectKey (flightDoc f)) buffer
}.

(** The timer map is exactly the set of armed timers; no name has two;
    identifiers are never reused. *)
Record TimerInv (st : State) : Prop := {
  timer_docs : NoDup (timerDoc <$> timers st);
  timer_ids : NoDup (timerId <$> timers st);
  timer_fresh : forall t, t ∈ timers st -> timerId t < nextTimer st;
  timer_map : forall D id,
    saveTimers st !! D = Some id
    <-> exists t, t ∈ timers st /\ timerDoc t = D /\ timerId t = id
}.

Definition Inv (st : State) : Prop := LockInv st /\ TimerInv st.

(** A step that starts or finishes no save. *)
Definition calm (st st' : State) : Prop :=
  saveLocks st' = saveLocks st /\ inflight st' = inflight st
  /\ store st' = store st /\ clock st' = clock st
  /\ (forall key, putsTo key st' = putsTo key st)
  /\ (TimerInv st -> TimerInv st').

(** The timers armed for one name. *)
Definition timersOf (D : jsstring) (st : State) : list Timer :=
  filter (fun t => timerDoc t = D) (timers st).

(** Nothing that concerns [D] differs between the two states. *)
Definition undisturbed (D : jsstring) (st st' : State) : Prop :=
  saveLocks st' !! D = saveLocks st !! D
  /\ putsTo (objectKey D) st' = putsTo (objectKey D) st
  /\ timersOf D st' = timersOf D st
  /\ docs st' = docs st /\ clock st' = clock st /\ observers st' = observers st.

(** Exactly one timer is armed for [D]; it is due at [due] and will save
    the document [ydoc]. *)
Definition armed (D : jsstring) (ydoc : nat) (due : N) (st : State) : Prop :=
  exists t, timersOf D st = [t] /\ deadline t = due /\ timerYdoc t = ydoc.

(** ** Sample data *)

(** [notes/é😀 a.md] *)
Definition samplePath : jsstring :=
  js "notes/" ++ [233; 0xD83D; 0xDE00]%N ++ js " a.md".

(** The room of [foo.md]. *)
Definition fooRoom : jsstring := js "Zm9vLm1k".

Definition draft (text : jsstring) : YDoc := {| files := ∅; content := text |}.

Definition fileEntry : Metadata := {| type := Some (js "file") |}.
Definition folderEntry : Metadata := {| type := Some (js "folder") |}.

(** [{a: file, b: file, c: folder}] *)
Definition abcIndex : gmap jsstring Metadata :=
  {[ js "a" := fileEntry; js "b" := fileEntry; js "c" := folderEntry ]}.

Definition timedOut : StoreError :=
  {| code := js "ETIMEDOUT"; message := js "connect ETIMEDOUT" |}.

Definition filesRequest : HttpRequest :=
  {| method := js "GET"; pathname := js "/files" |}.

(** A bucket holding exactly the index and two more objects, one of them
    under a name that is not base64url. *)
Definition listingBucket (b1 b2 b3 : Buffer) : gmap jsstring Buffer :=
  {[ js "yjs/__file_index__.yjs" := b1; js "yjs/Zm9vLm1k.yjs" := b2;
     js "yjs/%%%.yjs" := b3 ]}.

(** [foo.md] is bound to document 0; nothing else has happened. *)
Definition boundState : State :=
  run (init ∅) [EvBindState fooRoom 0 None emptyDoc []].

(** As [boundState], and a flush of the still empty document is awaiting
    the store. *)
Definition boundInFlightState : State :=
  run (init ∅) [EvBindState fooRoom 0 None emptyDoc []; EvWriteState fooRoom 0].

(** A flush of the empty document 0 is awaiting the store when the
    document changes to [second]. *)
Definition inFlightState : State :=
  run (init ∅) [EvWriteState fooRoom 0; EvUpdate 0 (draft (js "second"))].

(** A bucket that already holds [foo.md], and a run that binds the
    document, empties it, flushes it and sees the put succeed. *)
Definition storedBucket : gmap jsstring Buffer :=
  {[ objectKey fooRoom := draft (js "first") ]}.

Definition overwriteRun : list Event :=
  [EvBindState fooRoom 0 None (draft (js "first")) [];
   EvUpdate 0 emptyDoc; EvWriteState fooRoom 0; EvSettle 0 None].

(** The earlier variant has started a save of the file index. *)
Definition legacyInFlightState : State :=
  (Legacy.saveToMinIO fileIndexName 0 (init ∅)).1.

(** A flush of the empty document is awaiting the store, the document has
    changed since, and the timer of that update has come due but has not
    run yet. *)
Definition dueInFlightState : State :=
  run (init ∅) [EvBindState fooRoom 0 None emptyDoc []; EvWriteState fooRoom 0;
                EvUpdate 0 (draft (js "a")); EvTick SAVE_DEBOUNCE_MS].

(** Saves of [foo.md] and of the file index are both awaiting the store,
    and the bucket already holds an index. *)
Definition twoSavesState : State :=
  run (init {[ objectKey fileIndexName := draft (js "index") ]})
      [EvWriteState fooRoom 0; EvWriteState fileIndexName 1].

(** The stored index lists [a], [b] and the folder [c]; of these only [b]
    has an object. *)
Definition abcDoc : YDoc := {| files := abcIndex; content := [] |}.

Definition abcBucket : gmap jsstring Buffer :=
  {[ objectKey fileIndexName := abcDoc; js "yjs/b.yjs" := emptyDoc ]}.

(** [foo.md] is bound and has been updated: its timer is pending. *)
Definition timerPendingState : State :=
  run (init abcBucket)
      [EvBindState fooRoom 0 None emptyDoc []; EvUpdate 0 (draft (js "a"))].

(** Two documents are bound and updated; [foo.md] is updated again one
    second later, so its first timer has been cancelled. *)
Definition twoTimersState : State :=
  run (init ∅)
      [EvBindState fooRoom 0 None emptyDoc [];
       EvBindState fileIndexName 1 None emptyDoc [];
       EvUpdate 0 (draft (js "a")); EvUpdate 1 abcDoc;
       EvTick 1000; EvUpdate 0 (draft (js "ab"))].

(** ** Vocabulary of the further properties *)

(** A code unit that Node's base64 decoder reads as a digit. *)
Definition isBase64Unit (u : N) : Prop := is_Some (unbase64 (u mod 256)%N).

(** The paths that [GET /files] puts in its answer for a bucket. *)
Definition listedFiles (bucket : gmap jsstring Buffer) : list jsstring :=
  omap listedFile (listObjects bucket (js "yjs/")).

(** Bytes of the sequence being read that the decoder has already taken. *)
Definition bytesTaken (st : dstate) : nat :=
  if (bytes_needed st =? 0)%N then 0 else S (N.to_nat (bytes_seen st)).

(** The decoder states that [leadByte] and the continuation step produce. *)
Definition dstateOk (st : dstate) : Prop :=
  (bytes_needed st = 0
   \/ (bytes_needed st = 1 /\ bytes_seen st = 0 /\ code_point st < 1024)
   \/ (bytes_needed st = 2 /\ bytes_seen st = 0 /\ code_point st < 16)
   \/ (bytes_needed st = 2 /\ bytes_seen st = 1 /\ code_point st < 1024)
   \/ (bytes_needed st = 3 /\ bytes_seen st < 3))%N.

(** The calls that the persistence paths of index.js make on the store:
    reads and writes of a document's object, and existence checks of
    sanitised keys.  (The listing of [GET /files] is made by the request
    handler, outside these paths.) *)
Definition serverCall (r : Request) : Prop :=
  match r with
  | GetObject key => exists docName, key = objectKey docName
  | PutObject key _ => exists docName, key = objectKey docName
  | StatObject key => exists entry, key = minioKey entry
  | RemoveObject _ => False
  | ListObjects _ => False
  end.

(** Updates of one document, each after a pause. *)
Definition burst (ydoc : nat) (updates : list (N * YDoc)) (st : State) : State :=
  foldl (fun s u => mutate ydoc u.2 (elapse u.1 s)) st updates.

(** The state a document has after [bindState] has loaded what is stored. *)
Definition loadedDoc (docName : jsstring) (ydoc : nat) (loadFault : option StoreError)
    (merged : YDoc) (st : State) : YDoc :=
  match (loadFromMinIO docName loadFault st).2 with
  | Some _ => merged
  | None => getDoc st ydoc
  end.

(** A character of the base64url alphabet. *)
Definition isBase64urlChar (c : N) : bool :=
  inRange 65 90 c || inRange 97 122 c || inRange 48 57 c
  || (c =? 45)%N || (c =? 95)%N.

(** * The model on known values *)

Section KnownValues.

Example roomToPath_foo : roomToPath (js "Zm9vLm1k") = Normal (js "foo.md").
Proof. reflexivity. Qed.

Example pathToRoom_foo : pathToRoom (js "foo.md") = Normal (js "Zm9vLm1k").
Proof. reflexivity. Qed.

(** [Buffer.from('-_-_', 'base64')] is [fb ff bf]: both alphabets are read. *)
Example bufferFromBase64_urlsafe :
  bufferFromBase64 (js "-_-_") = [0xFB; 0xFF; 0xBF]%N
  /\ bufferFromBase64 (js "+/+/") = [0xFB; 0xFF; 0xBF]%N.
Proof. split; reflexivity. Qed.

(** [Buffer.from('%%%=', 'base64')] is empty, and so is
    [Buffer.from('Zm9v=Lm1k', 'base64')] after its first three bytes. *)
Example bufferFromBase64_lenient :
  bufferFromBase64 (js "%%%=") = []
  /\ bufferFromBase64 (js "Zm9v=Lm1k") = [102; 111; 111]%N
  /\ bufferFromBase64 (js "Zm 9v") = [102; 111; 111]%N.
Proof. split_and!; reflexivity. Qed.

(** [Buffer.from([0xe2, 0x82, 0xac]).toString()] is the euro sign; a
    truncated sequence becomes U+FFFD. *)
Example bufferToStringUtf8_values :
  bufferToStringUtf8 [0xE2; 0x82; 0xAC]%N = [0x20AC]%N
  /\ bufferToStringUtf8 [0xE2; 0x82]%N = [0xFFFD]%N
  /\ bufferToStringUtf8 [0xF0; 0x9F; 0x98; 0x80]%N = [0xD83D; 0xDE00]%N.
Proof. split_and!; reflexivity. Qed.

(** [decodeURIComponent('%E2%82%AC')] is the euro sign;
    [decodeURIComponent('%')], [('%FF')] and [('%C0%80')] throw. *)
Example decodeURIComponent_values :
  decodeURIComponent (js "%E2%82%AC") = Normal [0x20AC]%N
  /\ decodeURIComponent (js "a%20b") = Normal (js "a b")
  /\ decodeURIComponent (js "%") = Throw URIError
  /\ decodeURIComponent (js "%FF") = Throw URIError
  /\ decodeURIComponent (js "%C0%80") = Throw URIError.
Proof. split_and!; reflexivity. Qed.

(** A room name whose decoded text has a broken escape does make
    [roomToPath] throw: [JUZG] is the base64 of [%FF]. *)
Example roomToPath_throws : roomToPath (js "JUZG") = Throw URIError.
Proof. reflexivity. Qed.

Example pathToRoom_lone_surrogate : pathToRoom [0xD83D]%N = Throw URIError.
Proof. reflexivity. Qed.

Example minioKey_sanitizes : minioKey (js "dir/my file.md") = js "yjs/dir_my_file.md.yjs".
Proof. reflexivity. Qed.

(** [JSON.stringify({ files: ['foo.md'] })] *)
Example stringifyFiles_foo :
  stringifyFiles [js "foo.md"]
  = js "{" ++ [34%N] ++ js "files" ++ [34%N] ++ js ":[" ++ [34%N] ++ js "foo.md"
    ++ [34%N] ++ js "]}".
Proof. reflexivity. Qed.

(** Any other request gets the banner. *)
Example handleRequest_default :
  handleRequest {| method := js "GET"; pathname := js "/" |} ∅ None
  = {| status := 200; contentType := Some (js "text/plain");
       body := js "Yjs sync server running" |}.
Proof. reflexivity. Qed.

(** A broken listing stream answers 500 with the error message. *)
Example handleRequest_listing_error :
  status (handleRequest filesRequest ∅ (Some timedOut)) = 500.
Proof. reflexivity. Qed.

End KnownValues.

(** * Facts about the codec *)

Ltac Zify.zify_post_hook ::= Z.to_euclidean_division_equations.

Section CodecFacts.
Local Open Scope N_scope.

Lemma below_spec n P x : below n P = true -> x < N.of_nat n -> P x = true.
Proof.
  unfold below. rewrite forallb_forall. intros H Hx. apply H.
  apply in_map_iff. exists (N.to_nat x). split; [lia|]. apply in_seq. lia.
Qed.

Lemma below2_spec n m (P : N -> N -> bool) a b :
  below n (fun a => below m (P a)) = true ->
  a < N.of_nat n -> b < N.of_nat m -> P a b = true.
Proof.
  intros H Ha Hb. apply (below_spec m (P a) b); [|exact Hb].
  exact (below_spec n (fun a => below m (P a)) a H Ha).
Qed.

Lemma byte1_arith a b : a < 64 -> b < 64 -> byte1 a b = a * 4 + b / 16.
Proof.
  intros Ha Hb. apply N.eqb_eq.
  apply (below2_spec 64 64 (fun a b => byte1 a b =? a * 4 + b / 16)); [|lia..].
  vm_compute; reflexivity.
Qed.

Lemma byte2_arith a b : a < 64 -> b < 64 -> byte2 a b = (a mod 16) * 16 + b / 4.
Proof.
  intros Ha Hb. apply N.eqb_eq.
  apply (below2_spec 64 64 (fun a b => byte2 a b =? (a mod 16) * 16 + b / 4)); [|lia..].
  vm_compute; reflexivity.
Qed.

Lemma byte3_arith a b : a < 64 -> b < 64 -> byte3 a b = (a mod 4) * 64 + b.
Proof.
  intros Ha Hb. apply N.eqb_eq.
  apply (below2_spec 64 64 (fun a b => byte3 a b =? (a mod 4) * 64 + b)); [|lia..].
  vm_compute; reflexivity.
Qed.

Lemma replaceAll_base64url l :
  replaceAll 95 47 (replaceAll 45 43 (map base64urlChar l)) = map restored l.
Proof. unfold replaceAll. rewrite !map_map. reflexivity. Qed.

Lemma unbase64_restored v :
  v < 64 -> unbase64 (restored v mod 256) = Some v.
Proof.
  intros Hv.
  assert (H : below 64 (fun v => match unbase64 (restored v mod 256) with
                                 | Some w => w =? v | None => false end) = true)
    by (vm_compute; reflexivity).
  pose proof (below_spec 64 _ v H Hv) as E. cbv beta in E.
  destruct (unbase64 (restored v mod 256)); [|discriminate].
  apply N.eqb_eq in E. congruence.
Qed.

Lemma sextets_restored l k :
  Forall (fun v => v < 64) l -> sextets (map restored l ++ repeat 61 k) = l.
Proof.
  induction 1 as [|v l Hv _ IH]; simpl.
  - destruct k; reflexivity.
  - rewrite unbase64_restored by exact Hv. f_equal. exact IH.
Qed.

Lemma padLoop_repeat fuel s : exists k, padLoop fuel s = s ++ repeat 61 k.
Proof.
  revert s. induction fuel as [|fuel IH]; intros s; simpl.
  - exists 0%nat. simpl. by rewrite app_nil_r.
  - destruct (_ =? _)%nat.
    + exists 0%nat. simpl. by rewrite app_nil_r.
    + destruct (IH (s ++ [61])) as [k ->]. exists (S k).
      rewrite <- app_assoc. reflexivity.
Qed.

Lemma three_steps_reach_four (n : nat) :
  (n mod 4 <> 0 -> (n + 1) mod 4 <> 0 -> (n + 1 + 1) mod 4 <> 0 ->
   (n + 1 + 1 + 1) mod 4 = 0)%nat.
Proof.
  intros H0 H1 H2.
  rewrite <- !Nat.add_assoc in *. cbn [Nat.add] in *.
  rewrite <- Nat.Div0.add_mod_idemp_l in H1, H2 |- *.
  pose proof (Nat.mod_upper_bound n 4 ltac:(lia)) as Hb.
  destruct (n mod 4)%nat as [|[|[|[|?]]]]; try lia;
    solve [ reflexivity | exfalso; apply H0; reflexivity
          | exfalso; apply H1; reflexivity | exfalso; apply H2; reflexivity ].
Qed.

Lemma addPadding_length s : (length (addPadding s) mod 4 = 0)%nat.
Proof.
  unfold addPadding. cbn [padLoop].
  repeat (let E := fresh in destruct (_ =? _)%nat eqn:E;
          [apply Nat.eqb_eq in E; exact E | apply Nat.eqb_neq in E]).
  rewrite !length_app in *. cbn [length] in *.
  by apply three_steps_reach_four.
Qed.

Lemma encodeGroups_bound bs :
  Forall (fun b => b < 256) bs -> Forall (fun v => v < 64) (encodeGroups bs).
Proof.
  revert bs. fix IH 1. intros [|x [|y [|z r]]] H; simpl.
  - constructor.
  - inversion_clear H. repeat constructor; lia.
  - inversion_clear H as [|? ? ? H']. inversion_clear H'. repeat constructor; lia.
  - inversion_clear H as [|? ? ? H']. inversion_clear H' as [|? ? ? H''].
    inversion_clear H''. repeat constructor; try lia. apply IH. assumption.
Qed.

Lemma decodeGroups_encodeGroups bs :
  Forall (fun b => b < 256) bs -> decodeGroups (encodeGroups bs) = bs.
Proof.
  revert bs. fix IH 1. intros [|x [|y [|z r]]] H; simpl.
  - reflexivity.
  - inversion_clear H. rewrite byte1_arith by lia. f_equal. lia.
  - inversion_clear H as [|? ? ? H']. inversion_clear H'.
    rewrite byte1_arith, byte2_arith by lia. f_equal; [lia|]. f_equal. lia.
  - inversion_clear H as [|? ? ? H']. inversion_clear H' as [|? ? ? H''].
    inversion_clear H''.
    rewrite byte1_arith, byte2_arith, byte3_arith by lia.
    f_equal; [lia|]. f_equal; [lia|]. f_equal; [lia|]. apply IH. assumption.
Qed.

Lemma bufferFromBase64_base64urlEncode bs :
  Forall (fun b => b < 256) bs ->
  bufferFromBase64
    (addPadding (replaceAll 95 47 (replaceAll 45 43 (base64urlEncode bs)))) = bs.
Proof.
  intros H. unfold base64urlEncode, bufferFromBase64, addPadding.
  rewrite replaceAll_base64url.
  destruct (padLoop_repeat 3 (map restored (encodeGroups bs))) as [k ->].
  rewrite sextets_restored by (apply encodeGroups_bound; exact H).
  apply decodeGroups_encodeGroups. exact H.
Qed.

(** *** Percent-escapes *)

Ltac cmp :=
  repeat match goal with
    | |- context [(?a =? ?b)%N] => destruct (N.eqb_spec a b); try lia
    | |- context [(?a <? ?b)%N] => destruct (N.ltb_spec a b); try lia
    | |- context [(?a <=? ?b)%N] => destruct (N.leb_spec a b); try lia
    end.

Lemma uriUnescaped_ascii b : uriUnescaped b = true -> b < 128 /\ b <> 37.
Proof.
  unfold uriUnescaped, inRange. cbn [existsb]. cmp; simpl; try discriminate; lia.
Qed.

Lemma tokenOf_high b : 128 <= b -> tokenOf b = Oct b.
Proof.
  intros H. unfold tokenOf. destruct (uriUnescaped b) eqn:E; [|reflexivity].
  apply uriUnescaped_ascii in E. lia.
Qed.

Lemma hexval_hexDigit n : n < 16 -> hexval (hexDigit n) = Some n.
Proof.
  intros H. unfold hexval, hexDigit, inRange. cmp; simpl; f_equal; lia.
Qed.

Lemma unescape_percentEncode bs :
  Forall (fun b => b < 256) bs ->
  unescape (percentEncode bs) = Normal (map tokenOf bs).
Proof.
  induction 1 as [|b bs Hb _ IH]; [reflexivity|].
  cbn [percentEncode flat_map map]. fold (percentEncode bs).
  unfold percentEncodeByte, tokenOf. destruct (uriUnescaped b) eqn:E.
  - apply uriUnescaped_ascii in E. cbn [app unescape].
    destruct (N.eqb_spec b 37); [lia|]. rewrite IH. reflexivity.
  - cbn [app unescape N.eqb Pos.eqb].
    rewrite !hexval_hexDigit by lia. rewrite IH. cbn [cmap cbind].
    do 3 f_equal. lia.
Qed.

Lemma percentEncode_ascii bs :
  Forall (fun b => b < 256) bs -> Forall (fun c => c < 128) (percentEncode bs).
Proof.
  induction 1 as [|b bs Hb _ IH]; [constructor|].
  cbn [percentEncode flat_map]. apply Forall_app. split; [|exact IH].
  unfold percentEncodeByte. destruct (uriUnescaped b) eqn:E.
  - apply uriUnescaped_ascii in E. repeat constructor; lia.
  - unfold hexDigit. repeat constructor; cmp.
Qed.

(** *** UTF-8 *)

Lemma bufferToStringUtf8_ascii bs :
  Forall (fun c => c < 128) bs -> bufferToStringUtf8 bs = bs.
Proof.
  unfold bufferToStringUtf8.
  induction 1 as [|b bs Hb _ IH]; [reflexivity|].
  cbn [decodeFrom dinit bytes_needed N.eqb]. unfold leadByte.
  destruct (N.leb_spec b 127); [|lia].
  cbn [app flat_map]. unfold utf16Encode at 1.
  destruct (N.ltb_spec b 65536); [|lia]. cbn [app]. f_equal. exact IH.
Qed.

Lemma utf8EncodeCodePoint_bytes cp :
  cp < 0x110000 -> Forall (fun b => b < 256) (utf8EncodeCodePoint cp).
Proof.
  intros H. unfold utf8EncodeCodePoint. cmp; repeat constructor; lia.
Qed.

Lemma assemble_two b0 b1 r :
  leadingOnes b0 = 2%nat ->
  assemble (Oct b0 :: Oct b1 :: r) = emit (codePoint2 b0 b1) (assemble r).
Proof. intros H. cbn [assemble]. rewrite H. reflexivity. Qed.

Lemma assemble_three b0 b1 b2 r :
  leadingOnes b0 = 3%nat ->
  assemble (Oct b0 :: Oct b1 :: Oct b2 :: r) = emit (codePoint3 b0 b1 b2) (assemble r).
Proof. intros H. cbn [assemble]. rewrite H. reflexivity. Qed.

Lemma assemble_four b0 b1 b2 b3 r :
  leadingOnes b0 = 4%nat ->
  assemble (Oct b0 :: Oct b1 :: Oct b2 :: Oct b3 :: r)
  = emit (codePoint4 b0 b1 b2 b3) (assemble r).
Proof. intros H. cbn [assemble]. rewrite H. reflexivity. Qed.

(** One code point that is not a surrogate comes back as itself. *)
Lemma assemble_codePoint cp r :
  cp < 0x110000 -> ~ (0xD800 <= cp <= 0xDFFF) ->
  assemble (map tokenOf (utf8EncodeCodePoint cp) ++ r)
  = cmap (app (utf16Encode cp)) (assemble r).
Proof.
  intros Hmax Hsur. unfold utf8EncodeCodePoint.
  destruct (N.ltb_spec cp 0x80) as [H1|H1];
    [|destruct (N.ltb_spec cp 0x800) as [H2|H2];
      [|destruct (N.ltb_spec cp 0x10000) as [H3|H3]]].
  - cbn [map app]. unfold utf16Encode. destruct (N.ltb_spec cp 65536); [|lia].
    unfold tokenOf. destruct (uriUnescaped cp); cbn [assemble]; [reflexivity|].
    unfold leadingOnes. destruct (N.ltb_spec cp 128); [|lia]. reflexivity.
  - cbn [map app]. rewrite !tokenOf_high by lia.
    rewrite assemble_two by (unfold leadingOnes; cmp; reflexivity).
    replace (codePoint2 _ _) with (Some cp); [reflexivity|].
    unfold codePoint2, inRange. cmp. cbn [andb]. f_equal. lia.
  - cbn [map app]. rewrite !tokenOf_high by lia.
    rewrite assemble_three by (unfold leadingOnes; cmp; reflexivity).
    replace (codePoint3 _ _ _) with (Some cp); [reflexivity|].
    unfold codePoint3, inRange. cmp; cbn [andb]; f_equal; lia.
  - cbn [map app]. rewrite !tokenOf_high by lia.
    rewrite assemble_four by (unfold leadingOnes; cmp; reflexivity).
    replace (codePoint4 _ _ _ _) with (Some cp); [reflexivity|].
    unfold codePoint4, inRange. cmp; cbn [andb]; f_equal; lia.
Qed.

(** Induction that can step over one code unit or over a pair. *)
Lemma pairwise_ind (P : jsstring -> Prop) :
  P [] -> (forall c, P [c]) ->
  (forall c d r, P r -> P (d :: r) -> P (c :: d :: r)) ->
  forall s, P s.
Proof.
  intros H0 H1 H2.
  assert (H : forall s, P s /\ forall c, P (c :: s)).
  { induction s as [|d r [IHr IHd]]; split; auto. }
  intros s. apply H.
Qed.

Lemma surrogate_pair c d :
  isHighSurrogate c = true -> isLowSurrogate d = true ->
  let cp := 0x10000 + (c - 0xD800) * 1024 + (d - 0xDC00) in
  0x10000 <= cp < 0x110000 /\ utf16Encode cp = [c; d].
Proof.
  unfold isHighSurrogate, isLowSurrogate, inRange.
  rewrite !andb_true_iff, !N.leb_le. intros [? ?] [? ?]. cbv zeta.
  split; [lia|]. unfold utf16Encode. cmp. f_equal; [lia|]. f_equal. lia.
Qed.

Lemma not_surrogate c :
  isHighSurrogate c = false -> isLowSurrogate c = false ->
  ~ (0xD800 <= c <= 0xDFFF).
Proof.
  unfold isHighSurrogate, isLowSurrogate, inRange.
  rewrite !andb_false_iff, !N.leb_gt. lia.
Qed.

Lemma utf8EncodeString_unit c r :
  isHighSurrogate c = false ->
  utf8EncodeString (c :: r)
  = if isLowSurrogate c then Throw URIError
    else cmap (app (utf8EncodeCodePoint c)) (utf8EncodeString r).
Proof. intros H. cbn [utf8EncodeString]. rewrite H. reflexivity. Qed.

Lemma utf8EncodeString_pair c d r :
  isHighSurrogate c = true ->
  utf8EncodeString (c :: d :: r)
  = if isLowSurrogate d
    then cmap (app (utf8EncodeCodePoint (0x10000 + (c - 0xD800) * 1024 + (d - 0xDC00))))
              (utf8EncodeString r)
    else Throw URIError.
Proof. intros H. cbn [utf8EncodeString]. rewrite H. reflexivity. Qed.

Lemma isWellFormed_unit c r :
  isHighSurrogate c = false ->
  isWellFormed (c :: r) = negb (isLowSurrogate c) && isWellFormed r.
Proof. intros H. cbn [isWellFormed]. rewrite H. reflexivity. Qed.

Lemma isWellFormed_pair c d r :
  isHighSurrogate c = true ->
  isWellFormed (c :: d :: r) = isLowSurrogate d && isWellFormed r.
Proof. intros H. cbn [isWellFormed]. rewrite H. reflexivity. Qed.

Lemma utf8EncodeString_bytes s bs :
  is_jsstring s -> utf8EncodeString s = Normal bs -> Forall (fun b => b < 256) bs.
Proof.
  revert bs. induction s as [| c | c d r IHr IHd] using pairwise_ind; intros bs Hs.
  - intros [= <-]. constructor.
  - cbn [utf8EncodeString].
    destruct (isHighSurrogate c); [done|]. destruct (isLowSurrogate c); [done|].
    cbn [cmap cbind]. intros [= <-]. rewrite app_nil_r.
    apply utf8EncodeCodePoint_bytes. inversion_clear Hs. unfold is_code_unit in *. lia.
  - inversion_clear Hs as [|? ? Hc Hs']. pose proof Hs' as Hdr.
    inversion_clear Hs' as [|? ? Hd Hr].
    destruct (isHighSurrogate c) eqn:Hh.
    + rewrite utf8EncodeString_pair by exact Hh.
      destruct (isLowSurrogate d) eqn:Hl; [|done].
      destruct (utf8EncodeString r) as [bs'|]; [|done].
      cbn [cmap cbind]. intros [= <-]. apply Forall_app. split.
      * apply utf8EncodeCodePoint_bytes.
        destruct (surrogate_pair c d Hh Hl) as [? _]. lia.
      * by apply IHr.
    + rewrite utf8EncodeString_unit by exact Hh.
      destruct (isLowSurrogate c); [done|].
      destruct (utf8EncodeString (d :: r)) as [bs'|]; [|done].
      cbn [cmap cbind]. intros [= <-]. apply Forall_app. split.
      * apply utf8EncodeCodePoint_bytes. unfold is_code_unit in *. lia.
      * by apply IHd.
Qed.

Lemma assemble_utf8EncodeString s bs :
  is_jsstring s -> utf8EncodeString s = Normal bs ->
  assemble (map tokenOf bs) = Normal s.
Proof.
  revert bs. induction s as [| c | c d r IHr IHd] using pairwise_ind; intros bs Hs.
  - intros [= <-]. reflexivity.
  - cbn [utf8EncodeString].
    destruct (isHighSurrogate c) eqn:Hh; [done|].
    destruct (isLowSurrogate c) eqn:Hl; [done|].
    cbn [cmap cbind]. intros [= <-]. rewrite map_app.
    inversion_clear Hs as [|? ? Hc _]. unfold is_code_unit in Hc.
    rewrite assemble_codePoint by (try apply not_surrogate; auto; lia).
    cbn [map assemble cmap cbind]. unfold utf16Encode. cmp. reflexivity.
  - inversion_clear Hs as [|? ? Hc Hs']. pose proof Hs' as Hdr.
    inversion_clear Hs' as [|? ? Hd Hr]. unfold is_code_unit in Hc.
    destruct (isHighSurrogate c) eqn:Hh.
    + rewrite utf8EncodeString_pair by exact Hh.
      destruct (isLowSurrogate d) eqn:Hl; [|done].
      destruct (utf8EncodeString r) as [bs'|]; [|done].
      cbn [cmap cbind]. intros [= <-]. rewrite map_app.
      destruct (surrogate_pair c d Hh Hl) as [Hcp Hpair].
      rewrite assemble_codePoint by lia.
      rewrite (IHr bs') by auto. cbn [cmap cbind]. rewrite Hpair. reflexivity.
    + rewrite utf8EncodeString_unit by exact Hh.
      destruct (isLowSurrogate c) eqn:Hl; [done|].
      destruct (utf8EncodeString (d :: r)) as [bs'|]; [|done].
      cbn [cmap cbind]. intros [= <-]. rewrite map_app.
      rewrite assemble_codePoint by (try apply not_surrogate; auto; lia).
      rewrite (IHd bs') by auto. cbn [cmap cbind].
      unfold utf16Encode. cmp. reflexivity.
Qed.

Lemma utf8EncodeString_wellFormed s :
  isWellFormed s = true -> exists bs, utf8EncodeString s = Normal bs.
Proof.
  induction s as [| c | c d r IHr IHd] using pairwise_ind.
  - cbn. eauto.
  - cbn [isWellFormed utf8EncodeString].
    destruct (isHighSurrogate c); [done|].
    destruct (isLowSurrogate c); [done|]. cbn [cmap cbind]. eauto.
  - destruct (isHighSurrogate c) eqn:Hh.
    + rewrite isWellFormed_pair, utf8EncodeString_pair by exact Hh.
      destruct (isLowSurrogate d); [|done]. cbn [andb]. intros H.
      destruct (IHr H) as [bs ->]. cbn [cmap cbind]. eauto.
    + rewrite isWellFormed_unit, utf8EncodeString_unit by exact Hh.
      destruct (isLowSurrogate c); [done|]. cbn [negb andb]. intros H.
      destruct (IHd H) as [bs ->]. cbn [cmap cbind]. eauto.
Qed.

Lemma roomToPath_encoded bs :
  Forall (fun b => b < 256) bs ->
  roomToPath (base64urlEncode (percentEncode bs))
  = cbind (Normal (map tokenOf bs)) assemble.
Proof.
  intros H. unfold roomToPath.
  pose proof (percentEncode_ascii bs H) as Hascii.
  rewrite bufferFromBase64_base64urlEncode
    by (eapply Forall_impl; [exact Hascii | cbv beta; intros; lia]).
  rewrite bufferToStringUtf8_ascii by exact Hascii.
  unfold decodeURIComponent. rewrite unescape_percentEncode by exact H.
  reflexivity.
Qed.

End CodecFacts.

(** * Facts about the save coordinator *)

Section CoordinatorFacts.

Lemma LockInv_ext st st' :
  saveLocks st' = saveLocks st -> inflight st' = inflight st ->
  LockInv st -> LockInv st'.
Proof. intros E1 E2 [H1 H2 H3]. split; rewrite ?E1, ?E2; assumption. Qed.

Lemma TimerInv_ext st st' :
  saveTimers st' = saveTimers st -> timers st' = timers st ->
  nextTimer st' = nextTimer st -> TimerInv st -> TimerInv st'.
Proof. intros E1 E2 E3 [H1 H2 H3 H4]. split; rewrite ?E1, ?E2, ?E3; assumption. Qed.

Lemma LockInv_init bucket : LockInv (init bucket).
Proof.
  split; cbn.
  - intros D. rewrite lookup_empty. case_decide as H; [|done]. by apply elem_of_nil in H.
  - constructor.
  - intros f H. by apply elem_of_nil in H.
Qed.

Lemma TimerInv_init bucket : TimerInv (init bucket).
Proof.
  split; cbn.
  - constructor.
  - constructor.
  - intros t H. by apply elem_of_nil in H.
  - intros D id. rewrite lookup_empty. split; [done|].
    intros (t & H & _). by apply elem_of_nil in H.
Qed.

(** *** [saveToMinIO] *)

Lemma saveToMinIO_locked docName ydoc st :
  saveLocks st !! docName = Some true ->
  saveToMinIO docName ydoc st = (st, Fulfilled).
Proof. intros H. unfold saveToMinIO. rewrite H. reflexivity. Qed.

Lemma saveToMinIO_free docName ydoc st :
  saveLocks st !! docName <> Some true ->
  saveToMinIO docName ydoc st
  = (await docName (PutObject (objectKey docName) (getDoc st ydoc))
       (set_saveLocks (insert docName true) st), Pending).
Proof.
  intros H. unfold saveToMinIO.
  destruct (saveLocks st !! docName) as [[]|]; [done|reflexivity..].
Qed.

Lemma LockInv_saveToMinIO docName ydoc st :
  LockInv st -> LockInv (saveToMinIO docName ydoc st).1.
Proof.
  intros HI. destruct (decide (saveLocks st !! docName = Some true)) as [E|E].
  { by rewrite saveToMinIO_locked. }
  rewrite saveToMinIO_free by exact E. destruct HI as [H1 H2 H3].
  assert (Hnew : docName ∉ flightDoc <$> inflight st).
  { intros Hin. apply E. rewrite H1. by rewrite decide_True. }
  split; cbn.
  - intros D. rewrite fmap_app. cbn.
    destruct (decide (D = docName)) as [->|Hne].
    + rewrite lookup_insert_eq. rewrite decide_True; [done|].
      apply elem_of_app. right. by apply list_elem_of_singleton.
    + rewrite lookup_insert_ne by done. rewrite H1.
      repeat case_decide; try done.
      * exfalso. apply H0. apply elem_of_app. by left.
      * exfalso. apply elem_of_app in H0 as [?|?%list_elem_of_singleton]; done.
  - rewrite fmap_app. cbn. apply NoDup_app. split; [done|]. split.
    + intros x Hx ->%list_elem_of_singleton. done.
    + apply NoDup_singleton.
  - intros f [Hf| ->%list_elem_of_singleton]%elem_of_app; [by apply H3|].
    cbn. eauto.
Qed.

(** *** [settle] *)

Lemma settle_none i err st : inflight st !! i = None -> settle i err st = st.
Proof. intros H. unfold settle. by rewrite H. Qed.

Lemma LockInv_settle i err st : LockInv st -> LockInv (settle i err st).
Proof.
  intros HI. unfold settle. destruct (inflight st !! i) as [f|] eqn:Ef; [|done].
  destruct HI as [H1 H2 H3].
  pose proof (take_drop_middle _ _ _ Ef) as Hsplit.
  assert (Hdel : delete i (inflight st) = take i (inflight st) ++ drop (S i) (inflight st)).
  { apply delete_take_drop. }
  rewrite <- Hsplit in H2. rewrite fmap_app, fmap_cons in H2.
  apply NoDup_app in H2 as (Hn1 & Hn2 & Hn3). apply NoDup_cons in Hn3 as [Hn3 Hn4].
  assert (Hmem : forall D, D ∈ flightDoc <$> inflight st <->
                 D = flightDoc f \/ D ∈ flightDoc <$> delete i (inflight st)).
  { intros D. rewrite Hdel. rewrite <- Hsplit at 1.
    rewrite !fmap_app, fmap_cons, !elem_of_app, elem_of_cons. tauto. }
  assert (Hgone : flightDoc f ∉ flightDoc <$> delete i (inflight st)).
  { rewrite Hdel, fmap_app, elem_of_app. intros [H|H]; [|done].
    apply (Hn2 _ H). apply elem_of_cons. by left. }
  assert (HL : forall D,
    delete (flightDoc f) (saveLocks st) !! D
    = if decide (D ∈ flightDoc <$> delete i (inflight st)) then Some true else None).
  { intros D. destruct (decide (D = flightDoc f)) as [->|Hne].
    - rewrite lookup_delete_eq. by rewrite decide_False.
    - rewrite lookup_delete_ne by done. rewrite H1.
      repeat case_decide; try done.
      + exfalso. apply Hmem in H as [?|?]; done.
      + exfalso. apply H. apply Hmem. by right. }
  assert (HN : NoDup (flightDoc <$> delete i (inflight st))).
  { rewrite Hdel, fmap_app. apply NoDup_app. repeat split; [done| |done].
    intros x Hx Hx'. apply (Hn2 _ Hx). apply elem_of_cons. by right. }
  assert (HP : forall g, g ∈ delete i (inflight st) ->
    exists buffer, flightCall g = PutObject (objectKey (flightDoc g)) buffer).
  { intros g Hg. apply H3. rewrite Hdel in Hg. rewrite <- Hsplit.
    apply elem_of_app in Hg as [?|?]; apply elem_of_app; [by left|right].
    apply elem_of_cons. by right. }
  destruct err; split; cbn; assumption.
Qed.

(** *** Timers *)

Lemma filter_ext_in {A} (P1 P2 : A -> Prop)
    `{!forall x, Decision (P1 x), !forall x, Decision (P2 x)} (l : list A) :
  (forall x, x ∈ l -> P1 x <-> P2 x) -> filter P1 l = filter P2 l.
Proof.
  induction l as [|a l IH]; intros Hext; [done|].
  rewrite !filter_cons. rewrite IH by (intros x Hx; apply Hext; by right).
  assert (Ha : P1 a <-> P2 a) by (apply Hext; by left). repeat case_decide; tauto.
Qed.

Lemma filter_all {A} (P : A -> Prop) `{!forall x, Decision (P x)} (l : list A) :
  (forall x, x ∈ l -> P x) -> filter P l = l.
Proof.
  induction l as [|a l IH]; intros Hall; [done|].
  rewrite filter_cons_True by (apply Hall; by left).
  f_equal. apply IH. intros x Hx. apply Hall. by right.
Qed.

Lemma NoDup_fmap_filter {A B} (f : A -> B) (P : A -> Prop)
    `{!forall x, Decision (P x)} (l : list A) :
  NoDup (f <$> l) -> NoDup (f <$> filter P l).
Proof.
  intros Hn. eapply sublist_NoDup; [exact Hn|].
  apply fmap_sublist, sublist_filter.
Qed.

Lemma NoDup_fmap_eq {A B} (f : A -> B) (l : list A) x y :
  NoDup (f <$> l) -> x ∈ l -> y ∈ l -> f x = f y -> x = y.
Proof.
  induction l as [|a l IH]; intros Hn Hx Hy E; [by apply elem_of_nil in Hx|].
  rewrite fmap_cons in Hn. apply NoDup_cons in Hn as [Ha Hn].
  apply elem_of_cons in Hx as [->|Hx]; apply elem_of_cons in Hy as [->|Hy]; auto.
  - exfalso. apply Ha. rewrite E. by apply list_elem_of_fmap_2.
  - exfalso. apply Ha. rewrite <- E. by apply list_elem_of_fmap_2.
Qed.

(** Under the invariant, clearing the timer recorded for a name removes
    exactly the timers of that name. *)
Lemma clear_recorded st D id :
  TimerInv st -> saveTimers st !! D = Some id ->
  filter (fun t => timerId t <> id) (timers st)
  = filter (fun t => timerDoc t <> D) (timers st).
Proof.
  intros [H1 H2 H3 H4] E. apply H4 in E as (t0 & Ht0 & Hd & Hi).
  apply filter_ext_in. intros t Ht. split; intros Hne Heq; apply Hne.
  - assert (t = t0) by (eapply (NoDup_fmap_eq timerDoc); eauto; congruence).
    congruence.
  - assert (t = t0) by (eapply (NoDup_fmap_eq timerId); eauto; congruence).
    congruence.
Qed.

Lemma nothing_recorded st D :
  TimerInv st -> saveTimers st !! D = None ->
  filter (fun t => timerDoc t <> D) (timers st) = timers st.
Proof.
  intros [H1 H2 H3 H4] E.
  assert (H : forall t, t ∈ timers st -> timerDoc t <> D).
  { intros t Ht Hd. assert (saveTimers st !! D = Some (timerId t)) as E'
      by (apply H4; eauto). congruence. }
  by apply filter_all.
Qed.

(** What [debouncedSave] leaves armed: the other names' timers and one new
    timer for this name. *)
Lemma debouncedSave_timers docName ydoc st :
  TimerInv st ->
  timers (debouncedSave docName ydoc st)
  = filter (fun t => timerDoc t <> docName) (timers st)
    ++ [{| timerId := nextTimer st; deadline := (clock st + SAVE_DEBOUNCE_MS)%N;
           timerDoc := docName; timerYdoc := ydoc |}].
Proof.
  intros HI. unfold debouncedSave.
  destruct (saveTimers st !! docName) as [id|] eqn:E; cbn.
  - by rewrite (clear_recorded st docName id).
  - by rewrite nothing_recorded.
Qed.

Lemma debouncedSave_saveTimers docName ydoc st :
  saveTimers (debouncedSave docName ydoc st)
  = <[docName := nextTimer st]> (saveTimers st).
Proof. unfold debouncedSave. by destruct (saveTimers st !! docName). Qed.

Lemma debouncedSave_nextTimer docName ydoc st :
  nextTimer (debouncedSave docName ydoc st) = S (nextTimer st).
Proof. unfold debouncedSave. by destruct (saveTimers st !! docName). Qed.

Lemma TimerInv_debouncedSave docName ydoc st :
  TimerInv st -> TimerInv (debouncedSave docName ydoc st).
Proof.
  intros HI. pose proof (debouncedSave_timers docName ydoc st HI) as Et.
  pose proof (debouncedSave_saveTimers docName ydoc st) as Em.
  pose proof (debouncedSave_nextTimer docName ydoc st) as En.
  destruct HI as [H1 H2 H3 H4]. split; rewrite ?Et, ?Em, ?En.
  - rewrite fmap_app. cbn. apply NoDup_app. split; [by apply NoDup_fmap_filter|].
    split; [|apply NoDup_singleton].
    intros D (t & -> & [Hne _]%list_elem_of_filter)%list_elem_of_fmap
      E%list_elem_of_singleton. done.
  - rewrite fmap_app. cbn. apply NoDup_app. split; [by apply NoDup_fmap_filter|].
    split; [|apply NoDup_singleton].
    intros i (t & -> & [_ Ht]%list_elem_of_filter)%list_elem_of_fmap
      E%list_elem_of_singleton. apply H3 in Ht. lia.
  - intros t [[_ Ht]%list_elem_of_filter| ->%list_elem_of_singleton]%elem_of_app.
    + apply H3 in Ht. lia.
    + cbn. lia.
  - intros D id. destruct (decide (D = docName)) as [->|Hne].
    + rewrite lookup_insert_eq. split.
      * intros [= <-]. eexists. split; [apply elem_of_app; right; by left|done].
      * intros (t & [[Hd _]%list_elem_of_filter| ->%list_elem_of_singleton]%elem_of_app
                  & Hdoc & Hid); [done|]. cbn in Hid. by subst.
    + rewrite lookup_insert_ne by done. rewrite H4. split.
      * intros (t & Ht & Hd & Hi). exists t. split; [|done].
        apply elem_of_app. left. apply list_elem_of_filter. split; [congruence|done].
      * intros (t & [[_ Ht]%list_elem_of_filter| ->%list_elem_of_singleton]%elem_of_app
                  & Hd & Hi); [eauto|]. cbn in Hd. congruence.
Qed.

Lemma debouncedSave_frame docName ydoc st :
  let st' := debouncedSave docName ydoc st in
  saveLocks st' = saveLocks st /\ inflight st' = inflight st
  /\ requests st' = requests st /\ store st' = store st /\ docs st' = docs st
  /\ observers st' = observers st /\ clock st' = clock st.
Proof. unfold debouncedSave. by destruct (saveTimers st !! docName). Qed.

Lemma saveToMinIO_frame docName ydoc st :
  let st' := (saveToMinIO docName ydoc st).1 in
  timers st' = timers st /\ saveTimers st' = saveTimers st
  /\ nextTimer st' = nextTimer st /\ clock st' = clock st /\ docs st' = docs st
  /\ observers st' = observers st /\ store st' = store st.
Proof. unfold saveToMinIO. by destruct (saveLocks st !! docName) as [[]|]. Qed.

(** Removing the timers of one name together with its map entry. *)
Lemma TimerInv_remove st st' D :
  TimerInv st ->
  timers st' = filter (fun t => timerDoc t <> D) (timers st) ->
  saveTimers st' = delete D (saveTimers st) ->
  nextTimer st' = nextTimer st ->
  TimerInv st'.
Proof.
  intros [H1 H2 H3 H4] Et Em En. split; rewrite ?Et, ?Em, ?En.
  - by apply NoDup_fmap_filter.
  - by apply NoDup_fmap_filter.
  - intros t [_ Ht]%list_elem_of_filter. by apply H3.
  - intros D' id. destruct (decide (D' = D)) as [->|Hne].
    + rewrite lookup_delete_eq. split; [done|].
      intros (t & [Hd _]%list_elem_of_filter & Hdoc & _). done.
    + rewrite lookup_delete_ne by done. rewrite H4. split.
      * intros (t & Ht & Hd & Hi). exists t. split; [|done].
        apply list_elem_of_filter. split; [congruence|done].
      * intros (t & [_ Ht]%list_elem_of_filter & Hd & Hi). eauto.
Qed.

(** [fire] either does nothing or runs the callback of a due timer. *)
Lemma fire_cases id st :
  fire id st = st
  \/ exists t, t ∈ timers st /\ timerId t = id /\ (deadline t <= clock st)%N
       /\ fire id st = timerCallback t (clearTimeout id st).
Proof.
  unfold fire. destruct (list_find _ _) as [[i t]|] eqn:E; [|by left].
  apply list_find_Some in E as (Hi & Hid & _).
  destruct (N.leb_spec (deadline t) (clock st)); [|by left].
  right. exists t. split; [by eapply list_elem_of_lookup_2|done].
Qed.

Lemma timerCallback_timers t id st :
  TimerInv st -> t ∈ timers st -> timerId t = id ->
  let st' := timerCallback t (clearTimeout id st) in
  timers st' = filter (fun u => timerDoc u <> timerDoc t) (timers st)
  /\ saveTimers st' = delete (timerDoc t) (saveTimers st)
  /\ nextTimer st' = nextTimer st.
Proof.
  intros HI Ht Hid. cbv zeta. unfold timerCallback.
  destruct (saveToMinIO_frame (timerDoc t) (timerYdoc t) (clearTimeout id st))
    as (E1 & E2 & E3 & _).
  cbn. rewrite E1, E2, E3. cbn. split; [|done].
  apply clear_recorded; [done|]. apply HI. eauto.
Qed.

Lemma TimerInv_fire id st : TimerInv st -> TimerInv (fire id st).
Proof.
  intros HI. destruct (fire_cases id st) as [->|(t & Ht & Hid & _ & ->)]; [done|].
  destruct (timerCallback_timers t id st HI Ht Hid) as (E1 & E2 & E3).
  by eapply TimerInv_remove.
Qed.

Lemma LockInv_fire id st : LockInv st -> LockInv (fire id st).
Proof.
  intros HI. destruct (fire_cases id st) as [->|(t & Ht & Hid & _ & ->)]; [done|].
  unfold timerCallback.
  apply (LockInv_ext (saveToMinIO (timerDoc t) (timerYdoc t) (clearTimeout id st)).1);
    [done..|].
  apply LockInv_saveToMinIO. by apply (LockInv_ext st).
Qed.

Lemma calm_refl st : calm st st.
Proof. by split_and!. Qed.

Lemma calm_trans st1 st2 st3 : calm st1 st2 -> calm st2 st3 -> calm st1 st3.
Proof.
  intros (A1 & A2 & A3 & A4 & A5 & A6) (B1 & B2 & B3 & B4 & B5 & B6).
  split_and!; try congruence; try tauto.
Qed.

Lemma calm_foldl {B} (f : State -> B -> State) l st :
  (forall s b, calm s (f s b)) -> calm st (foldl f st l).
Proof.
  intros Hf. revert st. induction l as [|b l IH]; intros st; cbn.
  - apply calm_refl.
  - eapply calm_trans; [apply Hf|apply IH].
Qed.

Lemma calm_debouncedSave docName ydoc st : calm st (debouncedSave docName ydoc st).
Proof.
  destruct (debouncedSave_frame docName ydoc st) as (E1 & E2 & E3 & E4 & E5 & E6 & E7).
  unfold calm. split_and!; try done.
  - intros key. unfold putsTo. by rewrite E3.
  - apply TimerInv_debouncedSave.
Qed.

Lemma calm_emitUpdate ydoc st : calm st (emitUpdate ydoc st).
Proof.
  unfold emitUpdate. apply calm_foldl. intros s o.
  case_decide; [apply calm_debouncedSave|apply calm_refl].
Qed.

Lemma calm_mutate ydoc d st : calm st (mutate ydoc d st).
Proof.
  unfold mutate. eapply calm_trans; [|apply calm_emitUpdate].
  unfold calm. split_and!; try done. intros HI. by apply (TimerInv_ext st).
Qed.

Lemma calm_log (l : list Request) st :
  Forall (fun r => forall key, isPutTo key r = false) l ->
  calm st (set_requests (fun l0 => l0 ++ l) st).
Proof.
  intros Hl. unfold calm. split_and!; try done.
  - intros key. unfold putsTo. cbn. rewrite List.filter_app.
    replace (List.filter (isPutTo key) l) with (@nil Request);
      [by rewrite app_nil_r|].
    induction Hl as [|r l Hr _ IH]; [done|]. cbn. by rewrite Hr.
  - intros HI. by apply (TimerInv_ext st).
Qed.

Lemma calm_validateFileIndexOf ydoc faults st :
  calm st (validateFileIndexOf ydoc faults st).
Proof.
  unfold validateFileIndexOf. eapply calm_trans; [|apply calm_foldl].
  - apply calm_log. apply Forall_forall. intros r Hr.
    apply list_elem_of_In, in_map_iff in Hr as (c & <- & _). done.
  - intros s tx. apply calm_mutate.
Qed.

Lemma calm_bindState docName ydoc loadFault merged statFaults st :
  calm st (bindState docName ydoc loadFault merged statFaults st).
Proof.
  unfold bindState, loadFromMinIO.
  set (st1 := set_requests _ st).
  assert (H1 : calm st st1) by (apply calm_log; by repeat constructor).
  set (st2 := match _ with Resolved _ => _ | Rejected _ => _ end).
  set (st3 := match st2 with Some _ => mutate ydoc merged st1 | None => st1 end).
  assert (H3 : calm st1 st3) by (subst st3; destruct st2; [apply calm_mutate|apply calm_refl]).
  set (st4 := if decide (docName = fileIndexName) then _ else st3).
  assert (H4 : calm st3 st4)
    by (subst st4; case_decide; [apply calm_validateFileIndexOf|apply calm_refl]).
  eapply calm_trans; [exact H1|]. eapply calm_trans; [exact H3|].
  eapply calm_trans; [exact H4|].
  unfold calm. split_and!; try done. intros HI. by apply (TimerInv_ext st4).
Qed.

Lemma Inv_calm st st' : calm st st' -> Inv st -> Inv st'.
Proof.
  intros (E1 & E2 & _ & _ & _ & HT) [HL HI]. split; [|tauto].
  by apply (LockInv_ext st).
Qed.

Lemma Inv_step st e : Inv st -> Inv (step st e).
Proof.
  intros HI. destruct e as [ydoc d|dt|id|i err|docName ydoc|docName ydoc lf m sf]; cbn.
  - eapply Inv_calm; [apply calm_mutate|done].
  - destruct HI as [HL HT]. split; [by apply (LockInv_ext st)|by apply (TimerInv_ext st)].
  - destruct HI as [HL HT]. split; [by apply LockInv_fire|by apply TimerInv_fire].
  - destruct HI as [HL HT]. split; [by apply LockInv_settle|].
    unfold settle. destruct (inflight st !! i); [|done].
    destruct err; by apply (TimerInv_ext st).
  - destruct HI as [HL HT]. split; [by apply LockInv_saveToMinIO|].
    destruct (saveToMinIO_frame docName ydoc st) as (E1 & E2 & E3 & _).
    by apply (TimerInv_ext st).
  - eapply Inv_calm; [apply calm_bindState|done].
Qed.

Lemma Inv_run st evs : Inv st -> Inv (run st evs).
Proof.
  revert st. induction evs as [|e evs IH]; intros st HI; [done|].
  cbn. apply IH. by apply Inv_step.
Qed.

Lemma Inv_reachable st : reachable st -> Inv st.
Proof.
  intros (bucket & evs & ->). apply Inv_run.
  split; [apply LockInv_init|apply TimerInv_init].
Qed.

(** *** One name's view of the coordinator *)

Lemma objectKey_inj D D' : objectKey D = objectKey D' -> D = D'.
Proof.
  unfold objectKey. intros H. apply app_inv_head in H. by apply app_inv_tail in H.
Qed.

Lemma undisturbed_refl D st : undisturbed D st st.
Proof. by unfold undisturbed. Qed.

Lemma undisturbed_trans D st1 st2 st3 :
  undisturbed D st1 st2 -> undisturbed D st2 st3 -> undisturbed D st1 st3.
Proof. unfold undisturbed. intros ? ?. split_and!; destruct_and!; congruence. Qed.

Lemma timersOf_others D D' (l : list Timer) :
  D' <> D ->
  filter (fun t => timerDoc t = D) (filter (fun t => timerDoc t <> D') l)
  = filter (fun t => timerDoc t = D) l.
Proof. intros Hne. apply list_filter_filter_l. intros t ->. done. Qed.

Lemma timersOf_self D (l : list Timer) :
  filter (fun t => timerDoc t = D) (filter (fun t => timerDoc t <> D) l) = [].
Proof.
  induction l as [|a l IH]; [done|]. rewrite (filter_cons (fun t => timerDoc t <> D)).
  case_decide; [|done]. by rewrite filter_cons_False.
Qed.

(** A save for another name leaves [D] alone. *)
Lemma saveToMinIO_other D docName ydoc st :
  docName <> D ->
  let st' := (saveToMinIO docName ydoc st).1 in
  saveLocks st' !! D = saveLocks st !! D
  /\ putsTo (objectKey D) st' = putsTo (objectKey D) st.
Proof.
  intros Hne. unfold saveToMinIO.
  destruct (saveLocks st !! docName) as [[]|]; cbn; try done.
  all: rewrite lookup_insert_ne by done; split; [done|].
  all: unfold putsTo; cbn; rewrite List.filter_app; cbn.
  all: rewrite bool_decide_eq_false_2 by (intros ?%objectKey_inj; done).
  all: by rewrite app_nil_r.
Qed.

Lemma fire_other D id st :
  TimerInv st ->
  (forall t, t ∈ timers st -> timerId t = id -> (deadline t <= clock st)%N ->
             timerDoc t <> D) ->
  undisturbed D st (fire id st).
Proof.
  intros HI Hother.
  destruct (fire_cases id st) as [->|(t & Ht & Hid & Hdue & ->)];
    [apply undisturbed_refl|].
  specialize (Hother t Ht Hid Hdue).
  destruct (timerCallback_timers t id st HI Ht Hid) as (E1 & E2 & E3).
  unfold timerCallback in *.
  destruct (saveToMinIO_other D (timerDoc t) (timerYdoc t) (clearTimeout id st) Hother)
    as (F1 & F2).
  destruct (saveToMinIO_frame (timerDoc t) (timerYdoc t) (clearTimeout id st))
    as (_ & _ & _ & G1 & G2 & G3 & _).
  unfold undisturbed, timersOf. split_and!; try done.
  rewrite E1. by apply timersOf_others.
Qed.

Lemma foldl_fire_others D ids st :
  Inv st ->
  (forall t, t ∈ timersOf D st -> timerId t ∈ ids -> (clock st < deadline t)%N) ->
  let st' := foldl (fun st id => fire id st) st ids in
  undisturbed D st st' /\ Inv st'.
Proof.
  revert st. induction ids as [|id ids IH]; intros st HI Hnot; cbn.
  { split; [apply undisturbed_refl|done]. }
  assert (H1 : undisturbed D st (fire id st)).
  { apply fire_other; [apply HI|]. intros t Ht Hid Hdue Hd.
    assert (clock st < deadline t)%N; [|lia].
    apply Hnot; [by apply list_elem_of_filter|]. rewrite Hid. by left. }
  assert (H2 : Inv (fire id st)) by (apply (Inv_step st (EvFire id)); done).
  destruct (IH (fire id st) H2) as [H3 H4].
  { destruct H1 as (_ & _ & Et & _ & Ec & _). rewrite Et, Ec.
    intros t Ht Hin. apply Hnot; [done|]. by right. }
  split; [by eapply undisturbed_trans|done].
Qed.

Lemma elapse_run dt st :
  elapse dt st = run st (EvTick dt :: (EvFire <$> dueTimers (tick dt st))).
Proof.
  unfold elapse, run. cbn.
  assert (H : forall ids s,
    foldl (fun st id => fire id st) s ids = foldl step s (EvFire <$> ids)).
  { induction ids as [|id l IH]; intros s; [done|]. cbn. apply IH. }
  apply H.
Qed.

Lemma Inv_elapse dt st : Inv st -> Inv (elapse dt st).
Proof. rewrite elapse_run. apply Inv_run. Qed.

Lemma Inv_mutate ydoc d st : Inv st -> Inv (mutate ydoc d st).
Proof. apply (Inv_step st (EvUpdate ydoc d)). Qed.

Lemma debouncedSave_armed D ydoc st :
  TimerInv st ->
  armed D ydoc (clock st + SAVE_DEBOUNCE_MS)%N (debouncedSave D ydoc st).
Proof.
  intros HI. eexists. unfold timersOf. rewrite debouncedSave_timers by done.
  rewrite filter_app, timersOf_self. rewrite filter_cons_True by done. done.
Qed.

Lemma debouncedSave_timersOf D D' ydoc st :
  TimerInv st -> D' <> D ->
  timersOf D (debouncedSave D' ydoc st) = timersOf D st.
Proof.
  intros HI Hne. unfold timersOf. rewrite debouncedSave_timers by done.
  rewrite filter_app, timersOf_others by done.
  rewrite filter_cons_False by (cbn; done). by rewrite app_nil_r.
Qed.

Lemma emitUpdate_armed D ydoc st :
  TimerInv st -> (ydoc, D) ∈ observers st ->
  armed D ydoc (clock st + SAVE_DEBOUNCE_MS)%N (emitUpdate ydoc st).
Proof.
  intros HI Hobs. unfold emitUpdate.
  set (f := fun st o => _).
  assert (H : forall l s, TimerInv s -> clock s = clock st ->
            ((ydoc, D) ∈ l \/ armed D ydoc (clock st + SAVE_DEBOUNCE_MS)%N s) ->
            armed D ydoc (clock st + SAVE_DEBOUNCE_MS)%N (foldl f s l)).
  { induction l as [|o l IH]; intros s Hs Hc Hor; cbn.
    - destruct Hor as [Hin|Ha]; [by apply elem_of_nil in Hin|done].
    - assert (Hs' : TimerInv (f s o)).
      { unfold f. case_decide; [by apply TimerInv_debouncedSave|done]. }
      assert (Hc' : clock (f s o) = clock st).
      { unfold f. case_decide; [|done].
        destruct (debouncedSave_frame o.2 ydoc s) as (_ & _ & _ & _ & _ & _ & ->). done. }
      apply IH; [done..|].
      destruct (decide (o = (ydoc, D))) as [->|Hne].
      + right. unfold f. cbn. rewrite decide_True by done.
        rewrite <- Hc. by apply debouncedSave_armed.
      + destruct Hor as [[?|Hin]%elem_of_cons|Ha]; [done|by left|].
        right. unfold f. case_decide as Ho; [|done].
        destruct Ha as (t & Ht & Hd & Hy). exists t. split; [|done].
        rewrite debouncedSave_timersOf; [done..|].
        intros E. apply Hne. destruct o. cbn in *. congruence. }
  apply H; [done..|by left].
Qed.

Lemma foldl_preserves {A B} (P : A -> Prop) (f : A -> B -> A) l :
  (forall a b, P a -> P (f a b)) -> forall a, P a -> P (foldl f a l).
Proof.
  intros Hf. induction l as [|b l IH]; intros a Ha; [done|]. cbn. by apply IH, Hf.
Qed.

Lemma emitUpdate_frame ydoc st :
  docs (emitUpdate ydoc st) = docs st /\ observers (emitUpdate ydoc st) = observers st.
Proof.
  unfold emitUpdate.
  apply (foldl_preserves (fun s => docs s = docs st /\ observers s = observers st));
    [|done].
  intros s o [E1 E2]. case_decide; [|done].
  destruct (debouncedSave_frame o.2 ydoc s) as (_ & _ & _ & _ & -> & -> & _). done.
Qed.

Lemma mutate_getDoc ydoc d st : getDoc (mutate ydoc d st) ydoc = d.
Proof.
  unfold mutate, getDoc.
  destruct (emitUpdate_frame ydoc (set_docs (insert ydoc d) st)) as [-> _].
  cbn. by rewrite lookup_insert_eq.
Qed.

Lemma mutate_armed D ydoc d st :
  Inv st -> (ydoc, D) ∈ observers st ->
  let st' := mutate ydoc d st in
  armed D ydoc (clock st + SAVE_DEBOUNCE_MS)%N st'
  /\ getDoc st' ydoc = d /\ observers st' = observers st
  /\ calm st st' /\ Inv st'.
Proof.
  intros HI Hobs. cbv zeta. split_and!.
  - unfold mutate. apply (emitUpdate_armed D ydoc (set_docs (insert ydoc d) st));
      [|done]. apply (TimerInv_ext st); [done..|apply HI].
  - unfold mutate, getDoc.
    destruct (emitUpdate_frame ydoc (set_docs (insert ydoc d) st)) as [-> _].
    cbn. by rewrite lookup_insert_eq.
  - unfold mutate.
    by destruct (emitUpdate_frame ydoc (set_docs (insert ydoc d) st)) as [_ ->].
  - apply calm_mutate.
  - by apply Inv_mutate.
Qed.

(** *** Time passing *)

Lemma elapse_not_due D dt st :
  Inv st ->
  (forall t, t ∈ timersOf D st -> (clock st + dt < deadline t)%N) ->
  let st' := elapse dt st in
  saveLocks st' !! D = saveLocks st !! D
  /\ putsTo (objectKey D) st' = putsTo (objectKey D) st
  /\ timersOf D st' = timersOf D st
  /\ docs st' = docs st /\ observers st' = observers st
  /\ clock st' = (clock st + dt)%N /\ Inv st'.
Proof.
  intros HI Hnot. cbv zeta. unfold elapse.
  assert (H0 : Inv (tick dt st)) by apply (Inv_step st (EvTick dt) HI).
  destruct (foldl_fire_others D (dueTimers (tick dt st)) (tick dt st) H0)
    as [(E1 & E2 & E3 & E4 & E5 & E6) H1].
  { intros t Ht _. by apply Hnot. }
  split_and!; done.
Qed.

Lemma fire_due t st :
  TimerInv st -> t ∈ timers st -> (deadline t <= clock st)%N ->
  fire (timerId t) st = timerCallback t (clearTimeout (timerId t) st).
Proof.
  intros HI Ht Hdue. unfold fire.
  destruct (list_find _ _) as [[i t']|] eqn:E.
  - apply list_find_Some in E as (Hi & Hid & _).
    assert (t' = t) as ->.
    { eapply (NoDup_fmap_eq timerId); [apply HI| |done..].
      by eapply list_elem_of_lookup_2. }
    destruct (N.leb_spec (deadline t) (clock st)); [done|lia].
  - apply list_find_None in E. rewrite Forall_forall in E. by destruct (E t Ht).
Qed.

Lemma fire_own D t st :
  Inv st -> timersOf D st = [t] -> (deadline t <= clock st)%N ->
  saveLocks st !! D = None ->
  let st' := fire (timerId t) st in
  putsTo (objectKey D) st'
  = putsTo (objectKey D) st ++ [PutObject (objectKey D) (getDoc st (timerYdoc t))]
  /\ timersOf D st' = [].
Proof.
  intros [HL HT] Hof Hdue Hfree. cbv zeta.
  assert (Ht : t ∈ timers st /\ timerDoc t = D).
  { assert (t ∈ timersOf D st) as [? ?]%list_elem_of_filter by (rewrite Hof; by left).
    done. }
  destruct Ht as [Ht Hd]. rewrite fire_due by done.
  destruct (timerCallback_timers t (timerId t) st HT Ht eq_refl) as (E1 & _ & _).
  split.
  - unfold timerCallback. rewrite Hd.
    rewrite saveToMinIO_free by (cbn; rewrite Hfree; done).
    unfold putsTo. cbn. rewrite List.filter_app. cbn.
    by rewrite bool_decide_eq_true_2.
  - unfold timersOf. rewrite E1, Hd. apply timersOf_self.
Qed.

Lemma foldl_fire_due D t ids st :
  Inv st -> timersOf D st = [t] -> (deadline t <= clock st)%N ->
  saveLocks st !! D = None -> timerId t ∈ ids -> NoDup ids ->
  let st' := foldl (fun st id => fire id st) st ids in
  putsTo (objectKey D) st'
  = putsTo (objectKey D) st ++ [PutObject (objectKey D) (getDoc st (timerYdoc t))]
  /\ timersOf D st' = [].
Proof.
  intros HI Hof Hdue Hfree Hin Hnd. cbv zeta.
  apply list_elem_of_split in Hin as (l1 & l2 & ->).
  apply NoDup_app in Hnd as (_ & Hn1 & Hn2). apply NoDup_cons in Hn2 as [Hn2 _].
  rewrite foldl_app. cbn [foldl].
  destruct (foldl_fire_others D l1 st HI) as [(E1 & E2 & E3 & E4 & E5 & E6) H1].
  { intros u Hu Hl. exfalso. rewrite Hof in Hu.
    apply list_elem_of_singleton in Hu as ->. apply (Hn1 _ Hl). by left. }
  cbv zeta in *. set (s1 := foldl _ st l1) in *. rewrite Hof in E3.
  destruct (fire_own D t s1 H1 E3) as [F1 F2];
    [ by rewrite E5 | by rewrite E1 |].
  assert (H2 : Inv (fire (timerId t) s1)) by apply (Inv_step s1 (EvFire _) H1).
  destruct (foldl_fire_others D l2 (fire (timerId t) s1) H2)
    as [(G1 & G2 & G3 & _) _].
  { intros u Hu. rewrite F2 in Hu. by apply elem_of_nil in Hu. }
  cbv zeta in *. split.
  - rewrite G2, F1, E2. unfold getDoc. by rewrite E4.
  - by rewrite G3.
Qed.

Lemma elapse_due D t dt st :
  Inv st -> timersOf D st = [t] -> (deadline t <= clock st + dt)%N ->
  saveLocks st !! D = None ->
  let st' := elapse dt st in
  putsTo (objectKey D) st'
  = putsTo (objectKey D) st ++ [PutObject (objectKey D) (getDoc st (timerYdoc t))]
  /\ timersOf D st' = [] /\ Inv st'.
Proof.
  intros HI Hof Hdue Hfree. cbv zeta.
  assert (H0 : Inv (tick dt st)) by apply (Inv_step st (EvTick dt) HI).
  assert (Ht : t ∈ timers st).
  { assert (t ∈ timersOf D st) as [? ?]%list_elem_of_filter by (rewrite Hof; by left).
    done. }
  destruct (foldl_fire_due D t (dueTimers (tick dt st)) (tick dt st) H0 Hof Hdue Hfree)
    as [E1 E2].
  - unfold dueTimers. apply list_elem_of_fmap_2, list_elem_of_filter. by split.
  - unfold dueTimers. apply NoDup_fmap_filter, HI.
  - split_and!; [exact E1|exact E2|by apply Inv_elapse].
Qed.

(** *** Two schedules within one window *)

Lemma debounce_two_updates st D ydoc d1 d2 dt :
  Inv st -> (ydoc, D) ∈ observers st -> saveLocks st !! D = None ->
  (dt < SAVE_DEBOUNCE_MS)%N ->
  let st1 := mutate ydoc d1 st in
  let st2 := mutate ydoc d2 (elapse dt st1) in
  let st3 := elapse SAVE_DEBOUNCE_MS st2 in
  armed D ydoc (clock st + SAVE_DEBOUNCE_MS)%N st1
  /\ armed D ydoc (clock st + dt + SAVE_DEBOUNCE_MS)%N st2
  /\ putsTo (objectKey D) st2 = putsTo (objectKey D) st
  /\ putsTo (objectKey D) st3
     = putsTo (objectKey D) st ++ [PutObject (objectKey D) d2]
  /\ timersOf D st3 = [].
Proof.
  intros HI Hobs Hfree Hdt. cbv zeta.
  destruct (mutate_armed D ydoc d1 st HI Hobs)
    as (A1 & A2 & A3 & (A4 & _ & _ & A5 & A6 & _) & A7).
  destruct A1 as (t1 & Ht1 & Hd1 & Hy1).
  destruct (elapse_not_due D dt (mutate ydoc d1 st) A7)
    as (B1 & B2 & B3 & B4 & B5 & B6 & B7).
  { intros t Ht. rewrite Ht1 in Ht. apply list_elem_of_singleton in Ht as ->.
    rewrite Hd1, A5. lia. }
  set (s1 := elapse dt (mutate ydoc d1 st)) in *.
  assert (Hobs1 : (ydoc, D) ∈ observers s1) by (rewrite B5, A3; done).
  destruct (mutate_armed D ydoc d2 s1 B7 Hobs1)
    as (C1 & C2 & C3 & (C4 & _ & _ & C5 & C6 & _) & C7).
  rewrite B6, A5 in C1. pose proof C1 as (t2 & Ht2 & Hd2 & Hy2).
  set (s2 := mutate ydoc d2 s1) in *.
  destruct (elapse_due D t2 SAVE_DEBOUNCE_MS s2 C7 Ht2) as (D1 & D2 & D3).
  { rewrite Hd2, C5, B6, A5. lia. }
  { by rewrite C4, B1, A4. }
  split_and!.
  - by exists t1.
  - done.
  - by rewrite C6, B2, A6.
  - rewrite D1, Hy2, C2, C6, B2, A6. done.
  - done.
Qed.

Lemma filter_key_nil {A B} `{EqDecision B} (f : A -> B) (d : B) (l : list A) :
  filter (fun x => f x = d) l = [] <-> d ∉ f <$> l.
Proof.
  induction l as [|a l IH]; [cbn; split; [intros _ H; by apply elem_of_nil in H|done]|].
  rewrite filter_cons, fmap_cons, not_elem_of_cons. case_decide as E.
  - split; [done|]. intros [H _]. by destruct H.
  - rewrite IH. split; [|tauto]. intros H. split; [congruence|done].
Qed.

Lemma filter_key_length {A B} `{EqDecision B} (f : A -> B) (d : B) (l : list A) :
  NoDup (f <$> l) -> length (filter (fun x => f x = d) l) <= 1.
Proof.
  induction l as [|a l IH]; intros Hn; [cbn; lia|].
  rewrite fmap_cons in Hn. apply NoDup_cons in Hn as [Ha Hn].
  rewrite filter_cons. case_decide as E; [|by apply IH].
  assert (filter (fun x => f x = d) l = []) as ->; [|cbn; lia].
  apply filter_key_nil. by rewrite <- E.
Qed.

Lemma lock_iff_in_flight st D :
  LockInv st ->
  (saveLocks st !! D = None <-> savesInFlight D st = [])
  /\ (saveLocks st !! D = Some true <-> savesInFlight D st <> []).
Proof.
  intros [H1 _ _]. unfold savesInFlight. rewrite filter_key_nil, H1.
  case_decide; split; split; try done; tauto.
Qed.

Lemma step_store st e key :
  Inv st -> is_Some (store st !! key) -> is_Some (store (step st e) !! key).
Proof.
  intros [HL HT] Hk.
  destruct e as [ydoc d|dt|id|i err|docName ydoc|docName ydoc lf m sf]; cbn [step].
  - by destruct (calm_mutate ydoc d st) as (_ & _ & -> & _).
  - done.
  - destruct (fire_cases id st) as [->|(t & _ & _ & _ & ->)]; [done|].
    unfold timerCallback. cbn.
    by destruct (saveToMinIO_frame (timerDoc t) (timerYdoc t) (clearTimeout id st))
      as (_ & _ & _ & _ & _ & _ & ->).
  - unfold settle. destruct (inflight st !! i) as [f|] eqn:Ef; [|done].
    destruct err; [done|].
    destruct (flight_put st HL f) as [buffer Eb]; [by eapply list_elem_of_lookup_2|].
    cbn [store set_saveLocks set_store set_inflight]. rewrite Eb. cbn [applyRequest].
    destruct (decide (objectKey (flightDoc f) = key)) as [->|Hne].
    + rewrite lookup_insert_eq. eauto.
    + by rewrite lookup_insert_ne.
  - unfold writeState.
    by destruct (saveToMinIO_frame docName ydoc st) as (_ & _ & _ & _ & _ & _ & ->).
  - by destruct (calm_bindState docName ydoc lf m sf st) as (_ & _ & -> & _).
Qed.

End CoordinatorFacts.

(** * Facts about the reconciler *)

Section ReconcilerFacts.

Lemma scanKeys_checks bucket fileIndex allKeys faults :
  (scanKeys bucket fileIndex allKeys faults).1.*1
  = filter (fun key => isFolder (fileIndex !! key) = false) allKeys.
Proof.
  revert faults. induction allKeys as [|key rest IH]; intros faults; [done|].
  cbn [scanKeys]. rewrite filter_cons.
  destruct (isFolder (fileIndex !! key)) eqn:E.
  - rewrite decide_False by done. apply IH.
  - rewrite decide_True by done. specialize (IH (tail faults)).
    destruct (scanKeys bucket fileIndex rest (tail faults)) as [c d].
    cbn [fst snd] in *. rewrite fmap_cons. cbn [fst]. by rewrite IH.
Qed.

Lemma scanKeys_keysToDelete bucket fileIndex allKeys faults :
  (scanKeys bucket fileIndex allKeys faults).2
  = (filter (fun c => isNotFound c.2 = true)
            (scanKeys bucket fileIndex allKeys faults).1).*1.
Proof.
  revert faults. induction allKeys as [|key rest IH]; intros faults; [done|].
  cbn [scanKeys]. destruct (isFolder (fileIndex !! key)); [apply IH|].
  specialize (IH (tail faults)).
  destruct (scanKeys bucket fileIndex rest (tail faults)) as [c d].
  cbn [fst snd] in *. rewrite filter_cons. cbn [fst snd].
  destruct (isNotFound _) eqn:E.
  - rewrite decide_True by done. rewrite fmap_cons. cbn [fst]. by rewrite IH.
  - rewrite decide_False by (cbn [snd]; congruence). done.
Qed.

Lemma validateFileIndex_scan bucket faults fileIndex :
  let r := validateFileIndex bucket faults fileIndex in
  let s := scanKeys bucket fileIndex (map_to_list fileIndex).*1 faults in
  checks r = s.1 /\ keysToDelete r = s.2
  /\ transactions r = (if (0 <? length s.2)%nat then [s.2] else [])
  /\ filesAfter r
     = foldl (fun m tx => foldl (fun m key => delete key m) m tx) fileIndex (transactions r).
Proof. cbv zeta. unfold validateFileIndex. by destruct (scanKeys _ _ _ _). Qed.

Lemma lookup_foldl_delete {V} (m : gmap jsstring V) (l : list jsstring) key :
  key ∉ l -> foldl (fun m k => delete k m) m l !! key = m !! key.
Proof.
  revert m. induction l as [|k l IH]; intros m Hk; [done|].
  apply not_elem_of_cons in Hk as [Hne Hk]. cbn. rewrite IH by done.
  by apply lookup_delete_ne.
Qed.

(** An entry that is not in [keysToDelete] keeps its value. *)
Lemma validateFileIndex_keeps bucket faults fileIndex key :
  let r := validateFileIndex bucket faults fileIndex in
  key ∉ keysToDelete r ->
  (forall tx, tx ∈ transactions r -> key ∉ tx)
  /\ filesAfter r !! key = fileIndex !! key.
Proof.
  cbv zeta. intros Hk.
  destruct (validateFileIndex_scan bucket faults fileIndex) as (E1 & E2 & E3 & E4).
  cbv zeta in *. rewrite E4, E3. rewrite E2 in Hk.
  destruct (0 <? length _)%nat; cbn.
  - split; [by intros tx ->%list_elem_of_singleton|]. by apply lookup_foldl_delete.
  - split; [|done]. intros tx Htx. by apply elem_of_nil in Htx.
Qed.

(** Only entries whose own check came back not-found are collected. *)
Lemma keysToDelete_checked bucket faults fileIndex key :
  let r := validateFileIndex bucket faults fileIndex in
  key ∈ keysToDelete r ->
  exists res, (key, res) ∈ checks r /\ isNotFound res = true.
Proof.
  cbv zeta. intros Hk.
  destruct (validateFileIndex_scan bucket faults fileIndex) as (E1 & E2 & _).
  cbv zeta in *. rewrite E2, scanKeys_keysToDelete in Hk. rewrite E1.
  apply list_elem_of_fmap in Hk as ([k res] & -> & [Hnf Hin]%list_elem_of_filter).
  eauto.
Qed.

Lemma checks_not_folder bucket faults fileIndex key res :
  (key, res) ∈ checks (validateFileIndex bucket faults fileIndex) ->
  isFolder (fileIndex !! key) = false /\ is_Some (fileIndex !! key).
Proof.
  intros Hin.
  destruct (validateFileIndex_scan bucket faults fileIndex) as (E1 & _).
  cbv zeta in *. rewrite E1 in Hin.
  assert (Hk : key ∈ (scanKeys bucket fileIndex (map_to_list fileIndex).*1 faults).1.*1)
    by (by apply (list_elem_of_fmap_2 fst _ (key, res))).
  rewrite scanKeys_checks in Hk. apply list_elem_of_filter in Hk as [Hf Hk].
  split; [done|].
  apply list_elem_of_fmap in Hk as ([k m] & -> & Hm). apply elem_of_map_to_list in Hm.
  by exists m.
Qed.

Lemma checks_NoDup bucket faults fileIndex :
  NoDup (checks (validateFileIndex bucket faults fileIndex)).*1.
Proof.
  destruct (validateFileIndex_scan bucket faults fileIndex) as (E1 & _).
  cbv zeta in *. rewrite E1, scanKeys_checks.
  apply NoDup_filter, NoDup_fst_map_to_list.
Qed.

Lemma folders_untouched bucket faults fileIndex key :
  let r := validateFileIndex bucket faults fileIndex in
  isFolder (fileIndex !! key) = true ->
  (forall res, (key, res) ∉ checks r)
  /\ (key ∉ keysToDelete r)
  /\ filesAfter r !! key = fileIndex !! key.
Proof.
  cbv zeta. intros Hf.
  assert (Hc : forall res, (key, res) ∉ checks (validateFileIndex bucket faults fileIndex)).
  { intros res [Hn _]%checks_not_folder. congruence. }
  assert (Hk : key ∉ keysToDelete (validateFileIndex bucket faults fileIndex)).
  { intros (res & Hres & _)%keysToDelete_checked. by apply (Hc res). }
  split_and!; [done..|]. by apply validateFileIndex_keeps.
Qed.

(** The live document after [validateFileIndex(ydoc)] holds [filesAfter]. *)
Lemma validateFileIndexOf_files ydoc faults st :
  files (getDoc (validateFileIndexOf ydoc faults st) ydoc)
  = filesAfter (validateFileIndex (store st) faults (files (getDoc st ydoc))).
Proof.
  unfold validateFileIndexOf.
  destruct (validateFileIndex_scan (store st) faults (files (getDoc st ydoc)))
    as (_ & _ & E3 & E4).
  cbv zeta in *. rewrite E4, E3.
  destruct (0 <? length _)%nat; cbn [foldl]; [|done].
  rewrite mutate_getDoc. done.
Qed.

End ReconcilerFacts.

(** * The claims *)

Section Claims.

Lemma saveToMinIO_in_flight st docName ydoc :
  LockInv st -> savesInFlight docName st <> [] ->
  saveToMinIO docName ydoc st = (st, Fulfilled).
Proof.
  intros HL Hin. apply saveToMinIO_locked. by apply lock_iff_in_flight.
Qed.

Lemma reachable_run bucket evs : reachable (run (init bucket) evs).
Proof. by exists bucket, evs. Qed.

(** C1 (as amended).  [writeState] does not wait for the debounce window:
    when no save for the name is in flight it snapshots the document at
    once, puts that snapshot to the store and leaves the timers alone; when
    that put succeeds the bucket holds the snapshot under
    [yjs/<name>.yjs] and the lock is released.  When a save for the name is
    already in flight, [writeState] completes at once and changes nothing. *)
Theorem writeState_saves_at_once st docName ydoc :
  reachable st ->
  (savesInFlight docName st = [] ->
     let snapshot := getDoc st ydoc in
     let put := PutObject (objectKey docName) snapshot in
     let st' := (writeState docName ydoc st).1 in
     (writeState docName ydoc st).2 = Pending
     /\ requests st' = requests st ++ [put]
     /\ inflight st' = inflight st ++ [{| flightDoc := docName; flightCall := put |}]
     /\ timers st' = timers st /\ saveTimers st' = saveTimers st
     /\ let st'' := settle (length (inflight st)) None st' in
        store st'' !! objectKey docName = Some snapshot
        /\ saveLocks st'' !! docName = None)
  /\ (savesInFlight docName st <> [] ->
      writeState docName ydoc st = (st, Fulfilled)).
Proof.
  intros Hr. pose proof (Inv_reachable st Hr) as [HL HT].
  split; [|by apply saveToMinIO_in_flight].
  intros Hfree. cbv zeta.
  assert (Hlock : saveLocks st !! docName = None) by (by apply lock_iff_in_flight).
  unfold writeState. rewrite saveToMinIO_free by (rewrite Hlock; done).
  cbn [fst snd]. split_and!; try done.
  - unfold settle, await. cbn [inflight set_inflight set_requests set_saveLocks].
    rewrite lookup_app_r by done. rewrite Nat.sub_diag. cbn [lookup list_lookup].
    cbn [store set_saveLocks set_store set_inflight flightCall applyRequest].
    apply lookup_insert_eq.
  - unfold settle, await. cbn [inflight set_inflight set_requests set_saveLocks].
    rewrite lookup_app_r by done. rewrite Nat.sub_diag. cbn [lookup list_lookup].
    cbn [saveLocks set_saveLocks set_store set_inflight flightDoc].
    apply lookup_delete_eq.
Qed.

Lemma writeState_saves_at_once_witness :
  (reachable boundState /\ savesInFlight fooRoom boundState = []
   /\ (writeState fooRoom 0 boundState).2 = Pending
   /\ store (settle 0 None (writeState fooRoom 0 boundState).1) !! objectKey fooRoom
      = Some emptyDoc)
  /\ (reachable inFlightState /\ savesInFlight fooRoom inFlightState <> []
      /\ writeState fooRoom 0 inFlightState = (inFlightState, Fulfilled)).
Proof.
  assert (R1 : reachable boundState) by apply reachable_run.
  assert (R2 : reachable inFlightState) by apply reachable_run.
  assert (F1 : savesInFlight fooRoom boundState = []) by (vm_compute; reflexivity).
  assert (F2 : savesInFlight fooRoom inFlightState <> []) by (vm_compute; discriminate).
  destruct (writeState_saves_at_once boundState fooRoom 0 R1) as [H1 _].
  destruct (writeState_saves_at_once inFlightState fooRoom 0 R2) as [_ H2].
  destruct (H1 F1) as (P1 & _ & _ & _ & _ & P2 & _).
  split.
  - split; [exact R1|]. split; [exact F1|]. split; [exact P1|exact P2].
  - split; [exact R2|]. split; [exact F2|exact (H2 F2)].
Defined.

(** C1 as stated fails: a flush is in flight with the empty document when
    the document changes; [writeState] then completes at once without any
    call on the store, and when the lock becomes free the bucket holds the
    old snapshot, with no save in flight and no timer armed that could
    write the new one. *)
Lemma writeState_in_flight_counterexample :
  reachable inFlightState
  /\ savesInFlight fooRoom inFlightState <> []
  /\ getDoc inFlightState 0 = draft (js "second")
  /\ writeState fooRoom 0 inFlightState = (inFlightState, Fulfilled)
  /\ let st' := settle 0 None (writeState fooRoom 0 inFlightState).1 in
     saveLocks st' !! fooRoom = None /\ inflight st' = [] /\ timers st' = []
     /\ store st' !! objectKey fooRoom = Some emptyDoc
     /\ store st' !! objectKey fooRoom <> Some (getDoc inFlightState 0)
     /\ putsTo (objectKey fooRoom) st' = [PutObject (objectKey fooRoom) emptyDoc].
Proof.
  split; [apply reachable_run|].
  split; [vm_compute; discriminate|].
  split; [vm_compute; reflexivity|].
  split; [vm_compute; reflexivity|].
  cbv zeta. split_and!; try (vm_compute; reflexivity).
  vm_compute. discriminate.
Qed.

(** C2.  Once an object exists in the bucket, no run of the server's
    operations (updates, timers firing, saves settling, [writeState],
    [bindState] with its reconciliation) removes it: saves only add or
    overwrite objects. *)
Theorem snapshots_never_deleted st evs key :
  reachable st -> is_Some (store st !! key) -> is_Some (store (run st evs) !! key).
Proof.
  intros Hr. pose proof (Inv_reachable st Hr) as HI. clear Hr.
  revert st HI. induction evs as [|e evs IH]; intros st HI Hk; [done|].
  cbn. apply IH; [by apply Inv_step|by apply step_store].
Qed.

Lemma snapshots_never_deleted_witness :
  reachable (init storedBucket)
  /\ is_Some (store (init storedBucket) !! objectKey fooRoom)
  /\ is_Some (store (run (init storedBucket) overwriteRun) !! objectKey fooRoom).
Proof.
  assert (R : reachable (init storedBucket)) by exact (reachable_run storedBucket []).
  assert (H : is_Some (store (init storedBucket) !! objectKey fooRoom))
    by (vm_compute; eexists; reflexivity).
  split; [exact R|]. split; [exact H|].
  exact (snapshots_never_deleted (init storedBucket) overwriteRun (objectKey fooRoom) R H).
Defined.

(** The earlier variant does remove objects: saving a document other than
    the file index whose text is empty calls [removeObject]. *)
Lemma legacy_removes_empty_document st docName ydoc :
  saveLocks st !! docName <> Some true ->
  content (getDoc st ydoc) = [] -> docName <> fileIndexName ->
  requests (Legacy.saveToMinIO docName ydoc st).1
  = requests st ++ [RemoveObject (objectKey docName)].
Proof.
  intros Hfree Hempty Hne. unfold Legacy.saveToMinIO.
  destruct (saveLocks st !! docName) as [[]|]; [done|..];
    change (getDoc (set_saveLocks _ st) ydoc) with (getDoc st ydoc);
    rewrite Hempty; cbn [length Nat.eqb andb];
    rewrite bool_decide_eq_false_2 by done; reflexivity.
Qed.

(** C3.  For every valid path [p] (a JS string in which no surrogate
    stands alone) the encoding gives a room name, and [roomToPath] of that
    room name returns [p] exactly. *)
Theorem roomToPath_pathToRoom p :
  is_jsstring p -> isWellFormed p = true ->
  exists room, pathToRoom p = Normal room /\ roomToPath room = Normal p.
Proof.
  intros Hp Hwf. unfold pathToRoom.
  destruct (utf8EncodeString_wellFormed p Hwf) as [bs E]. rewrite E.
  cbn [cmap cbind]. eexists. split; [reflexivity|].
  rewrite roomToPath_encoded by (eapply utf8EncodeString_bytes; eauto).
  cbn [cbind]. eapply assemble_utf8EncodeString; eauto.
Qed.

Lemma roomToPath_pathToRoom_witness :
  is_jsstring samplePath /\ isWellFormed samplePath = true
  /\ exists room, pathToRoom samplePath = Normal room
                  /\ roomToPath room = Normal samplePath.
Proof.
  assert (H1 : is_jsstring samplePath) by (repeat constructor).
  assert (H2 : isWellFormed samplePath = true) by (vm_compute; reflexivity).
  split; [exact H1|]. split; [exact H2|].
  exact (roomToPath_pathToRoom samplePath H1 H2).
Defined.

(** *** An expiry while a save is in flight *)

(** The callback of a due timer whose name is locked only clears the
    timer and its map entry. *)
Lemma fire_locked t st :
  TimerInv st -> t ∈ timers st -> (deadline t <= clock st)%N ->
  saveLocks st !! timerDoc t = Some true ->
  let st' := fire (timerId t) st in
  requests st' = requests st /\ store st' = store st /\ inflight st' = inflight st
  /\ saveLocks st' = saveLocks st /\ docs st' = docs st
  /\ observers st' = observers st /\ clock st' = clock st
  /\ timersOf (timerDoc t) st' = [].
Proof.
  intros HI Ht Hdue Hlock. cbv zeta. rewrite fire_due by done.
  destruct (timerCallback_timers t (timerId t) st HI Ht eq_refl) as (E1 & _ & _).
  cbv zeta in E1. unfold timersOf. rewrite E1, timersOf_self.
  unfold timerCallback. rewrite saveToMinIO_locked by done. done.
Qed.

Lemma foldl_fire_due_locked D t ids st :
  Inv st -> timersOf D st = [t] -> (deadline t <= clock st)%N ->
  saveLocks st !! D = Some true -> timerId t ∈ ids -> NoDup ids ->
  let st' := foldl (fun st id => fire id st) st ids in
  putsTo (objectKey D) st' = putsTo (objectKey D) st
  /\ saveLocks st' !! D = Some true
  /\ docs st' = docs st
  /\ timersOf D st' = [].
Proof.
  intros HI Hof Hdue Hlock Hin Hnd. cbv zeta.
  apply list_elem_of_split in Hin as (l1 & l2 & ->).
  apply NoDup_app in Hnd as (_ & Hn1 & Hn2). apply NoDup_cons in Hn2 as [Hn2 _].
  rewrite foldl_app. cbn [foldl].
  destruct (foldl_fire_others D l1 st HI) as [(E1 & E2 & E3 & E4 & E5 & E6) H1].
  { intros u Hu Hl. exfalso. rewrite Hof in Hu.
    apply list_elem_of_singleton in Hu as ->. apply (Hn1 _ Hl). by left. }
  cbv zeta in *. set (s1 := foldl _ st l1) in *. rewrite Hof in E3.
  assert (Ht : t ∈ timers s1 /\ timerDoc t = D).
  { assert (t ∈ timersOf D s1) as [? ?]%list_elem_of_filter by (rewrite E3; by left).
    done. }
  destruct Ht as [Ht Hd].
  destruct (fire_locked t s1) as (F1 & F2 & F3 & F4 & F5 & F6 & F7 & F8);
    [apply H1|done|by rewrite E5|by rewrite Hd, E1|].
  cbv zeta in *. rewrite Hd in F8.
  assert (H2 : Inv (fire (timerId t) s1)) by apply (Inv_step s1 (EvFire _) H1).
  destruct (foldl_fire_others D l2 (fire (timerId t) s1) H2)
    as [(G1 & G2 & G3 & G4 & _) _].
  { intros u Hu. rewrite F8 in Hu. by apply elem_of_nil in Hu. }
  cbv zeta in *. split_and!.
  - rewrite G2. unfold putsTo. by rewrite F1.
  - by rewrite G1, F4, E1.
  - by rewrite G4, F5, E4.
  - by rewrite G3.
Qed.

Lemma elapse_due_locked D t dt st :
  Inv st -> timersOf D st = [t] -> (deadline t <= clock st + dt)%N ->
  saveLocks st !! D = Some true ->
  let st' := elapse dt st in
  putsTo (objectKey D) st' = putsTo (objectKey D) st
  /\ saveLocks st' !! D = Some true
  /\ docs st' = docs st
  /\ timersOf D st' = [].
Proof.
  intros HI Hof Hdue Hlock. cbv zeta.
  assert (H0 : Inv (tick dt st)) by apply (Inv_step st (EvTick dt) HI).
  assert (Ht : t ∈ timers st).
  { assert (t ∈ timersOf D st) as [? ?]%list_elem_of_filter by (rewrite Hof; by left).
    done. }
  apply (foldl_fire_due_locked D t (dueTimers (tick dt st)) (tick dt st) H0 Hof Hdue Hlock).
  - unfold dueTimers. apply list_elem_of_fmap_2, list_elem_of_filter. by split.
  - unfold dueTimers. apply NoDup_fmap_filter, HI.
Qed.

(** Two schedules within one window while a save is awaiting the store. *)
Lemma debounce_two_updates_locked st D ydoc d1 d2 dt :
  Inv st -> (ydoc, D) ∈ observers st -> saveLocks st !! D = Some true ->
  (dt < SAVE_DEBOUNCE_MS)%N ->
  let st1 := mutate ydoc d1 st in
  let st2 := mutate ydoc d2 (elapse dt st1) in
  let st3 := elapse SAVE_DEBOUNCE_MS st2 in
  armed D ydoc (clock st + SAVE_DEBOUNCE_MS)%N st1
  /\ armed D ydoc (clock st + dt + SAVE_DEBOUNCE_MS)%N st2
  /\ putsTo (objectKey D) st2 = putsTo (objectKey D) st
  /\ putsTo (objectKey D) st3 = putsTo (objectKey D) st
  /\ getDoc st3 ydoc = d2
  /\ timersOf D st3 = [].
Proof.
  intros HI Hobs Hlock Hdt. cbv zeta.
  destruct (mutate_armed D ydoc d1 st HI Hobs)
    as (A1 & A2 & A3 & (A4 & _ & _ & A5 & A6 & _) & A7).
  destruct A1 as (t1 & Ht1 & Hd1 & Hy1).
  destruct (elapse_not_due D dt (mutate ydoc d1 st) A7)
    as (B1 & B2 & B3 & B4 & B5 & B6 & B7).
  { intros t Ht. rewrite Ht1 in Ht. apply list_elem_of_singleton in Ht as ->.
    rewrite Hd1, A5. lia. }
  set (s1 := elapse dt (mutate ydoc d1 st)) in *.
  assert (Hobs1 : (ydoc, D) ∈ observers s1) by (rewrite B5, A3; done).
  destruct (mutate_armed D ydoc d2 s1 B7 Hobs1)
    as (C1 & C2 & C3 & (C4 & _ & _ & C5 & C6 & _) & C7).
  rewrite B6, A5 in C1. pose proof C1 as (t2 & Ht2 & Hd2 & Hy2).
  set (s2 := mutate ydoc d2 s1) in *.
  destruct (elapse_due_locked D t2 SAVE_DEBOUNCE_MS s2 C7 Ht2) as (D1 & D2 & D3 & D4).
  { rewrite Hd2, C5, B6, A5. lia. }
  { by rewrite C4, B1, A4. }
  split_and!.
  - by exists t1.
  - done.
  - by rewrite C6, B2, A6.
  - by rewrite D1, C6, B2, A6.
  - unfold getDoc in *. by rewrite D3.
  - done.
Qed.

(** C4 (as amended).  A name is bound to a document.  With no save for the
    name in flight: every schedule leaves exactly one timer armed for the
    name, due 3000 ms later (a pending one is cancelled); two updates of
    the document less than 3000 ms apart, then 3000 ms of quiet: each
    update leaves exactly one timer armed for the name, due 3000 ms after
    it; nothing is written before the second timer expires; its expiry
    makes exactly one [putObject] for the name, carrying the state after
    the later update; and no timer stays armed.  With a save for the name
    in flight, the same two updates arm and re-arm the timer, and its
    expiry writes nothing: no [putObject] for the name is added, the
    document keeps the later state, and no timer stays armed.  In general,
    when a timer of the name is due while a save for the name is in
    flight, its expiry makes no call on the store, changes neither the
    bucket nor the saves in flight, and leaves no timer for the name. *)
Theorem debounce_two_updates_one_write st docName ydoc d1 d2 dt :
  reachable st -> (ydoc, docName) ∈ observers st -> (dt < SAVE_DEBOUNCE_MS)%N ->
  let st1 := mutate ydoc d1 st in
  let st2 := mutate ydoc d2 (elapse dt st1) in
  let st3 := elapse SAVE_DEBOUNCE_MS st2 in
  (savesInFlight docName st = [] ->
     armed docName ydoc (clock st + SAVE_DEBOUNCE_MS)%N (debouncedSave docName ydoc st)
     /\ armed docName ydoc (clock st + SAVE_DEBOUNCE_MS)%N st1
     /\ armed docName ydoc (clock st + dt + SAVE_DEBOUNCE_MS)%N st2
     /\ putsTo (objectKey docName) st2 = putsTo (objectKey docName) st
     /\ putsTo (objectKey docName) st3
        = putsTo (objectKey docName) st ++ [PutObject (objectKey docName) d2]
     /\ timersOf docName st3 = [])
  /\ (savesInFlight docName st <> [] ->
      armed docName ydoc (clock st + SAVE_DEBOUNCE_MS)%N st1
      /\ armed docName ydoc (clock st + dt + SAVE_DEBOUNCE_MS)%N st2
      /\ putsTo (objectKey docName) st3 = putsTo (objectKey docName) st
      /\ getDoc st3 ydoc = d2
      /\ timersOf docName st3 = [])
  /\ (forall t, t ∈ timers st -> timerDoc t = docName ->
        (deadline t <= clock st)%N -> savesInFlight docName st <> [] ->
        let st' := fire (timerId t) st in
        requests st' = requests st /\ store st' = store st
        /\ inflight st' = inflight st /\ timersOf docName st' = []).
Proof.
  intros Hr Hobs Hdt. pose proof (Inv_reachable st Hr) as HI. cbv zeta.
  split_and!.
  - intros Hfree. split; [apply debouncedSave_armed, HI|].
    apply debounce_two_updates; try done.
    apply lock_iff_in_flight; [apply HI|done].
  - intros Hbusy.
    destruct (debounce_two_updates_locked st docName ydoc d1 d2 dt HI Hobs)
      as (A1 & A2 & _ & A4 & A5 & A6); [|done|done].
    apply lock_iff_in_flight; [apply HI|done].
  - intros t Ht Hd Hdue Hbusy.
    destruct (fire_locked t st) as (F1 & F2 & F3 & _ & _ & _ & _ & F8);
      [apply HI|done|done| |].
    + rewrite Hd. apply lock_iff_in_flight; [apply HI|done].
    + cbv zeta in *. rewrite Hd in F8. done.
Qed.

Lemma debounce_two_updates_one_write_witness :
  (reachable boundState /\ (0, fooRoom) ∈ observers boundState
   /\ savesInFlight fooRoom boundState = [] /\ (1000 < SAVE_DEBOUNCE_MS)%N
   /\ let st3 := elapse SAVE_DEBOUNCE_MS
                   (mutate 0 (draft (js "ab")) (elapse 1000
                      (mutate 0 (draft (js "a")) boundState))) in
      putsTo (objectKey fooRoom) st3
      = putsTo (objectKey fooRoom) boundState
        ++ [PutObject (objectKey fooRoom) (draft (js "ab"))])
  /\ (reachable boundInFlightState /\ (0, fooRoom) ∈ observers boundInFlightState
      /\ savesInFlight fooRoom boundInFlightState <> []
      /\ let st3 := elapse SAVE_DEBOUNCE_MS
                      (mutate 0 (draft (js "ab")) (elapse 1000
                         (mutate 0 (draft (js "a")) boundInFlightState))) in
         putsTo (objectKey fooRoom) st3 = putsTo (objectKey fooRoom) boundInFlightState
         /\ getDoc st3 0 = draft (js "ab")
         /\ timersOf fooRoom st3 = [])
  /\ (reachable dueInFlightState
      /\ savesInFlight fooRoom dueInFlightState <> []
      /\ timers dueInFlightState
         = [{| timerId := 0; deadline := 3000; timerDoc := fooRoom; timerYdoc := 0 |}]
      /\ clock dueInFlightState = 3000%N
      /\ let st' := fire 0 dueInFlightState in
         requests st' = requests dueInFlightState
         /\ store st' = store dueInFlightState
         /\ inflight st' = inflight dueInFlightState
         /\ timersOf fooRoom st' = []).
Proof.
  assert (R1 : reachable boundState) by apply reachable_run.
  assert (O1 : (0, fooRoom) ∈ observers boundState) by (vm_compute; left).
  assert (F1 : savesInFlight fooRoom boundState = []) by (vm_compute; reflexivity).
  assert (L : (1000 < SAVE_DEBOUNCE_MS)%N) by reflexivity.
  assert (R2 : reachable boundInFlightState) by apply reachable_run.
  assert (O2 : (0, fooRoom) ∈ observers boundInFlightState) by (vm_compute; left).
  assert (F2 : savesInFlight fooRoom boundInFlightState <> [])
    by (vm_compute; discriminate).
  assert (R3 : reachable dueInFlightState) by apply reachable_run.
  assert (O3 : (0, fooRoom) ∈ observers dueInFlightState) by (vm_compute; left).
  assert (F3 : savesInFlight fooRoom dueInFlightState <> [])
    by (vm_compute; discriminate).
  assert (T3 : timers dueInFlightState
               = [{| timerId := 0; deadline := 3000; timerDoc := fooRoom;
                     timerYdoc := 0 |}]) by (vm_compute; reflexivity).
  assert (C3 : clock dueInFlightState = 3000%N) by (vm_compute; reflexivity).
  assert (M3 : {| timerId := 0; deadline := 3000; timerDoc := fooRoom; timerYdoc := 0 |}
               ∈ timers dueInFlightState) by (rewrite T3; left).
  assert (D3 : (deadline {| timerId := 0; deadline := 3000; timerDoc := fooRoom;
                            timerYdoc := 0 |} <= clock dueInFlightState)%N)
    by (rewrite C3; reflexivity).
  destruct (debounce_two_updates_one_write boundState fooRoom 0
              (draft (js "a")) (draft (js "ab")) 1000%N R1 O1 L) as (H1 & _ & _).
  destruct (debounce_two_updates_one_write boundInFlightState fooRoom 0
              (draft (js "a")) (draft (js "ab")) 1000%N R2 O2 L) as (_ & H2 & _).
  destruct (debounce_two_updates_one_write dueInFlightState fooRoom 0
              (draft (js "a")) (draft (js "ab")) 1000%N R3 O3 L) as (_ & _ & H3).
  destruct (H1 F1) as (_ & _ & _ & _ & P1 & _).
  destruct (H2 F2) as (_ & _ & P2 & P3 & P4).
  split; [|split].
  - split; [exact R1|]. split; [exact O1|]. split; [exact F1|]. split; [exact L|].
    exact P1.
  - split; [exact R2|]. split; [exact O2|]. split; [exact F2|].
    split; [exact P2|]. split; [exact P3|exact P4].
  - split; [exact R3|]. split; [exact F3|]. split; [exact T3|]. split; [exact C3|].
    exact (H3 _ M3 eq_refl D3 F3).
Defined.

(** C4 as stated fails when a save for the name is in flight at the
    expiry: here a flush is awaiting the store throughout, the two updates
    arm and re-arm the timer, and its expiry writes nothing; the only put
    ever made for the name carries the old, empty state. *)
Lemma debounce_in_flight_counterexample :
  reachable boundInFlightState
  /\ (0, fooRoom) ∈ observers boundInFlightState
  /\ let st3 := elapse SAVE_DEBOUNCE_MS
                  (mutate 0 (draft (js "ab")) (elapse 1000
                     (mutate 0 (draft (js "a")) boundInFlightState))) in
     putsTo (objectKey fooRoom) st3 = putsTo (objectKey fooRoom) boundInFlightState
     /\ putsTo (objectKey fooRoom) st3 = [PutObject (objectKey fooRoom) emptyDoc]
     /\ getDoc st3 0 = draft (js "ab")
     /\ timers st3 = [].
Proof.
  split; [apply reachable_run|].
  split; [vm_compute; left|].
  cbv zeta. split_and!; vm_compute; reflexivity.
Qed.

(** C5.  Reconciling [{a: file, b: file, c: folder}] against a bucket that
    holds only [yjs/b.yjs] checks [a] and [b], collects [a], deletes it in
    one transaction and keeps [b] and [c].  In general an entry of type
    folder is never checked against the store, never collected and never
    deleted. *)
Theorem reconcile_abc_index :
  (forall buffer : Buffer,
     let r := validateFileIndex {[ js "yjs/b.yjs" := buffer ]} [] abcIndex in
     filesAfter r = {[ js "b" := fileEntry; js "c" := folderEntry ]}
     /\ keysToDelete r = [js "a"]
     /\ transactions r = [[js "a"]]
     /\ (checks r).*1 ≡ₚ [js "a"; js "b"])
  /\ (forall bucket faults fileIndex key,
        isFolder (fileIndex !! key) = true ->
        let r := validateFileIndex bucket faults fileIndex in
        (forall res, (key, res) ∉ checks r)
        /\ (key ∉ keysToDelete r)
        /\ filesAfter r !! key = fileIndex !! key).
Proof.
  split.
  - intros buffer. cbv zeta. split_and!; try (vm_compute; reflexivity).
    vm_compute. apply perm_swap.
  - intros bucket faults fileIndex key Hf. by apply folders_untouched.
Qed.

Lemma reconcile_abc_index_witness :
  isFolder (abcIndex !! js "c") = true
  /\ let r := validateFileIndex ∅ [Some timedOut] abcIndex in
     (forall res, (js "c", res) ∉ checks r)
     /\ (js "c" ∉ keysToDelete r)
     /\ filesAfter r !! js "c" = abcIndex !! js "c".
Proof.
  assert (H : isFolder (abcIndex !! js "c") = true) by (vm_compute; reflexivity).
  split; [exact H|].
  exact (proj2 reconcile_abc_index ∅ [Some timedOut] abcIndex (js "c") H).
Defined.

(** C6.  If the existence check made for an entry is rejected with an
    error whose code is not [NotFound], reconciliation does not collect
    the entry, deletes it in no transaction, and leaves its value in the
    index as it was. *)
Theorem transient_error_keeps_entry bucket faults fileIndex key e :
  let r := validateFileIndex bucket faults fileIndex in
  (key, Rejected e) ∈ checks r -> code e <> js "NotFound" ->
  (key ∉ keysToDelete r)
  /\ (forall tx, tx ∈ transactions r -> key ∉ tx)
  /\ filesAfter r !! key = fileIndex !! key.
Proof.
  cbv zeta. intros Hin Hcode.
  assert (Hk : key ∉ keysToDelete (validateFileIndex bucket faults fileIndex)).
  { intros (res & Hres & Hnf)%keysToDelete_checked.
    assert ((key, res) = (key, Rejected e)) as [= ->].
    { eapply (NoDup_fmap_eq fst); [apply checks_NoDup|done..]. }
    cbn in Hnf. by apply bool_decide_eq_true in Hnf. }
  split; [done|]. by apply validateFileIndex_keeps.
Qed.

Lemma transient_error_keeps_entry_witness :
  let fileIndex : gmap jsstring Metadata := {[ js "a" := fileEntry ]} in
  let r := validateFileIndex ∅ [Some timedOut] fileIndex in
  (js "a", Rejected timedOut) ∈ checks r /\ code timedOut <> js "NotFound"
  /\ (js "a" ∉ keysToDelete r)
  /\ filesAfter r !! js "a" = fileIndex !! js "a".
Proof.
  cbv zeta.
  assert (H1 : (js "a", Rejected timedOut)
               ∈ checks (validateFileIndex ∅ [Some timedOut] {[ js "a" := fileEntry ]}))
    by (vm_compute; left).
  assert (H2 : code timedOut <> js "NotFound") by (vm_compute; discriminate).
  destruct (transient_error_keeps_entry ∅ [Some timedOut] {[ js "a" := fileEntry ]}
              (js "a") timedOut H1 H2) as (P1 & _ & P2).
  split; [exact H1|]. split; [exact H2|]. split; [exact P1|exact P2].
Defined.

(** C7.  If a save for a name is in flight, a second [saveToMinIO] for that
    name returns at once: the whole server state, the request log
    included, is unchanged, and the promise is fulfilled, not rejected. *)
Theorem second_save_is_noop st docName ydoc :
  reachable st -> savesInFlight docName st <> [] ->
  saveToMinIO docName ydoc st = (st, Fulfilled).
Proof.
  intros Hr Hin. pose proof (Inv_reachable st Hr) as [HL HT].
  by apply saveToMinIO_in_flight.
Qed.

Lemma second_save_is_noop_witness :
  reachable boundInFlightState /\ savesInFlight fooRoom boundInFlightState <> []
  /\ saveToMinIO fooRoom 0 boundInFlightState = (boundInFlightState, Fulfilled).
Proof.
  assert (R : reachable boundInFlightState) by apply reachable_run.
  assert (F : savesInFlight fooRoom boundInFlightState <> [])
    by (vm_compute; discriminate).
  split; [exact R|]. split; [exact F|].
  exact (second_save_is_noop boundInFlightState fooRoom 0 R F).
Defined.

(** C8.  In every state the server can reach, at most one save per name is
    awaiting the store; the name has no lock entry exactly when none is;
    and when the awaited call of a save settles, with success or with an
    error, the lock entry of its name is removed and no save for the name
    remains in flight. *)
Theorem save_mutual_exclusion st docName :
  reachable st ->
  length (savesInFlight docName st) <= 1
  /\ (saveLocks st !! docName = None <-> savesInFlight docName st = [])
  /\ (forall i f err,
        inflight st !! i = Some f -> flightDoc f = docName ->
        saveLocks (settle i err st) !! docName = None
        /\ savesInFlight docName (settle i err st) = []).
Proof.
  intros Hr. pose proof (Inv_reachable st Hr) as [HL HT]. split_and!.
  - apply filter_key_length, HL.
  - by apply lock_iff_in_flight.
  - intros i f err Hi Hf.
    assert (E : saveLocks (settle i err st) !! docName = None).
    { unfold settle. rewrite Hi. destruct err; cbn; rewrite Hf; apply lookup_delete_eq. }
    split; [done|].
    apply (lock_iff_in_flight (settle i err st) docName); [by apply LockInv_settle|done].
Qed.

Lemma save_mutual_exclusion_witness :
  reachable boundInFlightState
  /\ length (savesInFlight fooRoom boundInFlightState) <= 1
  /\ saveLocks (settle 0 (Some timedOut) boundInFlightState) !! fooRoom = None
  /\ savesInFlight fooRoom (settle 0 (Some timedOut) boundInFlightState) = [].
Proof.
  assert (R : reachable boundInFlightState) by apply reachable_run.
  destruct (save_mutual_exclusion boundInFlightState fooRoom R) as (P1 & _ & P3).
  destruct (P3 0 {| flightDoc := fooRoom;
                    flightCall := PutObject (objectKey fooRoom) emptyDoc |}
               (Some timedOut) eq_refl eq_refl) as [Q1 Q2].
  split; [exact R|]. split; [exact P1|]. split; [exact Q1|exact Q2].
Defined.

(** C9 fails on the code.  With exactly the objects
    [yjs/__file_index__.yjs], [yjs/Zm9vLm1k.yjs] and [yjs/%%%.yjs] in the
    bucket, [GET /files] answers 200 with two files, the empty path and
    [foo.md]: the base64 decoder skips the three [%], nothing is thrown,
    and [roomToPath] returns the empty string for the malformed name. *)
Theorem files_lists_undecodable_key b1 b2 b3 :
  let response := handleRequest filesRequest (listingBucket b1 b2 b3) None in
  status response = 200
  /\ body response = stringifyFiles [ []; js "foo.md" ]
  /\ body response <> stringifyFiles [ js "foo.md" ]
  /\ roomToPath (js "Zm9vLm1k") = Normal (js "foo.md")
  /\ roomToPath (js "%%%") = Normal []
  /\ listedFile (js "yjs/%%%.yjs") = Some [].
Proof.
  cbv zeta. split_and!; try (vm_compute; reflexivity).
  vm_compute. discriminate.
Qed.

Lemma legacy_saveToMinIO_locked st docName ydoc :
  saveLocks st !! docName = Some true ->
  Legacy.saveToMinIO docName ydoc st = (st, Fulfilled).
Proof. intros H. unfold Legacy.saveToMinIO. by rewrite H. Qed.

Lemma legacy_saveToMinIO_index st ydoc :
  saveLocks st !! fileIndexName <> Some true ->
  Legacy.saveToMinIO fileIndexName ydoc st
  = (await fileIndexName (PutObject (objectKey fileIndexName) (getDoc st ydoc))
       (set_saveLocks (insert fileIndexName true) st), Pending).
Proof.
  intros H. unfold Legacy.saveToMinIO.
  rewrite bool_decide_eq_true_2 by done. rewrite andb_false_r.
  destruct (saveLocks st !! fileIndexName) as [[]|]; [done|reflexivity..].
Qed.

(** C10 (as amended).  In the variant that deletes empty documents, a save
    of the file index never calls [removeObject], whatever the document
    holds; and unless it is skipped because a save of the index is already
    in flight, it puts the snapshot, also when the ['content'] text is
    empty; when that put succeeds the bucket holds the snapshot. *)
Theorem legacy_index_exempt st ydoc :
  let r := Legacy.saveToMinIO fileIndexName ydoc st in
  (forall key, RemoveObject key ∈ requests r.1 -> RemoveObject key ∈ requests st)
  /\ (saveLocks st !! fileIndexName <> Some true ->
      let put := PutObject (objectKey fileIndexName) (getDoc st ydoc) in
      r.2 = Pending
      /\ requests r.1 = requests st ++ [put]
      /\ inflight r.1
         = inflight st ++ [{| flightDoc := fileIndexName; flightCall := put |}]
      /\ store (settle (length (inflight st)) None r.1) !! objectKey fileIndexName
         = Some (getDoc st ydoc)).
Proof.
  cbv zeta. destruct (decide (saveLocks st !! fileIndexName = Some true)) as [E|E].
  - rewrite legacy_saveToMinIO_locked by exact E. split; [done|]. done.
  - rewrite legacy_saveToMinIO_index by exact E. cbn [fst snd]. split.
    + intros key. unfold await. cbn [requests set_requests set_inflight].
      intros [H|H%list_elem_of_singleton]%elem_of_app; done.
    + intros _. split_and!; try done.
      unfold settle, await. cbn [inflight set_inflight set_requests set_saveLocks].
      rewrite lookup_app_r by done. rewrite Nat.sub_diag. cbn [lookup list_lookup].
      cbn [store set_saveLocks set_store set_inflight flightCall applyRequest].
      apply lookup_insert_eq.
Qed.

Lemma legacy_index_exempt_witness :
  saveLocks (init ∅) !! fileIndexName <> Some true
  /\ content (getDoc (init ∅) 0) = []
  /\ requests (Legacy.saveToMinIO fileIndexName 0 (init ∅)).1
     = [PutObject (objectKey fileIndexName) emptyDoc]
  /\ store (settle 0 None (Legacy.saveToMinIO fileIndexName 0 (init ∅)).1)
       !! objectKey fileIndexName = Some emptyDoc.
Proof.
  assert (H : saveLocks (init ∅) !! fileIndexName <> Some true)
    by (vm_compute; discriminate).
  destruct (legacy_index_exempt (init ∅) 0) as [_ P].
  destruct (P H) as (_ & P2 & _ & P4).
  split; [exact H|]. split; [reflexivity|]. split; [exact P2|exact P4].
Defined.

(** C10 as stated fails while a save of the file index is in flight: the
    call returns at once and makes no call on the store. *)
Lemma legacy_index_in_flight_counterexample :
  saveLocks legacyInFlightState !! fileIndexName = Some true
  /\ Legacy.saveToMinIO fileIndexName 0 legacyInFlightState
     = (legacyInFlightState, Fulfilled)
  /\ requests (Legacy.saveToMinIO fileIndexName 0 legacyInFlightState).1
     = requests legacyInFlightState.
Proof. split_and!; vm_compute; reflexivity. Qed.

End Claims.

(** * Further properties of the server *)

(** ** Room names *)

Section RoomNames.
Local Open Scope N_scope.

Lemma sextets_padded s k : sextets (s ++ repeat 61 k) = sextets s.
Proof.
  induction s as [|u s IH]; cbn [app sextets].
  - destruct k; reflexivity.
  - rewrite IH. reflexivity.
Qed.

Lemma unbase64_swap u a b :
  unbase64 (a mod 256) = unbase64 (b mod 256) -> a mod 256 <> 61 -> b mod 256 <> 61 ->
  let v := if u =? a then b else u in
  unbase64 (v mod 256) = unbase64 (u mod 256)
  /\ (v mod 256 =? 61) = (u mod 256 =? 61).
Proof.
  intros E Ha Hb. cbv zeta. destruct (N.eqb_spec u a) as [->|]; [|done].
  split; [done|]. destruct (N.eqb_spec (b mod 256) 61), (N.eqb_spec (a mod 256) 61); done.
Qed.

Lemma sextets_replaceAll a b s :
  unbase64 (a mod 256) = unbase64 (b mod 256) -> a mod 256 <> 61 -> b mod 256 <> 61 ->
  sextets (replaceAll a b s) = sextets s.
Proof.
  intros E Ha Hb. induction s as [|u s IH]; [done|].
  cbn [replaceAll map sextets]. fold (replaceAll a b s).
  destruct (unbase64_swap u a b E Ha Hb) as [-> ->]. rewrite IH. reflexivity.
Qed.

(** What [roomToPath] computes, without the two replacements and the
    padding loop, which Node's decoder makes redundant. *)
Lemma roomToPath_direct room :
  roomToPath room = decodeURIComponent (bufferToStringUtf8 (bufferFromBase64 room)).
Proof.
  unfold roomToPath, addPadding, bufferFromBase64.
  destruct (padLoop_repeat 3 (replaceAll 95 47 (replaceAll 45 43 room))) as [k ->].
  rewrite sextets_padded. rewrite !sextets_replaceAll by (vm_compute; done). reflexivity.
Qed.

(** X1.  [roomToPath] reads a room name the same with or without trailing
    [=] padding and in either alphabet: writing [+] for [-], [-] for [+],
    [/] for [_] or [_] for [/] throughout does not change what it returns. *)
Theorem roomToPath_padding_and_alphabet room k :
  roomToPath (room ++ repeat 61 k) = roomToPath room
  /\ roomToPath (replaceAll 45 43 room) = roomToPath room
  /\ roomToPath (replaceAll 43 45 room) = roomToPath room
  /\ roomToPath (replaceAll 95 47 room) = roomToPath room
  /\ roomToPath (replaceAll 47 95 room) = roomToPath room.
Proof.
  rewrite !roomToPath_direct. unfold bufferFromBase64.
  rewrite sextets_padded. rewrite !sextets_replaceAll by (vm_compute; done). done.
Qed.

Lemma sextets_no_digit room :
  Forall (fun u => ~ isBase64Unit u) room -> sextets room = [].
Proof.
  induction 1 as [|u s Hu _ IH]; [done|]. cbn [sextets].
  destruct (unbase64 (u mod 256)) eqn:E; [destruct Hu; by eexists|].
  by destruct (_ =? _).
Qed.

(** *** Object keys *)

Lemma objectKey_startsWith room : startsWith (js "yjs/") (objectKey room) = true.
Proof. reflexivity. Qed.

Lemma objectKey_endsWith room : endsWith (js ".yjs") (objectKey room) = true.
Proof.
  unfold endsWith, objectKey. rewrite !rev_app_distr. reflexivity.
Qed.

Lemma objectKey_slice room : slice_4_m4 (objectKey room) = room.
Proof.
  unfold slice_4_m4, objectKey. rewrite !length_app.
  change (length (js "yjs/")) with 4%nat. change (length (js ".yjs")) with 4%nat.
  replace (4 + (length room + 4) - 4 - 4)%nat with (length room) by lia.
  change (skipn 4 (js "yjs/" ++ room ++ js ".yjs")) with (room ++ js ".yjs").
  apply take_app_length.
Qed.

Lemma listedFile_objectKey room :
  listedFile (objectKey room)
  = if bool_decide (room = fileIndexName) then None
    else match roomToPath room with Normal p => Some p | Throw _ => None end.
Proof.
  unfold listedFile.
  rewrite objectKey_startsWith, objectKey_endsWith, objectKey_slice. reflexivity.
Qed.

(** X2.  A room name without a single base64 digit does not make
    [roomToPath] throw: it decodes to the empty path, and the listing turns
    the object stored under that name into the empty string. *)
Theorem undecodable_names_list_as_empty_path room :
  Forall (fun u => ~ isBase64Unit u) room ->
  roomToPath room = Normal []
  /\ listedFile (objectKey room) = Some [].
Proof.
  intros H.
  assert (E : roomToPath room = Normal []).
  { rewrite roomToPath_direct. unfold bufferFromBase64.
    by rewrite sextets_no_digit. }
  split; [done|]. rewrite listedFile_objectKey, E.
  rewrite bool_decide_eq_false_2; [done|].
  intros ->. apply Forall_cons_1 in H as [H _]. apply H. vm_compute. by eexists.
Qed.

Lemma undecodable_names_list_as_empty_path_witness :
  Forall (fun u => ~ isBase64Unit u) (js "%%%")
  /\ roomToPath (js "%%%") = Normal []
  /\ listedFile (objectKey (js "%%%")) = Some [].
Proof.
  assert (F : Forall (fun u => ~ isBase64Unit u) (js "%%%"))
    by (repeat constructor; intros [v E]; vm_compute in E; discriminate).
  split; [exact F|].
  exact (undecodable_names_list_as_empty_path (js "%%%") F).
Defined.

End RoomNames.

(** ** Lengths through the decoder *)

Section Lengths.

Lemma sextets_length s : length (sextets s) <= length s.
Proof.
  induction s as [|u r IH]; [done|]. cbn [sextets length].
  destruct (unbase64 _); [cbn; lia|]. destruct (_ =? _)%N; cbn; lia.
Qed.

Lemma decodeGroups_length_fuel n l :
  length l <= n -> 4 * length (decodeGroups l) <= 3 * length l.
Proof.
  revert l. induction n as [|n IH]; intros l H.
  - destruct l; cbn in *; lia.
  - destruct l as [|a [|b [|c [|d r]]]]; cbn [decodeGroups length] in *; try lia.
    specialize (IH r). lia.
Qed.

Lemma bufferFromBase64_length s : 4 * length (bufferFromBase64 s) <= 3 * length s.
Proof.
  unfold bufferFromBase64. pose proof (sextets_length s).
  pose proof (decodeGroups_length_fuel _ (sextets s) (le_n _)). lia.
Qed.

Lemma utf16Encode_length cp : length (utf16Encode cp) <= 2.
Proof. unfold utf16Encode. destruct (_ <? _)%N; cbn; lia. Qed.

Lemma utf16Encode_length_bmp cp : (cp < 0x10000)%N -> length (utf16Encode cp) = 1.
Proof. unfold utf16Encode. intros H. apply N.ltb_lt in H. by rewrite H. Qed.

Lemma continuation_bound cp b k :
  (cp < 2 ^ k)%N -> (N.lor (N.shiftl cp 6) (N.land b 0x3F) < 2 ^ (k + 6))%N.
Proof.
  intros H.
  assert (H1 : (N.shiftl cp 6 < 2 ^ (k + 6))%N).
  { rewrite N.shiftl_mul_pow2, N.pow_add_r. apply N.mul_lt_mono_pos_r; [done|exact H]. }
  assert (H2 : (N.land b 0x3F < 2 ^ (k + 6))%N).
  { change 0x3F%N with (N.ones 6). rewrite N.land_ones.
    eapply N.lt_le_trans; [apply N.mod_lt; done|].
    apply N.pow_le_mono_r; lia. }
  destruct (N.eq_dec (N.lor (N.shiftl cp 6) (N.land b 63)) 0%N) as [->|Hnz].
  { apply N.neq_0_lt_0, N.pow_nonzero. done. }
  apply N.log2_lt_pow2; [lia|]. rewrite N.log2_lor.
  apply N.max_lub_lt.
  - destruct (N.eq_dec (N.shiftl cp 6) 0%N) as [->|?]; [cbn; lia|].
    apply N.log2_lt_pow2; [lia|done].
  - destruct (N.eq_dec (N.land b 63) 0%N) as [->|?]; [cbn; lia|].
    apply N.log2_lt_pow2; [lia|done].
Qed.

Lemma leadByte_length b :
  dstateOk (leadByte b).2
  /\ length (flat_map utf16Encode (leadByte b).1) + bytesTaken (leadByte b).2 <= 1.
Proof.
  unfold leadByte. destruct (b <=? 127)%N eqn:E.
  { split; [by left|]. cbn [fst snd flat_map]. rewrite app_nil_r.
    rewrite utf16Encode_length_bmp; [unfold bytesTaken; cbn; lia|]. apply N.leb_le in E. lia. }
  assert (Hand : forall n, (N.land b (N.ones n) < 2 ^ n)%N).
  { intros n. rewrite N.land_ones. apply N.mod_lt. by apply N.pow_nonzero. }
  destruct (inRange 194 223 b).
  { split; [|unfold bytesTaken; cbn; lia]. right; left. split_and!; [done..|].
    cbn [snd code_point]. assert (N.land b 31 < 32)%N by exact (Hand 5%N). lia. }
  destruct (inRange 224 239 b).
  { split; [|unfold bytesTaken; cbn; lia]. right; right; left. split_and!; [done..|].
    cbn [snd code_point]. assert (N.land b 15 < 16)%N by exact (Hand 4%N). lia. }
  destruct (inRange 240 244 b).
  { split; [|unfold bytesTaken; cbn; lia]. right; right; right; right. done. }
  split; [by left|]. cbn. lia.
Qed.

Lemma decodeFrom_length bs st :
  dstateOk st ->
  length (flat_map utf16Encode (decodeFrom st bs)) <= length bs + bytesTaken st.
Proof.
  revert st. induction bs as [|b r IH]; intros st Hok.
  { unfold bytesTaken. cbn [decodeFrom]. destruct (_ =? _)%N; cbn; lia. }
  cbn [decodeFrom length]. unfold bytesTaken.
  destruct (leadByte_length b) as [Hok' Hlen].
  destruct (bytes_needed st =? 0)%N eqn:En.
  { destruct (leadByte b) as [out st']. cbn [fst snd] in *.
    rewrite flat_map_app, length_app. specialize (IH st' Hok'). lia. }
  destruct (negb _).
  { destruct (leadByte b) as [out st']. cbn [fst snd] in *.
    cbn [flat_map]. rewrite flat_map_app, !length_app.
    specialize (IH st' Hok'). cbn. lia. }
  apply N.eqb_neq in En.
  set (cp := N.lor _ _).
  destruct (_ =? bytes_needed st)%N eqn:Es.
  - apply N.eqb_eq in Es. cbn [flat_map]. rewrite length_app.
    specialize (IH dinit (or_introl eq_refl)). unfold bytesTaken in IH. cbn in IH.
    destruct Hok as [?|[(H1 & H2 & H3)|[(H1 & H2 & H3)|[(H1 & H2 & H3)|(H1 & H2)]]]];
      [done| | | |].
    + rewrite utf16Encode_length_bmp; [lia|].
      apply (continuation_bound _ b 10). exact H3.
    + lia.
    + rewrite utf16Encode_length_bmp; [lia|].
      apply (continuation_bound _ b 10). exact H3.
    + pose proof (utf16Encode_length cp). lia.
  - apply N.eqb_neq in Es.
    set (st' := DState _ _ _ _ _).
    assert (Hst' : dstateOk st').
    { destruct Hok as [?|[(H1 & H2 & H3)|[(H1 & H2 & H3)|[(H1 & H2 & H3)|(H1 & H2)]]]];
        [done|lia| |lia|].
      - right; right; right; left. subst st'. cbn. split_and!; [done|lia|].
        apply (continuation_bound _ b 4). exact H3.
      - right; right; right; right. subst st'. cbn. lia. }
    specialize (IH st' Hst'). unfold bytesTaken in IH. subst st'. cbn in IH.
    destruct (bytes_needed st =? 0)%N eqn:E0; [apply N.eqb_eq in E0; done|]. lia.
Qed.

Lemma bufferToStringUtf8_length bs : length (bufferToStringUtf8 bs) <= length bs.
Proof.
  unfold bufferToStringUtf8.
  pose proof (decodeFrom_length bs dinit (or_introl eq_refl)) as H.
  unfold bytesTaken in H. cbn in H. lia.
Qed.

Lemma unescape_length_fuel n s ts :
  length s <= n -> unescape s = Normal ts -> length ts <= length s.
Proof.
  revert s ts. induction n as [|n IH]; intros s ts Hn.
  { destruct s; [|cbn in Hn; lia]. cbn. by intros [= <-]. }
  destruct s as [|c r]; [cbn; by intros [= <-]|]. cbn [unescape].
  destruct (c =? 37)%N.
  - destruct r as [|h [|l r']]; [done..|].
    destruct (hexval h); [|done]. destruct (hexval l); [|done].
    destruct (unescape r') as [ts'|] eqn:E; [|done]. cbn. intros [= <-].
    cbn in *. specialize (IH r' ts'). lia.
  - destruct (unescape r) as [ts'|] eqn:E; [|done]. cbn. intros [= <-].
    cbn in *. specialize (IH r ts'). lia.
Qed.

Lemma emit_length cp rest p n :
  emit cp rest = Normal p ->
  (forall q, rest = Normal q -> length q <= n) -> length p <= 2 + n.
Proof.
  destruct cp as [v|]; [|done]. cbn. destruct rest as [q|]; [|done].
  cbn. intros [= <-] H. rewrite length_app.
  pose proof (utf16Encode_length v). specialize (H q eq_refl). lia.
Qed.

Lemma assemble_length_fuel n ts p :
  length ts <= n -> assemble ts = Normal p -> length p <= length ts.
Proof.
  revert ts p. induction n as [|n IH]; intros ts p Hn.
  { destruct ts; [|cbn in Hn; lia]. cbn. by intros [= <-]. }
  destruct ts as [|[c|b0] r]; [cbn; by intros [= <-]|..]; cbn [assemble].
  - destruct (assemble r) as [q|] eqn:E; [|done]. cbn. intros [= <-].
    cbn in *. specialize (IH r q). lia.
  - destruct (leadingOnes b0) as [|[|[|[|[|?]]]]]; try done.
    + destruct (assemble r) as [q|] eqn:E; [|done]. cbn. intros [= <-].
      cbn in *. specialize (IH r q). lia.
    + destruct r as [|[?|b1] r1]; try done. intros H.
      apply (emit_length _ _ _ (length r1)) in H; [cbn; lia|].
      intros q Hq. apply IH; [cbn in *; lia|done].
    + destruct r as [|[?|b1] [|[?|b2] r2]]; try done. intros H.
      apply (emit_length _ _ _ (length r2)) in H; [cbn; lia|].
      intros q Hq. apply IH; [cbn in *; lia|done].
    + destruct r as [|[?|b1] [|[?|b2] [|[?|b3] r3]]]; try done. intros H.
      apply (emit_length _ _ _ (length r3)) in H; [cbn; lia|].
      intros q Hq. apply IH; [cbn in *; lia|done].
Qed.

Lemma decodeURIComponent_length s p :
  decodeURIComponent s = Normal p -> length p <= length s.
Proof.
  unfold decodeURIComponent. destruct (unescape s) as [ts|] eqn:E; [|done].
  cbn. intros H. apply (assemble_length_fuel _ _ _ (le_n _)) in H.
  apply (unescape_length_fuel _ _ _ (le_n _)) in E. lia.
Qed.

Lemma roomToPath_length room p :
  roomToPath room = Normal p -> 4 * length p <= 3 * length room.
Proof.
  rewrite roomToPath_direct. intros H%decodeURIComponent_length.
  pose proof (bufferToStringUtf8_length (bufferFromBase64 room)).
  pose proof (bufferFromBase64_length room). lia.
Qed.

Lemma minioKey_length key : length (minioKey key) = 8 + length key.
Proof. unfold minioKey. rewrite !length_app, length_map. cbn. lia. Qed.

Lemma objectKey_length docName : length (objectKey docName) = 8 + length docName.
Proof. unfold objectKey. rewrite !length_app. cbn. lia. Qed.

(** X3.  The path that [roomToPath] returns has at most three quarters of
    the code units of the room name.  So for a room name that is not empty
    the key that [validateFileIndex] checks for the path is never the key
    under which [saveToMinIO] stores the room. *)
Theorem path_is_shorter_than_room room p :
  roomToPath room = Normal p ->
  4 * length p <= 3 * length room
  /\ (room <> [] -> minioKey p <> objectKey room).
Proof.
  intros H%roomToPath_length. split; [done|]. intros Hne E.
  apply (f_equal length) in E. rewrite minioKey_length, objectKey_length in E.
  destruct room; [done|]. cbn in *. lia.
Qed.

Lemma path_is_shorter_than_room_witness :
  roomToPath fooRoom = Normal (js "foo.md")
  /\ 4 * length (js "foo.md") <= 3 * length fooRoom
  /\ (fooRoom <> [] -> minioKey (js "foo.md") <> objectKey fooRoom).
Proof.
  assert (P : roomToPath fooRoom = Normal (js "foo.md")) by reflexivity.
  split; [exact P|].
  exact (path_is_shorter_than_room fooRoom (js "foo.md") P).
Defined.

End Lengths.

(** ** Listing, saving and loading *)

Section Listing.

Lemma elem_of_insertKey x k l : x ∈ insertKey k l <-> x = k \/ x ∈ l.
Proof.
  induction l as [|h t IH]; cbn [insertKey].
  - rewrite list_elem_of_singleton, elem_of_nil. tauto.
  - destruct (keyLe k h).
    + by rewrite elem_of_cons.
    + rewrite !elem_of_cons, IH. tauto.
Qed.

Lemma elem_of_sortKeys x l : x ∈ sortKeys l <-> x ∈ l.
Proof.
  unfold sortKeys. induction l as [|h t IH]; cbn [foldr]; [done|].
  by rewrite elem_of_insertKey, elem_of_cons, IH.
Qed.

Lemma elem_of_listObjects bucket prefix key :
  key ∈ listObjects bucket prefix
  <-> is_Some (bucket !! key) /\ startsWith prefix key = true.
Proof.
  unfold listObjects. rewrite list_elem_of_In, filter_In, <- list_elem_of_In.
  rewrite elem_of_sortKeys. split.
  - intros [(kv & -> & Hkv)%list_elem_of_fmap Hp]. split; [|done].
    destruct kv as [k v]. apply elem_of_map_to_list in Hkv. by exists v.
  - intros [[v Hv] Hp]. split; [|done].
    apply list_elem_of_fmap. exists (key, v). split; [done|].
    by apply elem_of_map_to_list.
Qed.

Lemma listedFile_prefix key p :
  listedFile key = Some p -> startsWith (js "yjs/") key = true.
Proof.
  unfold listedFile. destruct (startsWith (js "yjs/") key); [done|]. cbn. done.
Qed.

Lemma elem_of_listedFiles bucket p :
  p ∈ listedFiles bucket
  <-> exists key, is_Some (bucket !! key) /\ listedFile key = Some p.
Proof.
  unfold listedFiles. rewrite list_elem_of_omap. split.
  - intros (key & [Hk _]%elem_of_listObjects & Hp). eauto.
  - intros (key & Hk & Hp). exists key. split; [|done].
    apply elem_of_listObjects. split; [done|]. by eapply listedFile_prefix.
Qed.

Lemma handleRequest_files bucket :
  handleRequest filesRequest bucket None
  = {| status := 200; contentType := Some (js "application/json");
       body := stringifyFiles (listedFiles bucket) |}.
Proof. reflexivity. Qed.

(** What a listed path tells about the key it came from. *)
Lemma listedFile_Some key p :
  listedFile key = Some p ->
  startsWith (js "yjs/") key = true /\ endsWith (js ".yjs") key = true
  /\ slice_4_m4 key <> fileIndexName /\ roomToPath (slice_4_m4 key) = Normal p.
Proof.
  unfold listedFile.
  destruct (startsWith (js "yjs/") key); [|done].
  destruct (endsWith (js ".yjs") key); [|done]. cbn [andb].
  case_bool_decide; [done|].
  destruct (roomToPath (slice_4_m4 key)) as [q|]; [|done].
  intros [= ->]. done.
Qed.

Lemma listedFile_iff key p :
  listedFile key = Some p
  <-> startsWith (js "yjs/") key = true /\ endsWith (js ".yjs") key = true
      /\ slice_4_m4 key <> fileIndexName /\ roomToPath (slice_4_m4 key) = Normal p.
Proof.
  split; [apply listedFile_Some|].
  intros (H1 & H2 & H3 & H4). unfold listedFile. rewrite H1, H2, H4. cbn [andb].
  by rewrite bool_decide_eq_false_2.
Qed.

(** X4.  [GET /files] without a store failure answers 200 with the JSON of
    the listed paths, and a path is listed exactly when the bucket holds a
    key [yjs/<room>.yjs] whose room is not the file index and decodes to
    that path. *)
Theorem files_lists_decoded_keys bucket :
  status (handleRequest filesRequest bucket None) = 200
  /\ body (handleRequest filesRequest bucket None) = stringifyFiles (listedFiles bucket)
  /\ (forall p, p ∈ listedFiles bucket <->
        exists key, is_Some (bucket !! key)
          /\ startsWith (js "yjs/") key = true /\ endsWith (js ".yjs") key = true
          /\ slice_4_m4 key <> fileIndexName
          /\ roomToPath (slice_4_m4 key) = Normal p).
Proof.
  rewrite handleRequest_files. split_and!; try done.
  intros p. rewrite elem_of_listedFiles. by setoid_rewrite listedFile_iff.
Qed.

(** *** A save and what follows it *)

Lemma delete_last {A} (l : list A) x : delete (length l) (l ++ [x]) = l.
Proof.
  rewrite delete_take_drop, take_app_length.
  rewrite drop_ge by (rewrite length_app; cbn; lia). apply app_nil_r.
Qed.

(** [saveToMinIO] is not skipped and its put then settles. *)
Lemma save_then_settle st docName ydoc err :
  saveLocks st !! docName <> Some true ->
  let put := PutObject (objectKey docName) (getDoc st ydoc) in
  let st' := (saveToMinIO docName ydoc st).1 in
  let st'' := settle (length (inflight st)) err st' in
  (saveToMinIO docName ydoc st).2 = Pending
  /\ requests st' = requests st ++ [put]
  /\ store st''
     = match err with
       | None => <[objectKey docName := getDoc st ydoc]> (store st)
       | Some _ => store st
       end
  /\ saveLocks st'' = delete docName (saveLocks st)
  /\ inflight st'' = inflight st /\ requests st'' = requests st ++ [put]
  /\ docs st'' = docs st /\ observers st'' = observers st
  /\ timers st'' = timers st /\ saveTimers st'' = saveTimers st
  /\ nextTimer st'' = nextTimer st /\ clock st'' = clock st.
Proof.
  intros Hfree. cbv zeta. rewrite saveToMinIO_free by done. cbn [fst snd].
  unfold settle, await. cbn [inflight set_inflight set_requests set_saveLocks].
  rewrite lookup_app_r by done. rewrite Nat.sub_diag. cbn [lookup list_lookup].
  split_and!; try done.
  - by destruct err.
  - destruct err; cbn [saveLocks set_saveLocks set_store set_inflight flightDoc];
      apply delete_insert_eq.
  - destruct err; cbn [inflight set_saveLocks set_store set_inflight]; apply delete_last.
  - by destruct err.
  - by destruct err.
  - by destruct err.
  - by destruct err.
  - by destruct err.
  - by destruct err.
  - by destruct err.
Qed.

Lemma free_when_nothing_in_flight st docName :
  reachable st -> savesInFlight docName st = [] ->
  saveLocks st !! docName = None.
Proof.
  intros Hr Hf. apply lock_iff_in_flight; [|done]. apply (Inv_reachable st Hr).
Qed.

(** X5.  After [writeState] of a document whose name decodes to a path, once
    the put has succeeded, [GET /files] lists that path. *)
Theorem saved_document_is_listed st docName ydoc p :
  reachable st -> savesInFlight docName st = [] ->
  docName <> fileIndexName -> roomToPath docName = Normal p ->
  let st'' := settle (length (inflight st)) None (writeState docName ydoc st).1 in
  p ∈ listedFiles (store st'')
  /\ body (handleRequest filesRequest (store st'') None)
     = stringifyFiles (listedFiles (store st'')).
Proof.
  intros Hr Hf Hne Hp. cbv zeta. split; [|by rewrite handleRequest_files].
  pose proof (free_when_nothing_in_flight st docName Hr Hf) as Hlock.
  unfold writeState.
  destruct (save_then_settle st docName ydoc None) as (_ & _ & -> & _);
    [by rewrite Hlock|].
  apply elem_of_listedFiles. exists (objectKey docName). split.
  - rewrite lookup_insert_eq. by eexists.
  - rewrite listedFile_objectKey, Hp. by rewrite bool_decide_eq_false_2.
Qed.

Lemma saved_document_is_listed_witness :
  reachable boundState /\ savesInFlight fooRoom boundState = []
  /\ fooRoom <> fileIndexName /\ roomToPath fooRoom = Normal (js "foo.md")
  /\ js "foo.md"
     ∈ listedFiles (store (settle (length (inflight boundState)) None
                             (writeState fooRoom 0 boundState).1)).
Proof.
  assert (R : reachable boundState) by apply reachable_run.
  assert (F : savesInFlight fooRoom boundState = []) by (vm_compute; reflexivity).
  assert (N : fooRoom <> fileIndexName) by (vm_compute; discriminate).
  assert (P : roomToPath fooRoom = Normal (js "foo.md")) by reflexivity.
  split; [exact R|]. split; [exact F|]. split; [exact N|]. split; [exact P|].
  exact (proj1 (saved_document_is_listed boundState fooRoom 0 (js "foo.md") R F N P)).
Defined.

(** X6.  What [saveToMinIO] has written is what [loadFromMinIO] returns for
    the same name; a failing [getObject] gives [null]; loads of other names
    are not affected. *)
Theorem save_then_load st docName ydoc :
  reachable st -> savesInFlight docName st = [] ->
  let st'' := settle (length (inflight st)) None (writeState docName ydoc st).1 in
  (loadFromMinIO docName None st'').2 = Some (getDoc st ydoc)
  /\ (forall e, (loadFromMinIO docName (Some e) st'').2 = None)
  /\ (forall other, other <> docName ->
        (loadFromMinIO other None st'').2 = (loadFromMinIO other None st).2).
Proof.
  intros Hr Hf. cbv zeta.
  pose proof (free_when_nothing_in_flight st docName Hr Hf) as Hlock.
  unfold writeState, loadFromMinIO, getObject. cbn [snd].
  destruct (save_then_settle st docName ydoc None) as (_ & _ & -> & _);
    [by rewrite Hlock|].
  split_and!.
  - by rewrite lookup_insert_eq.
  - done.
  - intros other Hne. rewrite lookup_insert_ne; [done|].
    intros ?%objectKey_inj. done.
Qed.

Lemma save_then_load_witness :
  reachable boundState /\ savesInFlight fooRoom boundState = []
  /\ (loadFromMinIO fooRoom None
        (settle (length (inflight boundState)) None
           (writeState fooRoom 0 boundState).1)).2
     = Some (getDoc boundState 0).
Proof.
  assert (R : reachable boundState) by apply reachable_run.
  assert (F : savesInFlight fooRoom boundState = []) by (vm_compute; reflexivity).
  split; [exact R|]. split; [exact F|].
  exact (proj1 (save_then_load boundState fooRoom 0 R F)).
Defined.

(** X7.  When the [putObject] of a save is rejected, the bucket is as
    before, the lock of the name is released, and the next [saveToMinIO] for
    the name is not skipped: it puts the snapshot again. *)
Theorem failed_save_can_be_retried st docName ydoc e :
  reachable st -> savesInFlight docName st = [] ->
  let st'' := settle (length (inflight st)) (Some e) (saveToMinIO docName ydoc st).1 in
  store st'' = store st
  /\ saveLocks st'' !! docName = None
  /\ savesInFlight docName st'' = []
  /\ (saveToMinIO docName ydoc st'').2 = Pending
  /\ requests (saveToMinIO docName ydoc st'').1
     = requests st'' ++ [PutObject (objectKey docName) (getDoc st ydoc)].
Proof.
  intros Hr Hf. cbv zeta.
  pose proof (free_when_nothing_in_flight st docName Hr Hf) as Hlock.
  destruct (save_then_settle st docName ydoc (Some e))
    as (_ & _ & E1 & E2 & E3 & _ & E4 & _); [by rewrite Hlock|].
  cbv zeta in *.
  set (st'' := settle _ _ _) in *.
  assert (Hfree : saveLocks st'' !! docName = None) by (rewrite E2; apply lookup_delete_eq).
  split_and!; [done|done| | |].
  - unfold savesInFlight. by rewrite E3.
  - rewrite saveToMinIO_free by (by rewrite Hfree). done.
  - rewrite saveToMinIO_free by (by rewrite Hfree). cbn. unfold getDoc. by rewrite E4.
Qed.

Lemma failed_save_can_be_retried_witness :
  reachable boundState /\ savesInFlight fooRoom boundState = []
  /\ store (settle (length (inflight boundState)) (Some timedOut)
              (saveToMinIO fooRoom 0 boundState).1)
     = store boundState.
Proof.
  assert (R : reachable boundState) by apply reachable_run.
  assert (F : savesInFlight fooRoom boundState = []) by (vm_compute; reflexivity).
  split; [exact R|]. split; [exact F|].
  exact (proj1 (failed_save_can_be_retried boundState fooRoom 0 timedOut R F)).
Defined.

(** X8.  Flushing an unchanged document twice, each put succeeding, leaves
    the bucket as after the first flush; each flush issues its own put. *)
Theorem flush_twice_same_store st docName ydoc :
  reachable st -> savesInFlight docName st = [] ->
  let n := length (inflight st) in
  let st1 := settle n None (writeState docName ydoc st).1 in
  let st2 := settle n None (writeState docName ydoc st1).1 in
  store st2 = store st1
  /\ store st1 !! objectKey docName = Some (getDoc st ydoc)
  /\ putsTo (objectKey docName) st2
     = putsTo (objectKey docName) st
       ++ [PutObject (objectKey docName) (getDoc st ydoc);
           PutObject (objectKey docName) (getDoc st ydoc)].
Proof.
  intros Hr Hf. cbv zeta.
  pose proof (free_when_nothing_in_flight st docName Hr Hf) as Hlock.
  unfold writeState.
  destruct (save_then_settle st docName ydoc None)
    as (_ & _ & E1 & E2 & E3 & E4 & E5 & _); [by rewrite Hlock|].
  cbv zeta in *. set (st1 := settle _ _ (saveToMinIO docName ydoc st).1) in *.
  rewrite <- E3.
  destruct (save_then_settle st1 docName ydoc None)
    as (_ & _ & F1 & _ & _ & F4 & _); [rewrite E2, lookup_delete_eq; done|].
  cbv zeta in *. rewrite F1.
  assert (Hdoc : getDoc st1 ydoc = getDoc st ydoc) by (unfold getDoc; by rewrite E5).
  rewrite Hdoc, E1. split_and!.
  - apply insert_insert_eq.
  - apply lookup_insert_eq.
  - unfold putsTo. rewrite F4, E4, Hdoc, !List.filter_app. cbn.
    rewrite bool_decide_eq_true_2 by done. by rewrite <- app_assoc.
Qed.

Lemma flush_twice_same_store_witness :
  reachable boundState /\ savesInFlight fooRoom boundState = []
  /\ store (settle (length (inflight boundState)) None
              (writeState fooRoom 0
                 (settle (length (inflight boundState)) None
                    (writeState fooRoom 0 boundState).1)).1)
     = store (settle (length (inflight boundState)) None
                (writeState fooRoom 0 boundState).1).
Proof.
  assert (R : reachable boundState) by apply reachable_run.
  assert (F : savesInFlight fooRoom boundState = []) by (vm_compute; reflexivity).
  split; [exact R|]. split; [exact F|].
  exact (proj1 (flush_twice_same_store boundState fooRoom 0 R F)).
Defined.

(** X9.  The completion of a save of one name, with success or with an
    error, changes neither the stored object, nor the lock, nor the saves in
    flight of any other name. *)
Theorem saves_of_other_names_do_not_interfere st docName other i f err :
  reachable st -> inflight st !! i = Some f -> flightDoc f = docName ->
  other <> docName ->
  let st' := settle i err st in
  store st' !! objectKey other = store st !! objectKey other
  /\ saveLocks st' !! other = saveLocks st !! other
  /\ savesInFlight other st' = savesInFlight other st.
Proof.
  intros Hr Hi Hf Hne. cbv zeta.
  pose proof (Inv_reachable st Hr) as [HL _].
  destruct (flight_put st HL f) as [buffer Eb]; [by eapply list_elem_of_lookup_2|].
  unfold settle. rewrite Hi.
  assert (Hfl : savesInFlight other (set_inflight (delete i) st) = savesInFlight other st).
  { unfold savesInFlight. cbn [inflight set_inflight].
    rewrite <- (take_drop_middle _ _ _ Hi) at 2.
    rewrite delete_take_drop, !filter_app, filter_cons_False; [done|].
    rewrite Hf. congruence. }
  destruct err; cbn [store saveLocks set_saveLocks set_store set_inflight].
  - split_and!; [done| |exact Hfl]. rewrite Hf. by apply lookup_delete_ne.
  - split_and!; [| |exact Hfl].
    + rewrite Eb. cbn [applyRequest]. apply lookup_insert_ne.
      rewrite Hf. intros ?%objectKey_inj. done.
    + rewrite Hf. by apply lookup_delete_ne.
Qed.

Lemma saves_of_other_names_do_not_interfere_witness :
  (reachable twoSavesState
   /\ inflight twoSavesState !! 0
      = Some {| flightDoc := fooRoom;
                flightCall := PutObject (objectKey fooRoom) emptyDoc |}
   /\ fileIndexName <> fooRoom)
  /\ (store twoSavesState !! objectKey fileIndexName = Some (draft (js "index"))
      /\ saveLocks twoSavesState !! fileIndexName = Some true
      /\ length (savesInFlight fileIndexName twoSavesState) = 1
      /\ store (settle 0 None twoSavesState) <> store twoSavesState
      /\ saveLocks (settle 0 None twoSavesState) <> saveLocks twoSavesState)
  /\ (store (settle 0 None twoSavesState) !! objectKey fileIndexName
      = store twoSavesState !! objectKey fileIndexName
      /\ saveLocks (settle 0 None twoSavesState) !! fileIndexName
         = saveLocks twoSavesState !! fileIndexName
      /\ savesInFlight fileIndexName (settle 0 None twoSavesState)
         = savesInFlight fileIndexName twoSavesState).
Proof.
  assert (R : reachable twoSavesState) by apply reachable_run.
  assert (I : inflight twoSavesState !! 0
              = Some {| flightDoc := fooRoom;
                        flightCall := PutObject (objectKey fooRoom) emptyDoc |})
    by (vm_compute; reflexivity).
  assert (N : fileIndexName <> fooRoom) by (vm_compute; discriminate).
  split; [split; [exact R|split; [exact I|exact N]]|].
  split.
  - split; [vm_compute; reflexivity|]. split; [vm_compute; reflexivity|].
    split; [vm_compute; reflexivity|]. split; vm_compute; discriminate.
  - exact (saves_of_other_names_do_not_interfere twoSavesState fooRoom
             fileIndexName 0 _ None R I eq_refl N).
Defined.

(** *** The other answers of the handler *)

Lemma handleRequest_status req bucket listFault :
  let res := handleRequest req bucket listFault in
  (status res = 500 <->
     method req = js "GET" /\ pathname req = js "/files" /\ is_Some listFault)
  /\ (status res <> 500 -> status res = 200)
  /\ (forall bucket',
        method req <> js "GET" \/ pathname req <> js "/files" \/ is_Some listFault ->
        handleRequest req bucket' listFault = res).
Proof.
  cbv zeta. unfold handleRequest.
  destruct (bool_decide_reflect (method req = js "OPTIONS")) as [Ho|Ho].
  { split_and!; try done. rewrite Ho. split; [done|]. by intros [? _]. }
  destruct (bool_decide_reflect (pathname req = js "/files")) as [Hp|Hp];
    destruct (bool_decide_reflect (method req = js "GET")) as [Hm|Hm];
    cbn [andb]; try (split_and!; try done; split; [done|]; by intros (? & ? & ?)).
  destruct listFault as [e|]; cbn [status].
  - split_and!; done.
  - split_and!; try done.
    all: first [ by (split; [done|]; intros (_ & _ & [? ?]))
               | by intros bucket' [?|[?|[? ?]]] ].
Qed.

(** X25.  A request that is not [OPTIONS] and whose URL the constructor
    rejects gets no answer at all: [new URL] throws outside every [try].
    Every other request is answered, with 500 exactly when it is [GET] for
    the path [/files] and the listing fails, and with 200 otherwise;
    [OPTIONS] gets 200 with an empty body whatever its URL; and but for a
    listing that succeeds the outcome does not depend on what the bucket
    holds. *)
Theorem handler_status_and_unanswered_requests
    (newURL : jsstring -> jsstring -> option jsstring) req bucket listFault :
  let parsed := newURL (reqUrl req) (urlBase (hostHeader req)) in
  let res := requestListener newURL req bucket listFault in
  (res = None <-> reqMethod req <> js "OPTIONS" /\ parsed = None)
  /\ (forall r, res = Some r ->
        (status r = 500 <->
           reqMethod req = js "GET" /\ parsed = Some (js "/files")
           /\ is_Some listFault)
        /\ (status r <> 500 -> status r = 200))
  /\ (reqMethod req = js "OPTIONS" ->
      res = Some {| status := 200; contentType := None; body := [] |})
  /\ (forall bucket',
        reqMethod req <> js "GET" \/ parsed <> Some (js "/files")
        \/ is_Some listFault ->
        requestListener newURL req bucket' listFault = res).
Proof.
  cbv zeta. unfold requestListener.
  destruct (bool_decide_reflect (reqMethod req = js "OPTIONS")) as [Ho|Ho].
  { split_and!; [|intros r [= <-]; cbn; split|done|done].
    - split; [done|]. by intros [? _].
    - split; [done|]. intros (Hm & _). rewrite Ho in Hm. done.
    - done. }
  destruct (newURL (reqUrl req) (urlBase (hostHeader req))) as [p|].
  2: { split_and!; [done|intros r [=]|done|done]. }
  set (rq := {| method := reqMethod req; pathname := p |}).
  destruct (handleRequest_status rq bucket listFault) as (H1 & H2 & H3).
  cbv zeta in *. split_and!.
  - split; [done|]. by intros [_ [=]].
  - intros r [= <-]. split; [|exact H2]. rewrite H1. subst rq. cbn.
    split; intros (? & ? & ?); split_and!; first [done|congruence].
  - done.
  - intros bucket' Hd. f_equal. apply H3. subst rq. cbn [method pathname].
    destruct Hd as [?|[Hp|?]]; [by left| |by right; right].
    right; left. intros E. apply Hp. by rewrite E.
Qed.

End Listing.

(** ** Binding *)

Section Binding.

Lemma emitUpdate_requests ydoc st : requests (emitUpdate ydoc st) = requests st.
Proof.
  unfold emitUpdate.
  apply (foldl_preserves (fun s => requests s = requests st)); [|done].
  intros s o E. case_decide; [|done].
  by destruct (debouncedSave_frame o.2 ydoc s) as (_ & _ & -> & _).
Qed.

Lemma mutate_frame ydoc d st :
  let st' := mutate ydoc d st in
  store st' = store st /\ saveLocks st' = saveLocks st /\ inflight st' = inflight st
  /\ requests st' = requests st /\ observers st' = observers st
  /\ clock st' = clock st /\ docs st' = <[ydoc := d]> (docs st).
Proof.
  cbv zeta. destruct (calm_mutate ydoc d st) as (E1 & E2 & E3 & E4 & _).
  unfold mutate in *.
  destruct (emitUpdate_frame ydoc (set_docs (insert ydoc d) st)) as [E5 E6].
  split_and!; try done. by rewrite emitUpdate_requests.
Qed.

Lemma emitUpdate_unobserved ydoc st :
  Forall (fun o => o.1 <> ydoc) (observers st) -> emitUpdate ydoc st = st.
Proof.
  unfold emitUpdate. generalize (observers st). intros l H. revert st.
  induction H as [|o l Ho _ IH]; intros st; [done|]. cbn [foldl].
  rewrite decide_False by done. apply IH.
Qed.

Lemma mutate_unobserved ydoc d st :
  Forall (fun o => o.1 <> ydoc) (observers st) ->
  mutate ydoc d st = set_docs (insert ydoc d) st.
Proof. intros H. unfold mutate. by apply emitUpdate_unobserved. Qed.

Lemma doc_eta (d : YDoc) : {| files := files d; content := content d |} = d.
Proof. by destruct d. Qed.

(** The document and the calls after [validateFileIndex(ydoc)]. *)
Lemma validateFileIndexOf_effect ydoc faults st :
  let r := validateFileIndex (store st) faults (files (getDoc st ydoc)) in
  let st' := validateFileIndexOf ydoc faults st in
  getDoc st' ydoc = {| files := filesAfter r; content := content (getDoc st ydoc) |}
  /\ requests st' = requests st ++ ((fun c => StatObject (minioKey c.1)) <$> checks r)
  /\ store st' = store st /\ saveLocks st' = saveLocks st /\ inflight st' = inflight st
  /\ observers st' = observers st /\ clock st' = clock st.
Proof.
  cbv zeta. unfold validateFileIndexOf.
  destruct (validateFileIndex_scan (store st) faults (files (getDoc st ydoc)))
    as (_ & _ & E3 & E4).
  cbv zeta in *. rewrite E4, E3.
  destruct (0 <? length _)%nat; cbn [foldl].
  - set (s1 := set_requests _ st). set (d := {| files := _; content := _ |}).
    destruct (mutate_frame ydoc d s1) as (F1 & F2 & F3 & F4 & F5 & F6 & F7).
    rewrite mutate_getDoc. split_and!; done.
  - split_and!; try done. change (getDoc (set_requests _ st) ydoc) with (getDoc st ydoc).
    symmetry. apply doc_eta.
Qed.

Lemma bindState_summary docName ydoc loadFault merged statFaults st :
  let doc := loadedDoc docName ydoc loadFault merged st in
  let r := validateFileIndex (store st) statFaults (files doc) in
  let st' := bindState docName ydoc loadFault merged statFaults st in
  store st' = store st /\ saveLocks st' = saveLocks st /\ inflight st' = inflight st
  /\ observers st' = observers st ++ [(ydoc, docName)]
  /\ requests st'
     = requests st ++ GetObject (objectKey docName)
         :: (if decide (docName = fileIndexName)
             then (fun c => StatObject (minioKey c.1)) <$> checks r else [])
  /\ getDoc st' ydoc
     = if decide (docName = fileIndexName)
       then {| files := filesAfter r; content := content doc |} else doc.
Proof.
  cbv zeta. unfold bindState, loadedDoc.
  destruct (loadFromMinIO docName loadFault st) as [st1 data] eqn:E.
  assert (E1 : st1 = set_requests (fun l => l ++ [GetObject (objectKey docName)]) st)
    by (unfold loadFromMinIO in E; by injection E as <- _).
  cbn [snd]. subst st1.
  set (st1 := set_requests _ st).
  set (st2 := match data with Some _ => mutate ydoc merged st1 | None => st1 end).
  assert (H2 : store st2 = store st /\ saveLocks st2 = saveLocks st
               /\ inflight st2 = inflight st /\ observers st2 = observers st
               /\ requests st2 = requests st ++ [GetObject (objectKey docName)]
               /\ getDoc st2 ydoc
                  = match data with Some _ => merged | None => getDoc st ydoc end).
  { subst st2. destruct data; [|done].
    destruct (mutate_frame ydoc merged st1) as (F1 & F2 & F3 & F4 & F5 & _).
    rewrite mutate_getDoc. split_and!; done. }
  destruct H2 as (A1 & A2 & A3 & A4 & A5 & A6).
  case_decide.
  - destruct (validateFileIndexOf_effect ydoc statFaults st2) as (B1 & B2 & B3 & B4 & B5 & B6 & _).
    cbv zeta in *. cbn [store saveLocks inflight observers requests set_observers].
    change (getDoc (set_observers ?f ?s) ydoc) with (getDoc s ydoc).
    rewrite B1, B2, B3, B4, B5, B6, A1, A2, A3, A4, A5, A6.
    split_and!; try done. by rewrite <- app_assoc.
  - cbn [store saveLocks inflight observers requests set_observers].
    change (getDoc (set_observers ?f ?s) ydoc) with (getDoc s ydoc).
    rewrite A1, A2, A3, A4, A5, A6. done.
Qed.

(** X10.  [bindState] of a document that has no observer yet arms no timer,
    even when reconciliation deletes entries of it: the observer is
    registered after [validateFileIndex] has run. *)
Theorem bindState_schedules_nothing docName ydoc loadFault merged statFaults st :
  Forall (fun o => o.1 <> ydoc) (observers st) ->
  let st' := bindState docName ydoc loadFault merged statFaults st in
  timers st' = timers st /\ saveTimers st' = saveTimers st
  /\ nextTimer st' = nextTimer st.
Proof.
  intros Hobs. cbv zeta. unfold bindState, loadFromMinIO.
  set (st1 := set_requests _ st).
  set (data := match getObject _ _ _ with Resolved b => Some b | Rejected _ => None end).
  set (st2 := match data with Some _ => mutate ydoc merged st1 | None => st1 end).
  assert (H2 : timers st2 = timers st /\ saveTimers st2 = saveTimers st
               /\ nextTimer st2 = nextTimer st /\ observers st2 = observers st).
  { subst st2. destruct data; [|done]. by rewrite mutate_unobserved. }
  destruct H2 as (A1 & A2 & A3 & A4).
  case_decide; [|done].
  cbn [timers saveTimers nextTimer set_observers]. unfold validateFileIndexOf.
  set (r := validateFileIndex _ _ _). set (st3 := set_requests _ st2).
  assert (H3 : timers st3 = timers st /\ saveTimers st3 = saveTimers st
               /\ nextTimer st3 = nextTimer st /\ observers st3 = observers st) by done.
  clearbody st3. revert st3 H3.
  induction (transactions r) as [|tx txs IH]; intros st3 (B1 & B2 & B3 & B4); [done|].
  cbn [foldl]. apply IH. rewrite mutate_unobserved by (by rewrite B4). done.
Qed.

Lemma bindState_schedules_nothing_witness :
  Forall (fun o => o.1 <> 1) (observers timerPendingState)
  /\ (length (timers timerPendingState) = 1
      /\ transactions (validateFileIndex (store timerPendingState) [] abcIndex)
         = [[js "a"]]
      /\ files (getDoc (bindState fileIndexName 1 None abcDoc [] timerPendingState) 1)
         = {[ js "b" := fileEntry; js "c" := folderEntry ]})
  /\ (timers (bindState fileIndexName 1 None abcDoc [] timerPendingState)
      = timers timerPendingState
      /\ saveTimers (bindState fileIndexName 1 None abcDoc [] timerPendingState)
         = saveTimers timerPendingState
      /\ nextTimer (bindState fileIndexName 1 None abcDoc [] timerPendingState)
         = nextTimer timerPendingState).
Proof.
  assert (F : Forall (fun o => o.1 <> 1) (observers timerPendingState))
    by (repeat constructor; vm_compute; discriminate).
  split; [exact F|]. split.
  - split; [vm_compute; reflexivity|]. split; vm_compute; reflexivity.
  - exact (bindState_schedules_nothing fileIndexName 1 None abcDoc []
             timerPendingState F).
Defined.

End Binding.

(** ** Scheduling *)

Section Scheduling.

(** X12.  In every state the server can reach a name has at most one pending
    timer, it has none exactly when [saveTimers] has no entry for it, and
    every pending timer is the one recorded in [saveTimers] for its name. *)
Theorem one_timer_per_name st docName :
  reachable st ->
  length (timersOf docName st) <= 1
  /\ (saveTimers st !! docName = None <-> timersOf docName st = [])
  /\ (forall t, t ∈ timers st -> saveTimers st !! timerDoc t = Some (timerId t)).
Proof.
  intros Hr. pose proof (Inv_reachable st Hr) as [_ [H1 H2 H3 H4]]. split_and!.
  - by apply filter_key_length.
  - unfold timersOf. rewrite filter_key_nil. split.
    + intros Hn (t & -> & Ht)%list_elem_of_fmap.
      assert (saveTimers st !! timerDoc t = Some (timerId t)) by (apply H4; eauto).
      congruence.
    + intros Hn. destruct (saveTimers st !! docName) as [id|] eqn:E; [|done].
      apply H4 in E as (t & Ht & <- & _). destruct Hn. by apply list_elem_of_fmap_2.
  - intros t Ht. apply H4. eauto.
Qed.

Lemma one_timer_per_name_witness :
  reachable twoTimersState
  /\ (timers twoTimersState
      = [{| timerId := 1; deadline := 3000; timerDoc := fileIndexName; timerYdoc := 1 |};
         {| timerId := 2; deadline := 4000; timerDoc := fooRoom; timerYdoc := 0 |}]
      /\ nextTimer twoTimersState = 3)
  /\ (length (timersOf fooRoom twoTimersState) <= 1
      /\ (saveTimers twoTimersState !! fooRoom = None
          <-> timersOf fooRoom twoTimersState = [])
      /\ (forall t, t ∈ timers twoTimersState ->
            saveTimers twoTimersState !! timerDoc t = Some (timerId t))).
Proof.
  assert (R : reachable twoTimersState) by apply reachable_run.
  split; [exact R|]. split.
  - split; vm_compute; reflexivity.
  - exact (one_timer_per_name twoTimersState fooRoom R).
Defined.

(** X13.  [debouncedSave] for one name neither cancels nor changes the
    pending timer of another name, and leaves exactly one timer for its own
    name, due 3000 ms later. *)
Theorem schedules_are_per_name st docName other ydoc :
  reachable st -> other <> docName ->
  timersOf docName (debouncedSave other ydoc st) = timersOf docName st
  /\ saveTimers (debouncedSave other ydoc st) !! docName = saveTimers st !! docName
  /\ armed other ydoc (clock st + SAVE_DEBOUNCE_MS)%N (debouncedSave other ydoc st).
Proof.
  intros Hr Hne. pose proof (Inv_reachable st Hr) as [_ HT]. split_and!.
  - by apply debouncedSave_timersOf.
  - rewrite debouncedSave_saveTimers. by apply lookup_insert_ne.
  - by apply debouncedSave_armed.
Qed.

Lemma schedules_are_per_name_witness :
  (reachable twoTimersState /\ fileIndexName <> fooRoom)
  /\ (length (timersOf fooRoom twoTimersState) = 1
      /\ saveTimers twoTimersState !! fileIndexName = Some 1
      /\ saveTimers (debouncedSave fileIndexName 1 twoTimersState) !! fileIndexName
         = Some 3
      /\ timers (debouncedSave fileIndexName 1 twoTimersState)
         = [{| timerId := 2; deadline := 4000; timerDoc := fooRoom; timerYdoc := 0 |};
            {| timerId := 3; deadline := 4000; timerDoc := fileIndexName;
               timerYdoc := 1 |}])
  /\ (timersOf fooRoom (debouncedSave fileIndexName 1 twoTimersState)
      = timersOf fooRoom twoTimersState
      /\ saveTimers (debouncedSave fileIndexName 1 twoTimersState) !! fooRoom
         = saveTimers twoTimersState !! fooRoom
      /\ armed fileIndexName 1 (clock twoTimersState + SAVE_DEBOUNCE_MS)%N
           (debouncedSave fileIndexName 1 twoTimersState)).
Proof.
  assert (R : reachable twoTimersState) by apply reachable_run.
  assert (N : fileIndexName <> fooRoom) by (vm_compute; discriminate).
  split; [split; [exact R|exact N]|]. split.
  - split; [vm_compute; reflexivity|]. split; [vm_compute; reflexivity|].
    split; vm_compute; reflexivity.
  - exact (schedules_are_per_name twoTimersState fooRoom fileIndexName 1 R N).
Defined.

(** *** A burst of updates *)

Lemma quiet_update D ydoc d dt st base :
  Inv st -> (ydoc, D) ∈ observers st -> saveLocks st !! D = None ->
  armed D ydoc (clock st + SAVE_DEBOUNCE_MS)%N st ->
  putsTo (objectKey D) st = base -> (dt < SAVE_DEBOUNCE_MS)%N ->
  let st' := mutate ydoc d (elapse dt st) in
  Inv st' /\ (ydoc, D) ∈ observers st' /\ saveLocks st' !! D = None
  /\ armed D ydoc (clock st' + SAVE_DEBOUNCE_MS)%N st'
  /\ putsTo (objectKey D) st' = base /\ getDoc st' ydoc = d.
Proof.
  intros HI Hobs Hfree (t & Ht & Hd & Hy) Hbase Hdt. cbv zeta.
  destruct (elapse_not_due D dt st HI) as (B1 & B2 & B3 & B4 & B5 & B6 & B7).
  { intros u Hu. rewrite Ht in Hu. apply list_elem_of_singleton in Hu as ->.
    rewrite Hd. lia. }
  assert (Hobs1 : (ydoc, D) ∈ observers (elapse dt st)) by (by rewrite B5).
  destruct (mutate_armed D ydoc d (elapse dt st) B7 Hobs1)
    as (C1 & C2 & C3 & (C4 & _ & _ & C5 & C6 & _) & C7).
  split_and!; try done.
  - by rewrite C3.
  - by rewrite C4, B1.
  - by rewrite C5.
  - by rewrite C6, B2.
Qed.

Lemma burst_quiet D ydoc updates d st base :
  Inv st -> (ydoc, D) ∈ observers st -> saveLocks st !! D = None ->
  armed D ydoc (clock st + SAVE_DEBOUNCE_MS)%N st ->
  putsTo (objectKey D) st = base -> getDoc st ydoc = d ->
  Forall (fun u => (u.1 < SAVE_DEBOUNCE_MS)%N) updates ->
  let st' := burst ydoc updates st in
  Inv st' /\ saveLocks st' !! D = None
  /\ armed D ydoc (clock st' + SAVE_DEBOUNCE_MS)%N st'
  /\ putsTo (objectKey D) st' = base
  /\ getDoc st' ydoc = default d (last updates.*2).
Proof.
  intros HI Hobs Hfree Harm Hbase Hdoc Hall. cbv zeta. unfold burst.
  revert st d HI Hobs Hfree Harm Hbase Hdoc.
  induction Hall as [|[dt d'] l Hdt _ IH]; intros st d HI Hobs Hfree Harm Hbase Hdoc.
  - cbn. done.
  - cbn [foldl fst snd].
    destruct (quiet_update D ydoc d' dt st base HI Hobs Hfree Harm Hbase Hdt)
      as (A1 & A2 & A3 & A4 & A5 & A6).
    destruct (IH _ d' A1 A2 A3 A4 A5 A6) as (B1 & B2 & B3 & B4 & B5).
    split_and!; try done. rewrite B5. rewrite fmap_cons. cbn [snd].
    destruct l as [|u l]; [done|]. rewrite fmap_cons, last_cons_cons.
    destruct (last (u.2 :: l.*2)) eqn:E; [done|]. by apply last_None in E.
Qed.

(** X14.  A burst of updates of a bound document, each less than 3000 ms
    after the one before, writes nothing while it lasts; 3000 ms of quiet
    after it give exactly one put, of the state after the last update, and
    leave no timer for the name. *)
Theorem burst_of_updates_one_write st docName ydoc d0 updates :
  reachable st -> (ydoc, docName) ∈ observers st ->
  savesInFlight docName st = [] ->
  Forall (fun u => (u.1 < SAVE_DEBOUNCE_MS)%N) updates ->
  let st1 := burst ydoc updates (mutate ydoc d0 st) in
  let st2 := elapse SAVE_DEBOUNCE_MS st1 in
  putsTo (objectKey docName) st1 = putsTo (objectKey docName) st
  /\ putsTo (objectKey docName) st2
     = putsTo (objectKey docName) st
       ++ [PutObject (objectKey docName) (default d0 (last updates.*2))]
  /\ timersOf docName st2 = [].
Proof.
  intros Hr Hobs Hf Hall. cbv zeta.
  pose proof (Inv_reachable st Hr) as HI.
  pose proof (free_when_nothing_in_flight st docName Hr Hf) as Hfree.
  destruct (mutate_armed docName ydoc d0 st HI Hobs)
    as (A1 & A2 & A3 & (A4 & _ & _ & A5 & A6 & _) & A7).
  destruct (burst_quiet docName ydoc updates d0 (mutate ydoc d0 st)
              (putsTo (objectKey docName) st))
    as (B1 & B2 & (t & Ht & Hd & Hy) & B4 & B5); try done.
  - by rewrite A3.
  - by rewrite A4.
  - by rewrite A5.
  - destruct (elapse_due docName t SAVE_DEBOUNCE_MS _ B1 Ht) as (C1 & C2 & _);
      [rewrite Hd; lia|done|].
    split_and!; [done| |done]. by rewrite C1, Hy, B5, B4.
Qed.

Lemma burst_of_updates_one_write_witness :
  reachable boundState /\ (0, fooRoom) ∈ observers boundState
  /\ savesInFlight fooRoom boundState = []
  /\ Forall (fun u => (u.1 < SAVE_DEBOUNCE_MS)%N)
       [(1000%N, draft (js "b")); (2999%N, draft (js "c"))]
  /\ putsTo (objectKey fooRoom)
       (elapse SAVE_DEBOUNCE_MS
          (burst 0 [(1000%N, draft (js "b")); (2999%N, draft (js "c"))]
             (mutate 0 (draft (js "a")) boundState)))
     = putsTo (objectKey fooRoom) boundState
       ++ [PutObject (objectKey fooRoom) (draft (js "c"))].
Proof.
  assert (R : reachable boundState) by apply reachable_run.
  assert (O : (0, fooRoom) ∈ observers boundState) by (vm_compute; left).
  assert (F : savesInFlight fooRoom boundState = []) by (vm_compute; reflexivity).
  assert (U : Forall (fun u => (u.1 < SAVE_DEBOUNCE_MS)%N)
                [(1000%N, draft (js "b")); (2999%N, draft (js "c"))])
    by (repeat constructor).
  split; [exact R|]. split; [exact O|]. split; [exact F|]. split; [exact U|].
  exact (proj1 (proj2 (burst_of_updates_one_write boundState fooRoom 0
                         (draft (js "a")) _ R O F U))).
Defined.

(** X15.  Binding a document, updating it once and waiting 3000 ms gives
    exactly one put of the updated state under the document's key. *)
Theorem bound_document_is_saved st docName ydoc loadFault merged statFaults d :
  reachable st -> savesInFlight docName st = [] ->
  let st1 := bindState docName ydoc loadFault merged statFaults st in
  let st2 := elapse SAVE_DEBOUNCE_MS (mutate ydoc d st1) in
  putsTo (objectKey docName) st2
  = putsTo (objectKey docName) st ++ [PutObject (objectKey docName) d]
  /\ timersOf docName st2 = [].
Proof.
  intros Hr Hf. cbv zeta.
  pose proof (Inv_reachable st Hr) as HI.
  pose proof (free_when_nothing_in_flight st docName Hr Hf) as Hfree.
  set (st1 := bindState docName ydoc loadFault merged statFaults st).
  assert (H1 : Inv st1)
    by apply (Inv_step st (EvBindState docName ydoc loadFault merged statFaults) HI).
  destruct (bindState_summary docName ydoc loadFault merged statFaults st)
    as (_ & E2 & _ & E4 & _).
  destruct (calm_bindState docName ydoc loadFault merged statFaults st)
    as (_ & _ & _ & _ & E5 & _).
  cbv zeta in *. fold st1 in E2, E4, E5.
  assert (Hobs : (ydoc, docName) ∈ observers st1)
    by (rewrite E4; apply elem_of_app; right; by left).
  destruct (mutate_armed docName ydoc d st1 H1 Hobs)
    as ((t & Ht & Hd & Hy) & A2 & A3 & (A4 & _ & _ & A5 & A6 & _) & A7).
  destruct (elapse_due docName t SAVE_DEBOUNCE_MS _ A7 Ht) as (C1 & C2 & _);
    [rewrite Hd, A5; lia|by rewrite A4, E2|].
  split; [|done]. by rewrite C1, Hy, A2, A6, E5.
Qed.

Lemma bound_document_is_saved_witness :
  reachable (init ∅) /\ savesInFlight fooRoom (init ∅) = []
  /\ putsTo (objectKey fooRoom)
       (elapse SAVE_DEBOUNCE_MS
          (mutate 0 (draft (js "x")) (bindState fooRoom 0 None emptyDoc [] (init ∅))))
     = putsTo (objectKey fooRoom) (init ∅)
       ++ [PutObject (objectKey fooRoom) (draft (js "x"))].
Proof.
  assert (R : reachable (init ∅)) by apply (reachable_run ∅ []).
  assert (F : savesInFlight fooRoom (init ∅) = []) by reflexivity.
  split; [exact R|]. split; [exact F|].
  exact (proj1 (bound_document_is_saved (init ∅) fooRoom 0 None emptyDoc []
                  (draft (js "x")) R F)).
Defined.

(** *** The calls the server makes *)

Lemma saveToMinIO_requests docName ydoc st :
  requests (saveToMinIO docName ydoc st).1 = requests st
  \/ requests (saveToMinIO docName ydoc st).1
     = requests st ++ [PutObject (objectKey docName) (getDoc st ydoc)].
Proof.
  unfold saveToMinIO. destruct (saveLocks st !! docName) as [[]|]; [by left|by right..].
Qed.

Lemma serverCall_step st e :
  Forall serverCall (requests st) -> Forall serverCall (requests (step st e)).
Proof.
  intros H.
  destruct e as [ydoc d|dt|id|i err|docName ydoc|docName ydoc lf m sf]; cbn [step].
  - by destruct (mutate_frame ydoc d st) as (_ & _ & _ & -> & _).
  - done.
  - destruct (fire_cases id st) as [->|(t & _ & _ & _ & ->)]; [done|].
    unfold timerCallback. cbn [requests set_saveTimers].
    destruct (saveToMinIO_requests (timerDoc t) (timerYdoc t) (clearTimeout id st))
      as [->| ->]; [done|].
    apply Forall_app. split; [done|]. repeat constructor. by eexists.
  - unfold settle. destruct (inflight st !! i); [|done]. by destruct err.
  - unfold writeState.
    destruct (saveToMinIO_requests docName ydoc st) as [->| ->]; [done|].
    apply Forall_app. split; [done|]. repeat constructor. by eexists.
  - destruct (bindState_summary docName ydoc lf m sf st) as (_ & _ & _ & _ & -> & _).
    apply Forall_app. split; [done|]. constructor; [by eexists|].
    case_decide; [|constructor]. apply Forall_fmap, Forall_forall.
    intros c _. cbn. by eexists.
Qed.

(** X16.  Over every run of updates, timers, settled calls, [writeState] and
    [bindState], the calls made on the store are [getObject] and [putObject]
    on keys [yjs/<name>.yjs] and [statObject] on sanitised keys;
    [removeObject] is never called. *)
Theorem server_calls_only_read_and_put st :
  reachable st ->
  Forall serverCall (requests st)
  /\ (forall key, RemoveObject key ∉ requests st)
  /\ (forall key buffer, PutObject key buffer ∈ requests st ->
        startsWith (js "yjs/") key = true /\ endsWith (js ".yjs") key = true).
Proof.
  intros (bucket & evs & ->).
  assert (H : Forall serverCall (requests (run (init bucket) evs))).
  { unfold run. apply (foldl_preserves (fun s => Forall serverCall (requests s))).
    - intros s e. apply serverCall_step.
    - constructor. }
  rewrite Forall_forall in H. split_and!.
  - by apply Forall_forall.
  - intros key Hin. exact (H _ Hin).
  - intros key buffer Hin. destruct (H _ Hin) as [docName ->].
    split; [apply objectKey_startsWith|apply objectKey_endsWith].
Qed.

Lemma server_calls_only_read_and_put_witness :
  reachable boundInFlightState
  /\ Forall serverCall (requests boundInFlightState).
Proof.
  assert (R : reachable boundInFlightState) by apply reachable_run.
  split; [exact R|].
  exact (proj1 (server_calls_only_read_and_put boundInFlightState R)).
Defined.

End Scheduling.

(** ** Reconciliation and the earlier variant *)

Section Reconciling.

Lemma lookup_foldl_delete_in {V} (m : gmap jsstring V) (l : list jsstring) key :
  key ∈ l -> foldl (fun m k => delete k m) m l !! key = None.
Proof.
  revert m. induction l as [|k l IH]; intros m Hk; [by apply elem_of_nil in Hk|].
  cbn [foldl]. destruct (decide (key ∈ l)) as [Hin|Hout]; [by apply IH|].
  apply elem_of_cons in Hk as [->|?]; [|done].
  rewrite lookup_foldl_delete by done. apply lookup_delete_eq.
Qed.

Lemma filesAfter_lookup bucket faults fileIndex key :
  let r := validateFileIndex bucket faults fileIndex in
  filesAfter r !! key
  = if decide (key ∈ keysToDelete r) then None else fileIndex !! key.
Proof.
  cbv zeta.
  destruct (validateFileIndex_scan bucket faults fileIndex) as (_ & _ & E3 & E4).
  cbv zeta in *. case_decide as Hk.
  - rewrite E4, E3. destruct (keysToDelete _) as [|k l] eqn:E.
    + by apply elem_of_nil in Hk.
    + rewrite <- E3. destruct (validateFileIndex_scan bucket faults fileIndex) as (_ & E2 & _).
      cbv zeta in E2. rewrite E3, <- E2, E. cbn. by apply (lookup_foldl_delete_in _ (k :: l)).
  - by apply validateFileIndex_keeps.
Qed.

Lemma keysToDelete_iff bucket faults fileIndex key :
  let r := validateFileIndex bucket faults fileIndex in
  key ∈ keysToDelete r <-> exists res, (key, res) ∈ checks r /\ isNotFound res = true.
Proof.
  cbv zeta. split; [apply keysToDelete_checked|].
  destruct (validateFileIndex_scan bucket faults fileIndex) as (E1 & E2 & _).
  cbv zeta in *. rewrite E2, E1, scanKeys_keysToDelete.
  intros (res & Hin & Hnf). apply list_elem_of_fmap. exists (key, res).
  split; [done|]. by apply list_elem_of_filter.
Qed.

Lemma scanKeys_no_faults bucket fileIndex allKeys :
  (scanKeys bucket fileIndex allKeys []).1
  = (fun key => (key, statObject bucket None (minioKey key)))
      <$> filter (fun key => isFolder (fileIndex !! key) = false) allKeys.
Proof.
  induction allKeys as [|key rest IH]; [done|].
  cbn [scanKeys head tail default]. rewrite filter_cons.
  destruct (isFolder (fileIndex !! key)) eqn:E.
  - by rewrite decide_False.
  - rewrite decide_True by done.
    destruct (scanKeys bucket fileIndex rest []) as [c d]. cbn [fst] in *.
    by rewrite fmap_cons, IH.
Qed.

Lemma isNotFound_statObject bucket key :
  isNotFound (statObject bucket None key) = true <-> bucket !! key = None.
Proof.
  unfold statObject. destruct (bucket !! key); cbn; [done|].
  by rewrite bool_decide_eq_true_2.
Qed.

(** Without transient faults, the collected keys are the entries that are
    not folders and whose sanitised object is missing. *)
Lemma keysToDelete_no_faults bucket fileIndex key :
  key ∈ keysToDelete (validateFileIndex bucket [] fileIndex)
  <-> is_Some (fileIndex !! key) /\ isFolder (fileIndex !! key) = false
      /\ bucket !! minioKey key = None.
Proof.
  rewrite keysToDelete_iff.
  destruct (validateFileIndex_scan bucket [] fileIndex) as (E1 & _).
  cbv zeta in *. rewrite E1, scanKeys_no_faults. split.
  - intros (res & (k & [= <- ->] & [Hf Hk]%list_elem_of_filter)%list_elem_of_fmap & Hnf).
    split_and!; [|done|by apply isNotFound_statObject].
    apply list_elem_of_fmap in Hk as ([k' m] & -> & Hm).
    apply elem_of_map_to_list in Hm. by exists m.
  - intros ([m Hm] & Hf & Hb). eexists. split; [|by apply isNotFound_statObject].
    apply list_elem_of_fmap. exists key. split; [done|].
    apply list_elem_of_filter. split; [done|].
    apply list_elem_of_fmap. exists (key, m). split; [done|].
    by apply elem_of_map_to_list.
Qed.

(** X17.  Reconciliation only deletes: an entry is removed exactly when it
    was collected, it was collected exactly when its own [statObject] call
    was rejected with [NotFound], every other entry keeps its value, and at
    most one transaction is made. *)
Theorem reconciliation_only_deletes bucket faults fileIndex :
  let r := validateFileIndex bucket faults fileIndex in
  (forall key, filesAfter r !! key
               = if decide (key ∈ keysToDelete r) then None else fileIndex !! key)
  /\ (forall key, key ∈ keysToDelete r <->
        exists res, (key, res) ∈ checks r /\ isNotFound res = true)
  /\ filesAfter r ⊆ fileIndex
  /\ length (transactions r) <= 1.
Proof.
  cbv zeta. split_and!.
  - intros key. apply filesAfter_lookup.
  - intros key. apply keysToDelete_iff.
  - apply map_subseteq_spec. intros key m. rewrite filesAfter_lookup.
    by case_decide.
  - destruct (validateFileIndex_scan bucket faults fileIndex) as (_ & _ & -> & _).
    destruct (_ <? _)%nat; cbn; lia.
Qed.

(** X18.  When no [statObject] call fails for a reason of its own, the
    entries deleted are exactly those that are not folders and have no
    object under their sanitised key, and the entries that remain are the
    folders and the entries whose object exists. *)
Theorem reconciliation_without_faults bucket fileIndex key :
  let r := validateFileIndex bucket [] fileIndex in
  (key ∈ keysToDelete r <->
     is_Some (fileIndex !! key) /\ isFolder (fileIndex !! key) = false
     /\ bucket !! minioKey key = None)
  /\ (is_Some (filesAfter r !! key) <->
        is_Some (fileIndex !! key)
        /\ (isFolder (fileIndex !! key) = true \/ is_Some (bucket !! minioKey key))).
Proof.
  cbv zeta. split; [apply keysToDelete_no_faults|].
  rewrite filesAfter_lookup. case_decide as Hk.
  - apply keysToDelete_no_faults in Hk as (Hs & Hf & Hb). split.
    + intros [? ?]. done.
    + intros [_ [?|[? ?]]]; congruence.
  - split; [|tauto]. intros Hs. split; [done|].
    destruct (isFolder (fileIndex !! key)) eqn:Hf; [by left|right].
    destruct (bucket !! minioKey key) eqn:Hb; [by eexists|].
    destruct Hk. by apply keysToDelete_no_faults.
Qed.

Lemma nothing_missing_nothing_deleted bucket fileIndex :
  (forall key, is_Some (fileIndex !! key) -> isFolder (fileIndex !! key) = false ->
               is_Some (bucket !! minioKey key)) ->
  let r := validateFileIndex bucket [] fileIndex in
  keysToDelete r = [] /\ transactions r = [] /\ filesAfter r = fileIndex.
Proof.
  intros Hall. cbv zeta.
  assert (E : keysToDelete (validateFileIndex bucket [] fileIndex) = []).
  { destruct (keysToDelete _) as [|k l] eqn:E; [done|]. exfalso.
    assert (Hk : k ∈ keysToDelete (validateFileIndex bucket [] fileIndex))
      by (rewrite E; by left).
    apply keysToDelete_no_faults in Hk as (Hs & Hf & Hb).
    destruct (Hall k Hs Hf) as [? ?]. congruence. }
  destruct (validateFileIndex_scan bucket [] fileIndex) as (_ & E2 & E3 & E4).
  cbv zeta in *. rewrite E4, E3, <- E2, E. done.
Qed.

(** X19.  Reconciling the reconciled index again, against the same bucket
    and without transient errors, deletes nothing and makes no transaction. *)
Theorem reconciliation_is_idempotent bucket fileIndex :
  let r := validateFileIndex bucket [] fileIndex in
  let r' := validateFileIndex bucket [] (filesAfter r) in
  keysToDelete r' = [] /\ transactions r' = [] /\ filesAfter r' = filesAfter r.
Proof.
  cbv zeta. apply nothing_missing_nothing_deleted. intros key Hs Hf.
  rewrite filesAfter_lookup in Hs, Hf. case_decide as Hk.
  - by destruct Hs.
  - destruct (bucket !! minioKey key) eqn:Hb; [by eexists|].
    destruct Hk. by apply keysToDelete_no_faults.
Qed.

(** *** Binding the file index *)

Lemma filesAfter_no_faults bucket fileIndex key :
  is_Some (filesAfter (validateFileIndex bucket [] fileIndex) !! key)
  <-> is_Some (fileIndex !! key)
      /\ (isFolder (fileIndex !! key) = true \/ is_Some (bucket !! minioKey key)).
Proof.
  rewrite filesAfter_lookup. case_decide as Hk.
  - apply keysToDelete_no_faults in Hk as (Hs & Hf & Hb). split.
    + intros [? ?]. done.
    + intros [_ [?|[? ?]]]; congruence.
  - split; [|tauto]. intros Hs. split; [done|].
    destruct (isFolder (fileIndex !! key)) eqn:Hf; [by left|right].
    destruct (bucket !! minioKey key) eqn:Hb; [by eexists|].
    destruct Hk. by apply keysToDelete_no_faults.
Qed.

(** X11.  What [bindState] does as a whole: it never writes to the bucket
    or touches a lock; it registers one observer; it issues one
    [getObject] for the name, followed for the file index by one
    [statObject] per entry that is not a folder (in the order in which the
    keys are walked, which is not stated); a document other than the file
    index ends as the loaded state; the file index keeps its text, loses
    entries only, keeps every folder, and when no [statObject] call fails
    for a reason of its own keeps exactly the folders and the entries
    whose object exists. *)
Theorem bindState_effect docName ydoc loadFault merged statFaults st :
  let doc := loadedDoc docName ydoc loadFault merged st in
  let st' := bindState docName ydoc loadFault merged statFaults st in
  store st' = store st /\ saveLocks st' = saveLocks st /\ inflight st' = inflight st
  /\ observers st' = observers st ++ [(ydoc, docName)]
  /\ (exists stats,
        requests st' = requests st ++ GetObject (objectKey docName) :: stats
        /\ stats ≡ₚ
             if decide (docName = fileIndexName)
             then (fun key => StatObject (minioKey key))
                    <$> filter (fun key => isFolder (files doc !! key) = false)
                               (map_to_list (files doc)).*1
             else [])
  /\ (docName <> fileIndexName -> getDoc st' ydoc = doc)
  /\ (docName = fileIndexName ->
      content (getDoc st' ydoc) = content doc
      /\ files (getDoc st' ydoc) ⊆ files doc
      /\ (forall key, isFolder (files doc !! key) = true ->
            files (getDoc st' ydoc) !! key = files doc !! key)
      /\ (statFaults = [] -> forall key,
            is_Some (files (getDoc st' ydoc) !! key)
            <-> is_Some (files doc !! key)
                /\ (isFolder (files doc !! key) = true
                    \/ is_Some (store st !! minioKey key)))).
Proof.
  cbv zeta.
  destruct (bindState_summary docName ydoc loadFault merged statFaults st)
    as (A1 & A2 & A3 & A4 & A5 & A6).
  cbv zeta in *. set (doc := loadedDoc docName ydoc loadFault merged st) in *.
  split_and!; try done.
  - eexists. split; [exact A5|]. case_decide; [|done].
    destruct (validateFileIndex_scan (store st) statFaults (files doc)) as (E1 & _).
    cbv zeta in E1.
    rewrite <- (scanKeys_checks (store st) (files doc) _ statFaults), <- E1.
    by rewrite <- list_fmap_compose.
  - intros Hne. by rewrite A6, decide_False.
  - intros He. rewrite A6, decide_True by done. cbn [files content].
    clear A5 A6. split_and!; [done| | |].
    + apply map_subseteq_spec. intros key m. rewrite filesAfter_lookup.
      by case_decide.
    + intros key Hf. by apply folders_untouched.
    + intros -> key.
      apply filesAfter_no_faults.
Qed.

(** *** Sanitised keys and object keys *)

Lemma sanitizeChar_base64url c : isBase64urlChar c = true -> sanitizeChar c = c.
Proof.
  unfold isBase64urlChar, sanitizeChar. intros H.
  destruct (inRange 97 122 c), (inRange 65 90 c), (inRange 48 57 c),
    (c =? 46)%N, (c =? 95)%N, (c =? 45)%N; cbn in *; done.
Qed.

Lemma minioKey_objectKey key :
  minioKey key = objectKey key <-> Forall (fun c => sanitizeChar c = c) key.
Proof.
  unfold minioKey, objectKey. split.
  - intros H. apply app_inv_head, app_inv_tail in H.
    induction key as [|c key IH]; [constructor|].
    cbn in H. injection H as Hc Hk. constructor; [done|by apply IH].
  - intros H. do 2 f_equal. induction H as [|c key Hc _ IH]; [done|].
    cbn. by rewrite Hc, IH.
Qed.

(** X20.  For a name made of base64url characters only, the sanitised key is
    the object key, so an index entry under that name survives a
    reconciliation that follows a successful save of the name. *)
Theorem saved_room_survives_reconciliation st docName ydoc fileIndex :
  reachable st -> savesInFlight docName st = [] ->
  Forall (fun c => isBase64urlChar c = true) docName ->
  let st'' := settle (length (inflight st)) None (writeState docName ydoc st).1 in
  let r := validateFileIndex (store st'') [] fileIndex in
  minioKey docName = objectKey docName
  /\ (docName ∉ keysToDelete r)
  /\ filesAfter r !! docName = fileIndex !! docName.
Proof.
  intros Hr Hf Hchars. cbv zeta.
  pose proof (free_when_nothing_in_flight st docName Hr Hf) as Hlock.
  assert (Hkey : minioKey docName = objectKey docName).
  { apply minioKey_objectKey. eapply Forall_impl; [exact Hchars|].
    intros c. apply sanitizeChar_base64url. }
  unfold writeState.
  destruct (save_then_settle st docName ydoc None) as (_ & _ & -> & _);
    [by rewrite Hlock|].
  assert (Hk : docName ∉ keysToDelete
            (validateFileIndex (<[objectKey docName:=getDoc st ydoc]> (store st)) [] fileIndex)).
  { intros (_ & _ & Hb)%keysToDelete_no_faults.
    rewrite Hkey, lookup_insert_eq in Hb. done. }
  split_and!; [done|done|]. rewrite filesAfter_lookup. by rewrite decide_False.
Qed.

Lemma saved_room_survives_reconciliation_witness :
  reachable boundState /\ savesInFlight fooRoom boundState = []
  /\ Forall (fun c => isBase64urlChar c = true) fooRoom
  /\ fooRoom ∉ keysToDelete
       (validateFileIndex
          (store (settle (length (inflight boundState)) None
                    (writeState fooRoom 0 boundState).1))
          [] {[ fooRoom := fileEntry ]}).
Proof.
  assert (R : reachable boundState) by apply reachable_run.
  assert (F : savesInFlight fooRoom boundState = []) by (vm_compute; reflexivity).
  assert (A : Forall (fun c => isBase64urlChar c = true) fooRoom)
    by (repeat constructor).
  split; [exact R|]. split; [exact F|]. split; [exact A|].
  exact (proj1 (proj2 (saved_room_survives_reconciliation boundState fooRoom 0
                         {[ fooRoom := fileEntry ]} R F A))).
Defined.

Lemma entry_dropped_after_save st docName ydoc fileIndex key :
  reachable st -> savesInFlight docName st = [] ->
  minioKey key <> objectKey docName ->
  is_Some (fileIndex !! key) -> isFolder (fileIndex !! key) = false ->
  store st !! minioKey key = None ->
  let st'' := settle (length (inflight st)) None (writeState docName ydoc st).1 in
  let r := validateFileIndex (store st'') [] fileIndex in
  is_Some (store st'' !! objectKey docName)
  /\ key ∈ keysToDelete r
  /\ filesAfter r !! key = None.
Proof.
  intros Hr Hf Hkey Hs Hnf Hmiss. cbv zeta.
  pose proof (free_when_nothing_in_flight st docName Hr Hf) as Hlock.
  unfold writeState.
  destruct (save_then_settle st docName ydoc None) as (_ & _ & -> & _);
    [by rewrite Hlock|].
  assert (Hk : key ∈ keysToDelete
            (validateFileIndex (<[objectKey docName:=getDoc st ydoc]> (store st)) [] fileIndex)).
  { apply keysToDelete_no_faults. split_and!; [done..|].
    by rewrite lookup_insert_ne. }
  split_and!; [rewrite lookup_insert_eq; by eexists|done|].
  rewrite filesAfter_lookup. by rewrite decide_True.
Qed.

(** X21.  For a name with a character outside [[a-zA-Z0-9._-]] the sanitised
    key differs from the object key: an index entry under that name is
    removed by reconciliation although the document has just been saved,
    unless some object happens to sit at the sanitised key. *)
Theorem unsanitary_entry_is_dropped st docName ydoc fileIndex :
  reachable st -> savesInFlight docName st = [] ->
  Exists (fun c => sanitizeChar c <> c) docName ->
  is_Some (fileIndex !! docName) -> isFolder (fileIndex !! docName) = false ->
  store st !! minioKey docName = None ->
  let st'' := settle (length (inflight st)) None (writeState docName ydoc st).1 in
  let r := validateFileIndex (store st'') [] fileIndex in
  is_Some (store st'' !! objectKey docName)
  /\ docName ∈ keysToDelete r
  /\ filesAfter r !! docName = None.
Proof.
  intros Hr Hf Hex Hs Hnf Hmiss. apply entry_dropped_after_save; try done.
  intros E%minioKey_objectKey. apply Exists_exists in Hex as (c & Hc & Hne).
  rewrite Forall_forall in E. by apply Hne, E.
Qed.

Lemma unsanitary_entry_is_dropped_witness :
  reachable boundState /\ savesInFlight (js "my note") boundState = []
  /\ Exists (fun c => sanitizeChar c <> c) (js "my note")
  /\ js "my note" ∈ keysToDelete
       (validateFileIndex
          (store (settle (length (inflight boundState)) None
                    (writeState (js "my note") 0 boundState).1))
          [] {[ js "my note" := fileEntry ]}).
Proof.
  assert (R : reachable boundState) by apply reachable_run.
  assert (F : savesInFlight (js "my note") boundState = [])
    by (vm_compute; reflexivity).
  assert (E : Exists (fun c => sanitizeChar c <> c) (js "my note"))
    by (do 2 apply Exists_cons_tl; apply Exists_cons_hd; vm_compute; discriminate).
  assert (S : is_Some (({[ js "my note" := fileEntry ]} : gmap jsstring Metadata)
                         !! js "my note"))
    by (exists fileEntry; vm_compute; reflexivity).
  assert (T : isFolder (({[ js "my note" := fileEntry ]} : gmap jsstring Metadata)
                          !! js "my note") = false)
    by (vm_compute; reflexivity).
  assert (M : store boundState !! minioKey (js "my note") = None)
    by (vm_compute; reflexivity).
  split; [exact R|]. split; [exact F|]. split; [exact E|].
  exact (proj1 (proj2 (unsanitary_entry_is_dropped boundState (js "my note") 0
                         {[ js "my note" := fileEntry ]} R F E S T M))).
Defined.

(** X22.  An index entry keyed by the path of a saved room is removed by
    reconciliation although the room has just been saved, unless some object
    happens to sit at the sanitised path: the check looks under the path,
    the save writes under the room name. *)
Theorem path_entry_is_dropped st docName ydoc fileIndex p :
  reachable st -> savesInFlight docName st = [] ->
  docName <> [] -> roomToPath docName = Normal p ->
  is_Some (fileIndex !! p) -> isFolder (fileIndex !! p) = false ->
  store st !! minioKey p = None ->
  let st'' := settle (length (inflight st)) None (writeState docName ydoc st).1 in
  let r := validateFileIndex (store st'') [] fileIndex in
  is_Some (store st'' !! objectKey docName)
  /\ p ∈ keysToDelete r
  /\ filesAfter r !! p = None.
Proof.
  intros Hr Hf Hne Hp Hs Hnf Hmiss. apply entry_dropped_after_save; try done.
  intros E. apply roomToPath_length in Hp.
  apply (f_equal length) in E. rewrite minioKey_length, objectKey_length in E.
  destruct docName; [done|]. cbn in *. lia.
Qed.

Lemma path_entry_is_dropped_witness :
  reachable boundState /\ savesInFlight fooRoom boundState = []
  /\ roomToPath fooRoom = Normal (js "foo.md")
  /\ js "foo.md" ∈ keysToDelete
       (validateFileIndex
          (store (settle (length (inflight boundState)) None
                    (writeState fooRoom 0 boundState).1))
          [] {[ js "foo.md" := fileEntry ]}).
Proof.
  assert (R : reachable boundState) by apply reachable_run.
  assert (F : savesInFlight fooRoom boundState = []) by (vm_compute; reflexivity).
  assert (N : fooRoom <> []) by (vm_compute; discriminate).
  assert (P : roomToPath fooRoom = Normal (js "foo.md")) by reflexivity.
  assert (S : is_Some (({[ js "foo.md" := fileEntry ]} : gmap jsstring Metadata)
                         !! js "foo.md"))
    by (exists fileEntry; vm_compute; reflexivity).
  assert (T : isFolder (({[ js "foo.md" := fileEntry ]} : gmap jsstring Metadata)
                          !! js "foo.md") = false)
    by (vm_compute; reflexivity).
  assert (M : store boundState !! minioKey (js "foo.md") = None)
    by (vm_compute; reflexivity).
  split; [exact R|]. split; [exact F|]. split; [exact P|].
  exact (proj1 (proj2 (path_entry_is_dropped boundState fooRoom 0
                         {[ js "foo.md" := fileEntry ]} (js "foo.md")
                         R F N P S T M))).
Defined.

(** *** The earlier variant *)

(** X23.  The earlier variant's [saveToMinIO] does exactly what that of
    index.js does whenever the document's text is not empty or the document
    is the file index. *)
Theorem legacy_agrees_on_documents_with_text st docName ydoc :
  content (getDoc st ydoc) <> [] \/ docName = fileIndexName ->
  Legacy.saveToMinIO docName ydoc st = saveToMinIO docName ydoc st.
Proof.
  intros H. unfold Legacy.saveToMinIO, saveToMinIO.
  destruct (saveLocks st !! docName) as [[]|]; [done|..];
    change (getDoc (set_saveLocks _ st) ydoc) with (getDoc st ydoc).
  all: destruct H as [H| ->];
    [ destruct (content (getDoc st ydoc)); [done|reflexivity]
    | rewrite bool_decide_eq_true_2 by done; by rewrite andb_false_r ].
Qed.

Lemma legacy_agrees_on_documents_with_text_witness :
  (content (getDoc (mutate 0 (draft (js "x")) (init ∅)) 0) <> []
   \/ fooRoom = fileIndexName)
  /\ Legacy.saveToMinIO fooRoom 0 (mutate 0 (draft (js "x")) (init ∅))
     = saveToMinIO fooRoom 0 (mutate 0 (draft (js "x")) (init ∅)).
Proof.
  assert (C : content (getDoc (mutate 0 (draft (js "x")) (init ∅)) 0) <> []
              \/ fooRoom = fileIndexName)
    by (left; vm_compute; discriminate).
  split; [exact C|].
  exact (legacy_agrees_on_documents_with_text _ fooRoom 0 C).
Defined.

(** X24.  In the earlier variant, saving a document with empty text under a
    name other than the file index calls [removeObject]; when that call
    succeeds the stored snapshot is gone and the lock is released. *)
Theorem legacy_deletes_stored_snapshot st docName ydoc :
  saveLocks st !! docName <> Some true ->
  content (getDoc st ydoc) = [] -> docName <> fileIndexName ->
  let st' := (Legacy.saveToMinIO docName ydoc st).1 in
  let st'' := settle (length (inflight st)) None st' in
  requests st' = requests st ++ [RemoveObject (objectKey docName)]
  /\ store st'' = delete (objectKey docName) (store st)
  /\ store st'' !! objectKey docName = None
  /\ saveLocks st'' !! docName = None.
Proof.
  intros Hfree Hempty Hne. cbv zeta.
  assert (E : Legacy.saveToMinIO docName ydoc st
              = (await docName (RemoveObject (objectKey docName))
                   (set_saveLocks (insert docName true) st), Pending)).
  { unfold Legacy.saveToMinIO.
    destruct (saveLocks st !! docName) as [[]|]; [done|..];
      change (getDoc (set_saveLocks _ st) ydoc) with (getDoc st ydoc);
      rewrite Hempty; cbn [length Nat.eqb andb];
      rewrite bool_decide_eq_false_2 by done; reflexivity. }
  rewrite E. cbn [fst].
  unfold settle, await. cbn [inflight set_inflight set_requests set_saveLocks].
  rewrite lookup_app_r by done. rewrite Nat.sub_diag. cbn [lookup list_lookup].
  cbn [store saveLocks requests set_saveLocks set_store set_inflight set_requests
       flightCall flightDoc applyRequest].
  split_and!; [done|done|apply lookup_delete_eq|apply lookup_delete_eq].
Qed.

Lemma legacy_deletes_stored_snapshot_witness :
  saveLocks (init storedBucket) !! fooRoom <> Some true
  /\ content (getDoc (init storedBucket) 0) = []
  /\ fooRoom <> fileIndexName
  /\ store (settle (length (inflight (init storedBucket))) None
              (Legacy.saveToMinIO fooRoom 0 (init storedBucket)).1)
     = delete (objectKey fooRoom) (store (init storedBucket)).
Proof.
  assert (L : saveLocks (init storedBucket) !! fooRoom <> Some true)
    by (vm_compute; discriminate).
  assert (C : content (getDoc (init storedBucket) 0) = []) by reflexivity.
  assert (N : fooRoom <> fileIndexName) by (vm_compute; discriminate).
  split; [exact L|]. split; [exact C|]. split; [exact N|].
  exact (proj1 (proj2 (legacy_deletes_stored_snapshot (init storedBucket) fooRoom 0
                         L C N))).
Defined.

End Reconciling.
